(** * eval: an arithmetic expression evaluator (src/eval.cpp)

    A shallow embedding of the [Evaluator] class: the recursive-descent
    parser [level1] .. [level_top] that compiles a line of text into a
    postfix vector of [Symbol]s, and the two interpreters of that vector,
    [understanding] (fully parenthesised text) and [run] (numbers); and of
    [main], which reads lines and evaluates each.

    Conventions of the embedding.
    - A [double] is a primitive binary64 [float]; [+ - * /] and unary minus
      are the IEEE operations of the kernel.
    - The pair ([line], [pos]) of the class is kept as the unread suffix
      [&line[pos]]: [pos ++] drops one character, [line[pos]] is the first
      character of the suffix, and the terminating NUL is the end of the
      string (a NUL inside the string reads as the end, as for a C string).
    - [std::cout] is the list [cout] of the items written, oldest first.
    - A [std::vector] used as a stack is a list whose head is [back()];
      [back()] or [pop_back()] on an empty vector and an index out of range
      are undefined behaviour, which the interpreters report as [Undefined].
    - An [unsigned int] is a natural number.  The conversion of
      [constants.size() - 1] to [unsigned int] is written out ([to_uint]);
      [pos] itself cannot wrap on a line shorter than 2^32 characters,
      which the theorems that depend on it assume.
    - The parser is recursive on the text; its embedding recurses on a
      [fuel] counter and [parse] supplies enough of it (see
      [parse_terminates]). *)

From Stdlib Require Import ZArith NArith List Ascii String Bool Lia Floats.
Import ListNotations.

Local Open Scope string_scope.
Local Open Scope list_scope.

(** ** The C and C++ library functions the program calls

    None of these is code of the repository; each is written out from the
    ISO C / C++ library description, in the "C" locale the program runs in
    (it never calls [setlocale]). *)

Module CLib.

Definition code (c : ascii) : N := N_of_ascii c.

Definition in_range (lo hi : N) (c : ascii) : bool :=
  (lo <=? code c)%N && (code c <=? hi)%N.

(** <cctype> *)
Definition isdigit (c : ascii) : bool := in_range 48 57 c.
Definition isupper (c : ascii) : bool := in_range 65 90 c.
Definition islower (c : ascii) : bool := in_range 97 122 c.
Definition isalpha (c : ascii) : bool := isupper c || islower c.
Definition isalnum (c : ascii) : bool := isalpha c || isdigit c.
Definition isspace (c : ascii) : bool := (code c =? 32)%N || in_range 9 13 c.
Definition isprint (c : ascii) : bool := in_range 32 126 c.

(** *** strtod

    [strtod s] is the pair of the converted value and [endptr], the suffix
    of [s] after the longest prefix that has the form of a floating
    constant.  [get_double] only calls it on a digit, so the leading white
    space, the sign and the INF / NAN forms of the full function cannot
    occur and are left out: what remains is the decimal form
    [digits [. digits] [(e|E) [+|-] digits]] and the hexadecimal form
    [0(x|X) hexdigits [. hexdigits] [(p|P) [+|-] digits]].  The value is the
    binary64 number nearest to the exact one (ties to even), infinity on
    overflow. *)

Definition digit_of (base : Z) (c : ascii) : option Z :=
  let n := Z.of_N (code c) in
  if isdigit c then Some (n - 48)%Z
  else if (base =? 16)%Z && in_range 97 102 c then Some (n - 87)%Z
  else if (base =? 16)%Z && in_range 65 70 c then Some (n - 55)%Z
  else None.

(** The longest run of digits of [s] in [base], read on top of [acc]:
    the number read, how many digits it has, and what follows. *)
Fixpoint read_digits (base : Z) (s : string) (acc : Z) (n : nat)
  : Z * nat * string :=
  match s with
  | String c r =>
      match digit_of base c with
      | Some d => read_digits base r (acc * base + d)%Z (S n)
      | None => (acc, n, s)
      end
  | EmptyString => (acc, n, s)
  end.

(** The mantissa: digits, then optionally the radix character and more
    digits.  Returns the digits read as one integer, the number of digits,
    the number of those after the radix character, and what follows. *)
Definition read_mantissa (base : Z) (s : string) : Z * nat * nat * string :=
  let '(m1, n1, r1) := read_digits base s 0%Z 0 in
  match r1 with
  | String "." r =>
      let '(m2, n2, r2) := read_digits base r m1 n1 in
      (m2, n2, n2 - n1, r2)
  | _ => (m1, n1, 0, r1)
  end.

(** The exponent part introduced by [mark] (e or p, either case): a sign
    and at least one decimal digit, otherwise nothing is consumed. *)
Definition read_exponent (mark : ascii) (s : string) : Z * string :=
  match s with
  | String c r =>
      if (code c =? code mark)%N || (code c + 32 =? code mark)%N then
        let '(neg, r') :=
          match r with
          | String "+" r' => (false, r')
          | String "-" r' => (true, r')
          | _ => (false, r)
          end in
        let '(e, n, r'') := read_digits 10 r' 0%Z 0 in
        match n with
        | O => (0%Z, s)
        | _ => ((if neg then - e else e)%Z, r'')
        end
      else (0%Z, s)
  | EmptyString => (0%Z, s)
  end.

Definition SFpos (m : Z) : spec_float :=
  match m with
  | Zpos p => S754_finite false p 0
  | _ => S754_zero false
  end.

(** The binary64 number nearest to [m * base ^ e], for
    [0 <= m < base ^ width].  The first two tests only spare the
    computation of a huge power: beyond them the value is above the largest
    binary64 number, or below half the smallest one. *)
Definition round_scaled (base m e : Z) (width : nat) : float :=
  if (m =? 0)%Z then PrimFloat.zero
  else if (1300 <? e)%Z then PrimFloat.infinity
  else if (e + Z.of_nat width <? - 1300)%Z then PrimFloat.zero
  else if (0 <=? e)%Z then
    SF2Prim (binary_normalize prec emax (m * base ^ e) 0 false)
  else
    SF2Prim (SFdiv prec emax (SFpos m) (SFpos (base ^ (- e)))).

Definition strtod_dec (s : string) : float * string :=
  let '(m, n, nfrac, r) := read_mantissa 10 s in
  let '(e, r') := read_exponent "e" r in
  (round_scaled 10 m (e - Z.of_nat nfrac) n, r').

Definition strtod_hex (s : string) : option (float * string) :=
  match s with
  | String "0" (String x r) =>
      if (code x =? 120)%N || (code x =? 88)%N then
        let '(m, n, nfrac, r1) := read_mantissa 16 r in
        match n with
        | O => None
        | _ =>
            let '(e, r2) := read_exponent "p" r1 in
            Some (round_scaled 2 m (e - 4 * Z.of_nat nfrac) (4 * n), r2)
        end
      else None
  | _ => None
  end.

Definition strtod (s : string) : float * string :=
  match strtod_hex s with
  | Some r => r
  | None => strtod_dec s
  end.

(** *** operator<< (std::ostream &, double)

    The default formatting of a stream: [printf]'s [%g] with precision 6.
    The value is rounded (ties to even) to six significant decimal digits
    [d] and a decimal exponent [x]; it is written in fixed notation when
    [-4 <= x < 6] and in scientific notation otherwise, trailing zeros
    removed. *)

Definition digit_char (d : Z) : ascii := ascii_of_N (Z.to_N (48 + d)).

(** The [width] low decimal digits of [n], most significant first. *)
Fixpoint digits_of (width : nat) (n : Z) (acc : string) : string :=
  match width with
  | O => acc
  | S w => digits_of w (n / 10)%Z (String (digit_char (n mod 10)%Z) acc)
  end.

Fixpoint strip_zeros_rev (s : list ascii) : list ascii :=
  match s with
  | "0"%char :: r => strip_zeros_rev r
  | _ => s
  end.

Definition strip_zeros (s : string) : string :=
  string_of_list_ascii (rev (strip_zeros_rev (rev (list_ascii_of_string s)))).

(** [num / den] rounded to the nearest integer, ties to even. *)
Definition div_nearest_even (num den : Z) : Z :=
  let q := (num / den)%Z in
  match (2 * (num mod den) ?= den)%Z with
  | Lt => q
  | Gt => (q + 1)%Z
  | Eq => if Z.even q then q else (q + 1)%Z
  end.

(** Is [10 ^ k <= num / den]? *)
Definition ge_pow10 (num den k : Z) : bool :=
  if (0 <=? k)%Z then (den * 10 ^ k <=? num)%Z
  else (den <=? num * 10 ^ (- k))%Z.

(** The decimal exponent of [num / den > 0]: the [k] with
    [10 ^ k <= num / den < 10 ^ (k + 1)]. *)
Definition decimal_exponent (num den : Z) : Z :=
  let est := ((Z.log2 num - Z.log2 den) * 30103 / 100000)%Z in
  if ge_pow10 num den (est + 1) then (est + 1)%Z
  else if ge_pow10 num den est then est
  else (est - 1)%Z.

(** Six significant digits and the decimal exponent of [num / den > 0]. *)
Definition six_digits (num den : Z) : Z * Z :=
  let k := decimal_exponent num den in
  let d := if (k <=? 5)%Z then div_nearest_even (num * 10 ^ (5 - k)) den
           else div_nearest_even num (den * 10 ^ (k - 5)) in
  if (d =? 1000000)%Z then (100000%Z, (k + 1)%Z) else (d, k).

Fixpoint zeros (n : nat) : string :=
  match n with
  | O => ""
  | S n => String "0" (zeros n)
  end.

Definition with_fraction (int frac : string) : string :=
  match strip_zeros frac with
  | "" => int
  | f => int ++ "." ++ f
  end.

Definition exponent_text (x : Z) : string :=
  let a := Z.abs x in
  (if (x <? 0)%Z then "e-" else "e+") ++
  (if (a <? 100)%Z then digits_of 2 a "" else digits_of 3 a "").

Definition format_g (num den : Z) : string :=
  let '(d, x) := six_digits num den in
  let ds := digits_of 6 d "" in
  if ((x <? -4) || (6 <=? x))%Z then
    with_fraction (substring 0 1 ds) (substring 1 5 ds) ++ exponent_text x
  else if (x <? 0)%Z then
    with_fraction "0" (zeros (Z.to_nat (- x - 1)) ++ ds)
  else
    let i := Z.to_nat (x + 1) in
    with_fraction (substring 0 i ds) (substring i (6 - i) ds).

Definition print_double (d : float) : string :=
  match Prim2SF d with
  | S754_zero s => if s then "-0" else "0"
  | S754_infinity s => if s then "-inf" else "inf"
  | S754_nan => "nan"
  | S754_finite s m e =>
      (if s then "-" else "") ++
      (if (0 <=? e)%Z then format_g (Zpos m * 2 ^ e) 1
       else format_g (Zpos m) (2 ^ (- e)))
  end.

(** <cmath>: the functions [run] calls.  Their values are not computed
    here; a theorem that needs one of them says which. *)
Record libm := {
  cos : float -> float;
  exp : float -> float;
  log : float -> float;
  sin : float -> float;
  tan : float -> float;
  pow : float -> float -> float
}.

End CLib.

Import CLib.

(** ** Data model *)

Inductive SymbolType := ASSIGN | CONSTANT | MATHFN | OPERATOR.

(** enum MathFunctions, as the [unsigned int] a [Symbol] stores. *)
Definition EXP : N := 0.
Definition COS : N := 1.
Definition LOG : N := 2.
Definition SIN : N := 3.
Definition TAN : N := 4.

(** A symbol is a type and an [unsigned int] value: an index into
    [constants] (CONSTANT), an element of MathFunctions (MATHFN), or the
    character of the operator (OPERATOR). *)
Record Symbol := mkSymbol { type : SymbolType; value : N }.

(** class Variable ([Var] here, its field [value] is [var_value]): a named
    value. *)
Record Var := mkVar { name : string; var_value : float }.

(** What a statement [cout << ... << endl] of the program writes. *)
Inductive output :=
| Diagnostic (message : string)   (* cout << error(...) << endl *)
| Line (text : string)            (* cout << text << endl *)
| Evaluation (b : float)          (* cout << "Evaluation: " << b << endl *)
| UnknownOperator (v : N).        (* cout << "unknown operator " << v << endl *)

(** class Evaluator.  [line] is the unread input [&line[pos]]; [cout] is
    the console. *)
Record Evaluator := mkEvaluator {
  constants : list float;
  symbols : list Symbol;
  variables : list Var;
  line : string;
  cout : list output
}.

(** Undefined behaviour the interpreters can reach. *)
Inductive undefined :=
| EmptyBack     (* back() or pop_back() on an empty vector *)
| BadIndex.     (* constants[i] with i >= constants.size() *)

Inductive outcome (A : Type) :=
| Returns (a : A)
| Undefined (u : undefined).
Arguments Returns {A} a.
Arguments Undefined {A} u.

(** The value of a [char] as an [unsigned int], and the conversion of a
    [size_t] to [unsigned int]. *)
Definition ch (c : ascii) : N := N_of_ascii c.
Definition to_uint (n : N) : N := (n mod 2 ^ 32)%N.

Definition nl : string := String (ascii_of_N 10) "".

(** ** State updates *)

Definition set_line (l : string) (ev : Evaluator) : Evaluator :=
  mkEvaluator (constants ev) (symbols ev) (variables ev) l (cout ev).

(** symbols.push_back(s) *)
Definition push_symbol (s : Symbol) (ev : Evaluator) : Evaluator :=
  mkEvaluator (constants ev) (symbols ev ++ [s]) (variables ev) (line ev)
    (cout ev).

(** constants.push_back(x) *)
Definition push_constant (x : float) (ev : Evaluator) : Evaluator :=
  mkEvaluator (constants ev ++ [x]) (symbols ev) (variables ev) (line ev)
    (cout ev).

(** cout << o << endl *)
Definition print (o : output) (ev : Evaluator) : Evaluator :=
  mkEvaluator (constants ev) (symbols ev) (variables ev) (line ev)
    (cout ev ++ [o]).

(** symbols.push_back(Symbol(CONSTANT, constants.size() - 1)) *)
Definition push_last_constant (ev : Evaluator) : Evaluator :=
  push_symbol
    (mkSymbol CONSTANT (to_uint (N.of_nat (List.length (constants ev)) - 1)))
    ev.

(** line[pos] *)
Definition cur (ev : Evaluator) : ascii :=
  match line ev with
  | String c _ => c
  | EmptyString => Ascii.zero
  end.

(** line[pos] == c *)
Definition at_char (c : ascii) (ev : Evaluator) : bool := Ascii.eqb (cur ev) c.

(** line[pos] == 0 *)
Definition at_end (ev : Evaluator) : bool := at_char Ascii.zero ev.

(** pos ++ *)
Definition advance (ev : Evaluator) : Evaluator :=
  match line ev with
  | String _ r => set_line r ev
  | EmptyString => ev
  end.

(** ** Lexing *)

(** find_variable: the index of the first variable called [nm], or
    [variables.size()]. *)
Fixpoint find_variable_in (vars : list Var) (nm : string) : nat :=
  match vars with
  | v :: vs => if String.eqb (name v) nm then 0 else S (find_variable_in vs nm)
  | [] => 0
  end.

Definition find_variable (nm : string) (ev : Evaluator) : nat :=
  find_variable_in (variables ev) nm.

(** The characters [error] records: at most [l] of them, up to the end of
    the line; one that is not printable is preceded by a backslash. *)
Fixpoint snippet (l : nat) (s : string) : string :=
  match l, s with
  | S l', String c r =>
      if Ascii.eqb c Ascii.zero then ""
      else if isprint c then String c (snippet l' r)
      else String "\" (String c (snippet l' r))
  | _, _ => ""
  end.

(** error(m), with the default l = 20 ([pos + l] does not wrap). *)
Definition error (m : string) (ev : Evaluator) : string :=
  m ++ nl ++ snippet 20 (line ev) ++ nl ++ "^".

(** cout << error(m) << endl *)
Definition report (m : string) (ev : Evaluator) : Evaluator :=
  print (Diagnostic (error m ev)) ev.

(** get_double: the value read, [pos] moved to [endptr]. *)
Definition get_double (ev : Evaluator) : float * Evaluator :=
  let '(x, endptr) := strtod (line ev) in (x, set_line endptr ev).

(** isname *)
Definition isname (c : ascii) : bool := isalnum c || Ascii.eqb c "_".

(** The longest prefix of name characters, and what follows it. *)
Fixpoint span_name (s : string) : string * string :=
  match s with
  | String c r =>
      if isname c then let '(n, r') := span_name r in (String c n, r')
      else ("", s)
  | EmptyString => ("", s)
  end.

(** get_name: the current character, then every name character after it.
    [level_top] calls it on a letter or an underscore only. *)
Definition get_name (ev : Evaluator) : string * Evaluator :=
  match line ev with
  | String c r => let '(n, r') := span_name r in (String c n, set_line r' ev)
  | EmptyString => ("", ev)
  end.

Fixpoint skip_space (s : string) : string :=
  match s with
  | String c r => if isspace c then skip_space r else s
  | EmptyString => s
  end.

(** eatspace *)
Definition eatspace (ev : Evaluator) : Evaluator :=
  set_line (skip_space (line ev)) ev.

(** nextch *)
Definition nextch (ev : Evaluator) : Evaluator := eatspace (advance ev).

(** ** The parser

    Each level returns [Some (b, ev)]: the [bool] the C++ function returns
    and the state it leaves; [None] only when [fuel] runs out. *)

Definition parsed := option (bool * Evaluator).

(** [if (! p()) return false;] followed by [k]. *)
Definition guard (r : parsed) (k : Evaluator -> parsed) : parsed :=
  match r with
  | Some (true, ev) => k ev
  | Some (false, ev) => Some (false, ev)
  | None => None
  end.

Definition operator (c : ascii) : Symbol := mkSymbol OPERATOR (ch c).

(** The chain [name == "cos"], [name == "exp"], ... of level_top. *)
Definition math_function (nm : string) : option N :=
  if String.eqb nm "cos" then Some COS
  else if String.eqb nm "exp" then Some EXP
  else if String.eqb nm "log" then Some LOG
  else if String.eqb nm "sin" then Some SIN
  else if String.eqb nm "tan" then Some TAN
  else None.

(** The last branch of the chain: [name] is not a predefined function.
    [find_variable] returns [variables.size()] exactly when [nth_error]
    finds nothing (see [find_variable_in_spec]). *)
Definition variable_value (nm : string) (ev : Evaluator) : parsed :=
  match nth_error (variables ev) (find_variable nm ev) with
  | Some v => Some (true, push_last_constant (push_constant (var_value v) ev))
  | None => Some (false, report ("unknown name: " ++ nm)%string ev)
  end.

(** level1 .. level_top.  A [while] loop of a level is the function
    [_loop] after it. *)
Fixpoint level1 (fuel : nat) (ev : Evaluator) {struct fuel} : parsed :=
  match fuel with
  | O => None
  | S fuel => guard (level2 fuel ev) (level1_loop fuel)
  end

(** while (line[pos] == '+' || line[pos] == '-') *)
with level1_loop (fuel : nat) (ev : Evaluator) {struct fuel} : parsed :=
  match fuel with
  | O => None
  | S fuel =>
      if at_char "+" ev || at_char "-" ev then
        let op := cur ev in
        guard (level2 fuel (nextch ev)) (fun ev' =>
          level1_loop fuel
            (push_symbol
               (if Ascii.eqb op "+" then operator "+" else operator "-") ev'))
      else Some (true, ev)
  end

with level2 (fuel : nat) (ev : Evaluator) {struct fuel} : parsed :=
  match fuel with
  | O => None
  | S fuel => guard (level3 fuel ev) (level2_loop fuel)
  end

(** while (line[pos] == '*' || line[pos] == '/') *)
with level2_loop (fuel : nat) (ev : Evaluator) {struct fuel} : parsed :=
  match fuel with
  | O => None
  | S fuel =>
      if at_char "*" ev || at_char "/" ev then
        let op := cur ev in
        guard (level3 fuel (nextch ev)) (fun ev' =>
          level2_loop fuel
            (push_symbol
               (if Ascii.eqb op "*" then operator "*" else operator "/") ev'))
      else Some (true, ev)
  end

with level3 (fuel : nat) (ev : Evaluator) {struct fuel} : parsed :=
  match fuel with
  | O => None
  | S fuel =>
      if at_char "-" ev then
        guard (level3 fuel (nextch ev)) (fun ev' =>
          Some (true, push_symbol (operator "n") ev'))
      else level4 fuel ev
  end

with level4 (fuel : nat) (ev : Evaluator) {struct fuel} : parsed :=
  match fuel with
  | O => None
  | S fuel => guard (level_top fuel ev) (level4_loop fuel)
  end

(** while (line[pos] == '^') *)
with level4_loop (fuel : nat) (ev : Evaluator) {struct fuel} : parsed :=
  match fuel with
  | O => None
  | S fuel =>
      if at_char "^" ev then
        guard (level3 fuel (nextch ev)) (fun ev' =>
          level4_loop fuel (push_symbol (operator "^") ev'))
      else Some (true, ev)
  end

with level_top (fuel : nat) (ev : Evaluator) {struct fuel} : parsed :=
  match fuel with
  | O => None
  | S fuel =>
      if isdigit (cur ev) then
        let '(x, ev1) := get_double ev in
        Some (true, push_last_constant (eatspace (push_constant x ev1)))
      else if at_char "(" ev then
        guard (level1 fuel (nextch ev)) (fun ev' =>
          if negb (at_char ")" ev') then
            Some (false, report "expected ')'" ev')
          else Some (true, nextch ev'))
      else if isalpha (cur ev) || at_char "_" ev then
        let '(nm, ev1) := get_name ev in
        let ev2 := eatspace ev1 in
        match math_function nm with
        | Some f =>
            guard (level3 fuel ev2) (fun ev' =>
              Some (true, push_symbol (mkSymbol MATHFN f) ev'))
        | None => variable_value nm ev2
        end
      else if at_end ev then
        (* no [return false] here: the function falls through to the
           final [return true] *)
        Some (true, report "unexpected end of input" ev)
      else Some (false, report "unexpected character" ev)
  end.

(** The loop of [parse]. *)
Fixpoint parse_loop (fuel : nat) (ev : Evaluator) {struct fuel} : parsed :=
  match fuel with
  | O => None
  | S fuel =>
      if at_end ev then Some (true, ev)
      else
        guard (level1 fuel ev) (fun ev' =>
          if negb (at_char ";" ev') && negb (at_end ev') then
            Some (false, report "expected ';' or end of input" ev')
          else
            let ev'' := push_symbol (operator ";") ev' in
            parse_loop fuel (if at_char ";" ev'' then nextch ev'' else ev''))
  end.

(** Fuel that suffices for a line: five nested calls per character. *)
Definition fuel_of (str : string) : nat := 5 * String.length str + 7.

(** parse *)
Definition parse (str : string) (ev : Evaluator) : parsed :=
  parse_loop (fuel_of str) (eatspace (set_line str ev)).

(** ** The two interpreters *)

(** The chain [value == COS], [value == EXP], ... of understanding. *)
Definition function_name (f : N) : option string :=
  if (f =? COS)%N then Some "cos"
  else if (f =? EXP)%N then Some "exp"
  else if (f =? LOG)%N then Some "log"
  else if (f =? SIN)%N then Some "sin"
  else if (f =? TAN)%N then Some "tan"
  else None.

(** dtostr *)
Definition dtostr (d : float) : string := print_double d.

Definition binary_text (a : string) (op : ascii) (b : string) : string :=
  "(" ++ a ++ String op b ++ ")".

(** The loop of [understanding] from symbol [i] on: [syms] are the symbols
    left, [s] the stack and [expr] the text so far.  It returns the string
    [understanding] returns and what it wrote on the console. *)
Fixpoint understanding_loop (consts : list float) (syms : list Symbol)
    (s : list string) (expr : string) : outcome (string * list output) :=
  match syms with
  | [] =>
      match s with
      | [] => Returns (expr, [])
      | _ => Returns ("????", [Line "unfinished"])
      end
  | sym :: rest =>
      match type sym with
      | CONSTANT =>
          match nth_error consts (N.to_nat (value sym)) with
          | Some c => understanding_loop consts rest (dtostr c :: s) expr
          | None => Undefined BadIndex
          end
      | MATHFN =>
          match s with
          | [] => Undefined EmptyBack
          | b :: s' =>
              match function_name (value sym) with
              | Some temp =>
                  understanding_loop consts rest
                    ((temp ++ "(" ++ b ++ ")")%string :: s') expr
              | None => Returns ("????", [])
              end
          end
      | OPERATOR =>
          match s with
          | [] => Undefined EmptyBack
          | b :: s' =>
              if (value sym =? ch ";")%N then
                understanding_loop consts rest s'
                  (expr ++ b ++ ";" ++ nl)%string
              else if (value sym =? ch "n")%N then
                understanding_loop consts rest
                  (("(-" ++ b ++ ")")%string :: s') expr
              else
                match s' with
                | [] => Undefined EmptyBack
                | a :: s'' =>
                    if (value sym =? ch "+")%N then
                      understanding_loop consts rest
                        (binary_text a "+" b :: s'') expr
                    else if (value sym =? ch "-")%N then
                      understanding_loop consts rest
                        (binary_text a "-" b :: s'') expr
                    else if (value sym =? ch "*")%N then
                      understanding_loop consts rest
                        (binary_text a "*" b :: s'') expr
                    else if (value sym =? ch "/")%N then
                      understanding_loop consts rest
                        (binary_text a "/" b :: s'') expr
                    else if (value sym =? ch "^")%N then
                      understanding_loop consts rest
                        (binary_text a "^" b :: s'') expr
                    else Returns ("????", [])
                end
          end
      | ASSIGN => understanding_loop consts rest s expr
      end
  end.

(** understanding *)
Definition understanding (ev : Evaluator) : outcome (string * list output) :=
  understanding_loop (constants ev) (symbols ev) [] "".

(** The chain [value == COS], [value == EXP], ... of run. *)
Definition apply_function (M : libm) (f : N) (b : float) : option float :=
  if (f =? COS)%N then Some (cos M b)
  else if (f =? EXP)%N then Some (exp M b)
  else if (f =? LOG)%N then Some (log M b)
  else if (f =? SIN)%N then Some (sin M b)
  else if (f =? TAN)%N then Some (tan M b)
  else None.

(** The chain [value == '+'], [value == '-'], ... of run. *)
Definition apply_binary (M : libm) (op : N) (a b : float) : option float :=
  if (op =? ch "+")%N then Some (a + b)%float
  else if (op =? ch "-")%N then Some (a - b)%float
  else if (op =? ch "*")%N then Some (a * b)%float
  else if (op =? ch "/")%N then Some (a / b)%float
  else if (op =? ch "^")%N then Some (pow M a b)
  else None.

(** The loop of [run] from symbol [i] on: [syms] are the symbols left, [s]
    the stack, [out] what has been written.  It returns the [bool] that
    [run] returns and everything written. *)
Fixpoint run_loop (M : libm) (consts : list float) (syms : list Symbol)
    (s : list float) (out : list output) : outcome (bool * list output) :=
  match syms with
  | [] =>
      match s with
      | [] => Returns (true, out)
      | _ => Returns (false, out ++ [Line "unfinished"])
      end
  | sym :: rest =>
      match type sym with
      | CONSTANT =>
          match nth_error consts (N.to_nat (value sym)) with
          | Some c => run_loop M consts rest (c :: s) out
          | None => Undefined BadIndex
          end
      | MATHFN =>
          match s with
          | [] => Undefined EmptyBack
          | b :: s' =>
              match apply_function M (value sym) b with
              | Some r => run_loop M consts rest (r :: s') out
              | None => Returns (false, out ++ [Line "unknown math function"])
              end
          end
      | OPERATOR =>
          match s with
          | [] => Undefined EmptyBack
          | b :: s' =>
              if (value sym =? ch ";")%N then
                run_loop M consts rest s' (out ++ [Evaluation b])
              else if (value sym =? ch "n")%N then
                run_loop M consts rest ((- b)%float :: s') out
              else
                match s' with
                | [] => Undefined EmptyBack
                | a :: s'' =>
                    match apply_binary M (value sym) a b with
                    | Some r => run_loop M consts rest (r :: s'') out
                    | None =>
                        Returns (false, out ++ [UnknownOperator (value sym)])
                    end
                end
          end
      | ASSIGN => run_loop M consts rest s out
      end
  end.

(** run: the [bool] returned and what was written. *)
Definition run (M : libm) (ev : Evaluator) : outcome (bool * list output) :=
  run_loop M (constants ev) (symbols ev) [] [].

(** clear *)
Definition clear (ev : Evaluator) : Evaluator :=
  mkEvaluator [] [] (variables ev) (line ev) (cout ev).

(** The constructor: two variables, nothing else.  The literals
    2.7182818284590452353603 and 3.1415926535897932384626 of the source are
    the binary64 numbers written here exactly. *)
Definition Evaluator_new : Evaluator :=
  mkEvaluator [] []
    [mkVar "e" 0x1.5bf0a8b145769p+1; mkVar "pi" 0x1.921fb54442d18p+1]
    "" [].

Definition write (items : list output) (ev : Evaluator) : Evaluator :=
  mkEvaluator (constants ev) (symbols ev) (variables ev) (line ev)
    (cout ev ++ items).

(** eval.  The operands of the [<<] chain are evaluated left to right, so
    "Understanding:" is written before [understanding] runs. *)
Definition eval (M : libm) (str : string) (ev : Evaluator)
  : option (outcome (bool * Evaluator)) :=
  match parse str ev with
  | None => None
  | Some (false, ev1) => Some (Returns (false, ev1))
  | Some (true, ev1) =>
      let ev2 := print (Line "Understanding:") ev1 in
      match understanding ev2 with
      | Undefined u => Some (Undefined u)
      | Returns (text, written) =>
          let ev3 := print (Line text) (write written ev2) in
          match run M ev3 with
          | Undefined u => Some (Undefined u)
          | Returns (b, written') => Some (Returns (b, write written' ev3))
          end
      end
  end.

(** ** Expressions

    The parser builds no tree; the one below describes, for the proofs,
    what a run of a level has recognised.  [compile] is the postfix code
    the level appends for it, [leaves] the constants it appends, [show] the
    text [understanding] builds for it and [number] what [run] computes. *)

Inductive fn := Fcos | Fexp | Flog | Fsin | Ftan.
Inductive binop := Add | Sub | Mul | Div | Pow.

Inductive expr :=
| Const (c : float)
| Call (f : fn) (e : expr)
| Neg (e : expr)
| Binary (op : binop) (a b : expr).

Definition fn_id (f : fn) : N :=
  match f with
  | Fcos => COS | Fexp => EXP | Flog => LOG | Fsin => SIN | Ftan => TAN
  end.

Definition fn_name (f : fn) : string :=
  match f with
  | Fcos => "cos" | Fexp => "exp" | Flog => "log" | Fsin => "sin"
  | Ftan => "tan"
  end.

Definition fn_apply (M : libm) (f : fn) : float -> float :=
  match f with
  | Fcos => cos M | Fexp => exp M | Flog => log M | Fsin => sin M
  | Ftan => tan M
  end.

Definition op_char (op : binop) : ascii :=
  match op with
  | Add => "+" | Sub => "-" | Mul => "*" | Div => "/" | Pow => "^"
  end.

Definition op_apply (M : libm) (op : binop) (a b : float) : float :=
  match op with
  | Add => a + b | Sub => a - b | Mul => a * b | Div => a / b
  | Pow => pow M a b
  end.

Fixpoint leaves (e : expr) : list float :=
  match e with
  | Const c => [c]
  | Call _ e => leaves e
  | Neg e => leaves e
  | Binary _ a b => leaves a ++ leaves b
  end.

(** The code of [e] when [base] constants are in the pool already. *)
Fixpoint compile (base : nat) (e : expr) : list Symbol :=
  match e with
  | Const _ => [mkSymbol CONSTANT (N.of_nat base)]
  | Call f e => compile base e ++ [mkSymbol MATHFN (fn_id f)]
  | Neg e => compile base e ++ [operator "n"]
  | Binary op a b =>
      compile base a ++ compile (base + List.length (leaves a)) b ++
      [operator (op_char op)]
  end.

Fixpoint show (e : expr) : string :=
  match e with
  | Const c => dtostr c
  | Call f e => fn_name f ++ "(" ++ show e ++ ")"
  | Neg e => "(-" ++ show e ++ ")"
  | Binary op a b => binary_text (show a) (op_char op) (show b)
  end.

Fixpoint number (M : libm) (e : expr) : float :=
  match e with
  | Const c => c
  | Call f e => fn_apply M f (number M e)
  | Neg e => (- number M e)%float
  | Binary op a b => op_apply M op (number M a) (number M b)
  end.

(** A line: its statements, each closed by [;]. *)
Fixpoint compile_program (base : nat) (es : list expr) : list Symbol :=
  match es with
  | [] => []
  | e :: es =>
      compile base e ++ operator ";" ::
      compile_program (base + List.length (leaves e)) es
  end.

Fixpoint show_program (es : list expr) : string :=
  match es with
  | [] => ""
  | e :: es => show e ++ ";" ++ nl ++ show_program es
  end.

Definition program_leaves (es : list expr) : list float :=
  List.concat (map leaves es).

(** The state [b] is the state [a] with the code and the constants of [e]
    appended. *)
Definition builds (a : Evaluator) (e : expr) (b : Evaluator) : Prop :=
  symbols b = symbols a ++ compile (List.length (constants a)) e /\
  constants b = constants a ++ leaves e.

Definition builds_program (a : Evaluator) (es : list expr) (b : Evaluator)
  : Prop :=
  symbols b = symbols a ++ compile_program (List.length (constants a)) es /\
  constants b = constants a ++ program_leaves es.

(** The indices of the constants fit an [unsigned int]: the pool grows by
    at most one constant per character read. *)
Definition small (ev : Evaluator) : Prop :=
  (N.of_nat (List.length (constants ev) + String.length (line ev)) < 2 ^ 32)%N.

(** ** Reading the reconstruction back *)

(** The characters that follow an operand in the text of [understanding]. *)
Definition delimiter (k : ascii) : bool :=
  existsb (Ascii.eqb k) [")"; ";"; "+"; "-"; "*"; "/"; "^"]%char.

(** The text [dtostr] writes for [c] starts with a digit, and [strtod]
    reads exactly that text, as [c'], when a delimiter follows it. *)
Definition reads_back (c c' : float) : Prop :=
  (exists d r, dtostr c = String d r /\ isdigit d = true) /\
  forall k rest, delimiter k = true ->
    strtod (dtostr c ++ String k rest) = (c', String k rest).

Definition readable (c : float) : Prop := exists c', reads_back c c'.

Definition is_call (e : expr) : bool :=
  match e with
  | Call _ _ => true
  | _ => false
  end.

(** No function application is the left operand of [^]: its text
    [name(arg)] has no parentheses of its own, and level_top would read
    [name(arg)^b] as [name((arg)^b)]. *)
Fixpoint unambiguous (e : expr) : Prop :=
  match e with
  | Const _ => True
  | Call _ e => unambiguous e
  | Neg e => unambiguous e
  | Binary op a b =>
      unambiguous a /\ unambiguous b /\ (op = Pow -> is_call a = false)
  end.

(** [b] is [a] with the code of [e] appended, and constants that are the
    constants of [e] read back. *)
Definition rebuilt (a : Evaluator) (e : expr) (b : Evaluator) : Prop :=
  symbols b = symbols a ++ compile (List.length (constants a)) e /\
  (exists cs, constants b = constants a ++ cs /\
     Forall2 reads_back (leaves e) cs) /\
  cout b = cout a /\ variables b = variables a.

Definition rebuilt_program (a : Evaluator) (es : list expr) (b : Evaluator)
  : Prop :=
  symbols b = symbols a ++ compile_program (List.length (constants a)) es /\
  (exists cs, constants b = constants a ++ cs /\
     Forall2 reads_back (program_leaves es) cs) /\
  cout b = cout a /\ variables b = variables a.

(** Two states with the same vectors and console. *)
Definition same (a b : Evaluator) : Prop :=
  symbols b = symbols a /\ constants b = constants a /\
  cout b = cout a /\ variables b = variables a.

(** Room for the constants of [e] in the pool of [ev]. *)
Definition fits (ev : Evaluator) (n : nat) : Prop :=
  (N.of_nat (List.length (constants ev) + n) < 2 ^ 32)%N.

(** A text that starts with neither white space nor a minus sign. *)
Definition plain (s : string) : Prop :=
  exists c r, s = String c r /\ isspace c = false /\ Ascii.eqb c "-" = false.

(** The level [p] entered in [ev] returns [r], given fuel. *)
Definition runs (p : nat -> Evaluator -> parsed) (ev : Evaluator)
    (r : bool * Evaluator) : Prop :=
  exists fuel, p fuel ev = Some r.

(** The level [p] reads the text of [e], followed by [k], as [e]. *)
Definition reparses (p : nat -> Evaluator -> parsed) (e : expr) (k : ascii)
  : Prop :=
  forall rest ev,
    line ev = (show e ++ String k rest)%string ->
    fits ev (List.length (leaves e)) ->
    exists ev', runs p ev (true, ev') /\ line ev' = String k rest /\
                rebuilt ev e ev'.

(** The evaluator as [clear] leaves it: no constants, no symbols. *)
Definition cleared (ev : Evaluator) : Prop :=
  constants ev = [] /\ symbols ev = [].

(** [text] comes back from [strtod] as the very number it was written
    for. *)
Definition exact (c : float) : Prop := reads_back c c.

(** A replay of the program over a stack of flags, one per operand: is the
    operand the result of a function?  The answer is [false] as soon as a
    [^] finds such an operand on its left. *)
Fixpoint unambiguous_code (syms : list Symbol) (s : list bool) : bool :=
  match syms with
  | [] => true
  | sym :: rest =>
      match type sym with
      | ASSIGN => unambiguous_code rest s
      | CONSTANT => unambiguous_code rest (false :: s)
      | MATHFN => unambiguous_code rest (true :: tl s)
      | OPERATOR =>
          if (value sym =? ch ";")%N then unambiguous_code rest (tl s)
          else if (value sym =? ch "n")%N then
            unambiguous_code rest (false :: tl s)
          else if (value sym =? ch "^")%N && hd false (tl s) then false
          else unambiguous_code rest (false :: tl (tl s))
      end
  end.

(** ** Vocabulary of the properties *)

(** [P] holds of the eight functions of the parser. *)
Definition all_levels (P : (Evaluator -> parsed) -> Prop) (fuel : nat) : Prop :=
  P (level1 fuel) /\ P (level1_loop fuel) /\
  P (level2 fuel) /\ P (level2_loop fuel) /\
  P (level3 fuel) /\ P (level4 fuel) /\
  P (level4_loop fuel) /\ P (level_top fuel).

(** Whenever [p] returns, [Q] relates the state it was entered in, the
    [bool] it returns and the state it leaves. *)
Definition respects (Q : Evaluator -> bool -> Evaluator -> Prop)
    (p : Evaluator -> parsed) : Prop :=
  forall ev b ev', p ev = Some (b, ev') -> Q ev b ev'.

(** The symbols the parser is meant to produce. *)
Definition well_formed (s : Symbol) : Prop :=
  match type s with
  | ASSIGN => False
  | CONSTANT => True
  | MATHFN => In (value s) [EXP; COS; LOG; SIN; TAN]
  | OPERATOR => In (value s) (map ch ["+"; "-"; "*"; "/"; "^"; "n"; ";"]%char)
  end.

(** The symbols are only appended to, and with well-formed symbols. *)
Definition appends_symbols (a : Evaluator) (_ : bool) (b : Evaluator) : Prop :=
  exists code, symbols b = symbols a ++ code /\ Forall well_formed code.

(** The constants are only appended to, one per character read at least. *)
Definition consumes (a : Evaluator) (_ : bool) (b : Evaluator) : Prop :=
  exists cs, constants b = constants a ++ cs /\
    String.length (line b) + List.length cs <= String.length (line a).

(** The variables are left alone. *)
Definition keeps_variables (a : Evaluator) (_ : bool) (b : Evaluator) : Prop :=
  variables b = variables a.

Definition report_item (o : output) : Prop := exists m, o = Diagnostic m.

(** The report of level_top at the end of the input. *)
Definition end_report (o : output) : Prop :=
  exists ev, at_end ev = true /\
    o = Diagnostic (error "unexpected end of input" ev).

(** The console is only appended to, and with reports only: a level that
    returns false has reported an error, and one that returns true has
    written nothing but reports of the end of the input. *)
Definition diagnoses (a : Evaluator) (r : bool) (b : Evaluator) : Prop :=
  exists d, cout b = cout a ++ d /\ Forall report_item d /\
    (r = false -> d <> []) /\ (r = true -> Forall end_report d).

(** More fuel than [fuel] does not change what [p] returns with [fuel]. *)
Definition stable (p : nat -> Evaluator -> parsed) (fuel : nat) : Prop :=
  forall fuel' ev r, fuel <= fuel' -> p fuel ev = Some r -> p fuel' ev = Some r.

(** With [need] units of fuel, [p] returns on every line of at most [n]
    characters. *)
Definition returns_within (p : nat -> Evaluator -> parsed) (need : nat)
    (n : nat) : Prop :=
  forall fuel ev, String.length (line ev) <= n -> need <= fuel ->
    exists b ev', p fuel ev = Some (b, ev').

(** When [p] returns true and has reported nothing, it has appended the
    code and the constants of an expression. *)
Definition sound (p : Evaluator -> parsed) : Prop :=
  forall ev ev', p ev = Some (true, ev') -> cout ev' = cout ev -> small ev ->
    exists e, builds ev e ev'.

(** A loop continues the expression [a] recognised since [ev0]. *)
Definition loop_sound (p : Evaluator -> parsed) : Prop :=
  forall ev0 a ev ev', builds ev0 a ev ->
    p ev = Some (true, ev') -> cout ev' = cout ev -> small ev ->
    exists e, builds ev0 e ev'.


(** A small libm, enough to show that what the theorems below assume of
    the library can be met: powers with an integer exponent by repeated
    multiplication, and the first terms of the Taylor series otherwise. *)

Definition integer_of (y : float) : option Z :=
  match Prim2SF y with
  | S754_zero _ => Some 0%Z
  | S754_finite s m e =>
      let n := if (0 <=? e)%Z then Some (Zpos m * 2 ^ e)%Z
               else if (Zpos m mod 2 ^ (- e) =? 0)%Z
                    then Some (Zpos m / 2 ^ (- e))%Z
                    else None in
      option_map (fun n => if s then (- n)%Z else n) n
  | _ => None
  end.

Fixpoint power (x : float) (n : nat) : float :=
  match n with
  | O => 1%float
  | S n => (x * power x n)%float
  end.

Definition small_pow (x y : float) : float :=
  match integer_of y with
  | Some n =>
      if (0 <=? n)%Z then power x (Z.to_nat n)
      else (1 / power x (Z.to_nat (- n)))%float
  | None => PrimFloat.nan
  end.

Definition small_libm : libm :=
  {| cos := fun x => (1 - x * x / 2)%float;
     exp := fun x => (1 + x + x * x / 2)%float;
     log := fun x => ((x - 1) - (x - 1) * (x - 1) / 2)%float;
     sin := fun x => (x * (1 - x * x / 6))%float;
     tan := fun x => (x * (1 + x * x / 3))%float;
     pow := small_pow |}.

(** ** The grammar the levels read

    The text of an expression with the parentheses the levels of the
    parser need, and no other.  [level_of e] is the highest level that
    reads [bare e] as it stands; an operand that the level in charge of it
    cannot read is put in parentheses; a function name is followed by one
    space. *)

Definition level_of (e : expr) : nat :=
  match e with
  | Binary Add _ _ | Binary Sub _ _ => 1
  | Binary Mul _ _ | Binary Div _ _ => 2
  | Neg _ => 3
  | Binary Pow _ _ | Call _ _ => 4
  | Const _ => 5
  end.

Definition bracket (l : nat) (e : expr) (t : string) : string :=
  if Nat.leb l (level_of e) then t else ("(" ++ t ++ ")")%string.






(** A text that starts with a character which is neither white space nor
    the end of the line. *)
Definition unspaced (s : string) : Prop :=
  exists c r, s = String c r /\ isspace c = false /\
    Ascii.eqb c Ascii.zero = false.




(** ** Vocabulary for the interpreters *)

(** The symbol [;], which closes a statement. *)
Definition closes_statement (s : Symbol) : bool :=
  match type s with
  | OPERATOR => (value s =? ch ";")%N
  | _ => false
  end.

(** What [run] writes when it stops before the end of the program, or with
    operands left on the stack. *)
Definition complaint (o : output) : Prop :=
  match o with
  | Line _ | UnknownOperator _ => True
  | _ => False
  end.

(** Every CONSTANT symbol of [syms] is the index of a constant of
    [consts]. *)
Definition indexed (consts : list float) (syms : list Symbol) : Prop :=
  Forall (fun s => type s = CONSTANT ->
                   N.to_nat (value s) < List.length consts) syms.

(** The constants are only appended to, and the symbols stay indices of
    constants. *)
Definition keeps_indices (a : Evaluator) (_ : bool) (b : Evaluator) : Prop :=
  (exists cs, constants b = constants a ++ cs) /\
  (exists code, symbols b = symbols a ++ code /\
     indexed (constants b) code).

(** The reports after which a level returns false. *)
Definition failure (m : string) : Prop :=
  m = "expected ')'" \/ m = "unexpected character" \/
  m = "expected ';' or end of input" \/
  exists nm, m = ("unknown name: " ++ nm)%string.

(** A level that returns false has just written one of these reports. *)
Definition fails_on_report (p : Evaluator -> parsed) : Prop :=
  forall ev ev', p ev = Some (false, ev') ->
    exists m ev1, failure m /\ ev' = report m ev1.

(** The state in which level_top leaves the evaluator after a number. *)
Definition after_number (ev : Evaluator) : Evaluator :=
  push_last_constant
    (eatspace (push_constant (fst (get_double ev)) (snd (get_double ev)))).

(** ** main

    [cin] holds the lines typed, without their line breaks.  main writes
    on the console of the evaluator.  Its prompt is written without a line
    break, so it is not an [output]: [prompts] records where the prompts
    are on the console, each as the number of items written before it.
    When the lines are used up the program is in [getline], waiting:
    [Reading].  (What the loop does once [getline] has failed at the end
    of a file is not described here.) *)

Inductive session :=
| Exited (status : Z) (test : Evaluator) (prompts : list nat)
| Reading (test : Evaluator) (prompts : list nat).

Fixpoint main_loop (M : libm) (cin : list string) (test : Evaluator)
    (prompts : list nat) : option (outcome session) :=
  (* cout << "> " *)
  let prompts := prompts ++ [List.length (cout test)] in
  match cin with
  | [] => Some (Returns (Reading test prompts))
  | input :: cin =>
      if String.eqb input "quit" then Some (Returns (Exited 0 test prompts))
      else
        match eval M input test with
        | None => None
        | Some (Undefined u) => Some (Undefined u)
        | Some (Returns (b, test)) =>
            let test := if b then test else print (Line "error") test in
            main_loop M cin (clear test) prompts
        end
  end.

Definition main (M : libm) (cin : list string) : option (outcome session) :=
  main_loop M cin Evaluator_new [].

(** What main writes in answer to one line, in a new evaluator. *)
Definition reply (M : libm) (input : string)
  : option (outcome (list output)) :=
  match eval M input Evaluator_new with
  | None => None
  | Some (Undefined u) => Some (Undefined u)
  | Some (Returns (b, ev)) =>
      Some (Returns (cout ev ++ if b then [] else [Line "error"]))
  end.

(** Where the prompts before the replies are, [n] items being on the
    console before the first. *)
Fixpoint starts (n : nat) (replies : list (list output)) : list nat :=
  match replies with
  | [] => []
  | r :: rs => n :: starts (n + List.length r) rs
  end.

(** The lines of a session before [quit], and the reply to each. *)
Definition answered (M : libm) (lines : list string)
    (replies : list (list output)) : Prop :=
  Forall2 (fun l r => l <> "quit" /\ reply M l = Some (Returns r))
    lines replies.

(** [ev] with [c] on the console before what [ev] has written. *)
Definition after (c : list output) (ev : Evaluator) : Evaluator :=
  mkEvaluator (constants ev) (symbols ev) (variables ev) (line ev)
    (c ++ cout ev).

Definition parsed_after (c : list output) (r : parsed) : parsed :=
  match r with
  | Some (b, ev) => Some (b, after c ev)
  | None => None
  end.

(** What is on the console has no effect on [p]. *)
Definition blind (p : Evaluator -> parsed) : Prop :=
  forall c ev, p (after c ev) = parsed_after c (p ev).

(** ** Code with a missing operand *)

(** [code] pushes one value on the stack of [run]. *)
Definition pushes (M : libm) (consts : list float) (code : list Symbol)
  : Prop :=
  exists v, forall rest s out,
    run_loop M consts (code ++ rest) s out =
    run_loop M consts rest (v :: s) out.

(** [code] takes the value on top of the stack of [run] in place of an
    operand and leaves one value there; on an empty stack it takes
    [back()] of an empty vector. *)
Definition takes (M : libm) (consts : list float) (code : list Symbol)
  : Prop :=
  (forall rest out,
     run_loop M consts (code ++ rest) [] out = Undefined EmptyBack) /\
  (forall x s, exists y, forall rest out,
     run_loop M consts (code ++ rest) (x :: s) out =
     run_loop M consts rest (y :: s) out).

Definition waits (M : libm) (consts : list float) (code : list Symbol)
  : Prop :=
  code = [] \/ takes M consts code.

(** When [p] returns true and has reported something, it is at the end of
    the line and its code waits for an operand. *)
Definition holes (M : libm) (p : Evaluator -> parsed) : Prop :=
  forall ev ev', p ev = Some (true, ev') -> cout ev' <> cout ev -> small ev ->
    at_end ev' = true /\
    exists code, symbols ev' = symbols ev ++ code /\
      (code = [] -> at_end ev = true) /\
      forall post, waits M (constants ev' ++ post) code.

(** The same for a loop that continues the expression [a] recognised
    since [ev0]. *)
Definition loop_holes (M : libm) (p : Evaluator -> parsed) : Prop :=
  forall ev0 a ev ev', builds ev0 a ev ->
    p ev = Some (true, ev') -> cout ev' <> cout ev -> small ev ->
    at_end ev' = true /\
    exists code, symbols ev' = symbols ev0 ++ code /\
      forall post, takes M (constants ev' ++ post) code.

(** A loop entered at the end of the line returns at once. *)
Definition idle_at_end (p : Evaluator -> parsed) : Prop :=
  forall ev r, at_end ev = true -> p ev = Some r -> r = (true, ev).

(** ** The language of a line

    The texts the parser reads as an expression: numbers, names of
    variables and of functions, operators and parentheses, with white
    space after any of them.  [written vars l e t]: with the variables
    [vars], the text [t] is read as [e] by the level [l] of the parser
    (5 is level_top) when what follows it cannot carry the level on. *)

Definition blank (ws : string) : Prop :=
  forallb isspace (list_ascii_of_string ws) = true.

(** What may follow an operand: the end of the line, [;], [)] or an
    operator. *)
Definition stop (t : string) : Prop :=
  match t with
  | EmptyString => True
  | String k _ => delimiter k = true
  end.

(** [t] does not start with the character [c]. *)
Definition not_at (c : ascii) (t : string) : Prop :=
  match t with
  | EmptyString => True
  | String k _ => Ascii.eqb k c = false
  end.

(** What may follow an operand of level3, level4 or level2, and of
    level1. *)
Definition stop3 (t : string) : Prop := stop t /\ not_at "^" t.

Definition stop1 (t : string) : Prop :=
  stop t /\ not_at "^" t /\ not_at "*" t /\ not_at "/" t.

(** [lit] is a number as [strtod] reads it, of value [c]: it starts with a
    digit, and [strtod] reads it in full when white space, the end of the
    line, [;], [)] or an operator comes after it. *)
Definition literal (lit : string) (c : float) : Prop :=
  (exists d r, lit = String d r /\ isdigit d = true) /\
  forall ws t, blank ws -> stop t ->
    strtod (lit ++ ws ++ t) = (c, (ws ++ t)%string).

(** A name: a letter or an underscore, then letters, digits and
    underscores. *)
Definition is_name (nm : string) : Prop :=
  exists c n, nm = String c n /\
    isalpha c || Ascii.eqb c "_" = true /\
    forallb isname (list_ascii_of_string n) = true.

(** After a name comes white space, or a text that does not start with a
    name character. *)
Definition apart (ws t : string) : Prop :=
  ws <> "" \/
  match t with
  | EmptyString => True
  | String k _ => isname k = false
  end.

Inductive written (vars : list Var) : nat -> expr -> string -> Prop :=
| W_number lit c ws :
    literal lit c -> blank ws -> written vars 5 (Const c) (lit ++ ws)
| W_variable nm v ws :
    is_name nm -> math_function nm = None ->
    nth_error vars (find_variable_in vars nm) = Some v -> blank ws ->
    written vars 5 (Const (var_value v)) (nm ++ ws)
| W_parentheses e t ws1 ws2 :
    written vars 1 e t -> blank ws1 -> blank ws2 ->
    written vars 5 e (String "(" (ws1 ++ t ++ String ")" ws2))
| W_function f x t ws :
    written vars 3 x t -> blank ws -> apart ws t ->
    written vars 4 (Call f x) (fn_name f ++ ws ++ t)
| W_power a ta b tb ws :
    written vars 5 a ta -> written vars 3 b tb -> blank ws ->
    written vars 4 (Binary Pow a b) (ta ++ String "^" (ws ++ tb))
| W_minus x t ws :
    written vars 3 x t -> blank ws ->
    written vars 3 (Neg x) (String "-" (ws ++ t))
| W_product op a ta b tb ws :
    op = Mul \/ op = Div ->
    written vars 2 a ta -> written vars 3 b tb -> blank ws ->
    written vars 2 (Binary op a b) (ta ++ String (op_char op) (ws ++ tb))
| W_sum op a ta b tb ws :
    op = Add \/ op = Sub ->
    written vars 1 a ta -> written vars 2 b tb -> blank ws ->
    written vars 1 (Binary op a b) (ta ++ String (op_char op) (ws ++ tb))
| W_lower l e t : written vars (S l) e t -> written vars l e t.

(** The statements of a line: [;] and white space between them, and
    possibly after the last. *)
Inductive written_line (vars : list Var) : list expr -> string -> Prop :=
| L_end : written_line vars [] ""
| L_last e t : written vars 1 e t -> written_line vars [e] t
| L_statement e t ws es ts :
    written vars 1 e t -> blank ws -> written_line vars es ts ->
    written_line vars (e :: es) (t ++ String ";" (ws ++ ts)).

(** [b] is [a] with the code and the constants of [e] appended. *)
Definition extends (a : Evaluator) (e : expr) (b : Evaluator) : Prop :=
  builds a e b /\ cout b = cout a /\ variables b = variables a.

Definition extends_program (a : Evaluator) (es : list expr) (b : Evaluator)
  : Prop :=
  builds_program a es b /\ cout b = cout a /\ variables b = variables a.

(** The variables of [ev] are [vars], and its pool has room for [n] more
    constants. *)
Definition ready (vars : list Var) (ev : Evaluator) (n : nat) : Prop :=
  variables ev = vars /\ fits ev n.

(** The level [p] reads the text, followed by any [t] that [follow]
    allows, as [e]. *)
Definition accepts (vars : list Var) (p : nat -> Evaluator -> parsed)
    (follow : string -> Prop) (text : string) (e : expr) : Prop :=
  forall t ev,
    follow t -> line ev = (text ++ t)%string ->
    ready vars ev (List.length (leaves e)) ->
    exists ev', runs p ev (true, ev') /\ line ev' = t /\ extends ev e ev'.

(** The same, up to the loop of [p]: what [loop] returns from there, [p]
    returns. *)
Definition accepts_on (vars : list Var)
    (p loop : nat -> Evaluator -> parsed) (follow : string -> Prop)
    (text : string) (e : expr) : Prop :=
  forall t ev,
    follow t -> line ev = (text ++ t)%string ->
    ready vars ev (List.length (leaves e)) ->
    exists ev', (forall r, runs loop ev' r -> runs p ev r) /\
                line ev' = t /\ extends ev e ev'.

(** What the level [l] does with a text written for it. *)
Definition level_accepts (vars : list Var) (l : nat) (text : string)
    (e : expr) : Prop :=
  match l with
  | 0 => True
  | 1 => accepts_on vars level1 level1_loop stop1 text e
  | 2 => accepts_on vars level2 level2_loop stop3 text e
  | 3 => accepts vars level3 stop3 text e
  | 4 => accepts vars level4 stop3 text e
  | 5 => accepts vars level_top stop text e
  | _ => False
  end.

(** * Properties *)

(** ** The library model: [strtod] consumes a prefix, and at least the
    digit it is called on *)

Lemma read_digits_length base s : forall acc n m n' r,
  read_digits base s acc n = (m, n', r) ->
  String.length r + n' = String.length s + n.
Proof.
  induction s as [|c s IH]; intros acc n m n' r H; simpl in H.
  - inversion H; subst; reflexivity.
  - destruct (digit_of base c) as [d|].
    + apply IH in H. simpl. lia.
    + inversion H; subst; reflexivity.
Qed.

Lemma read_mantissa_length base s m n nfrac r :
  read_mantissa base s = (m, n, nfrac, r) ->
  String.length r + n <= String.length s.
Proof.
  unfold read_mantissa.
  destruct (read_digits base s 0%Z 0) as [[m1 n1] r1] eqn:E1.
  apply read_digits_length in E1.
  destruct r1 as [|c r1].
  - intros H; inversion H; subst; lia.
  - destruct (Ascii.eqb c ".") eqn:Ec.
    + apply Ascii.eqb_eq in Ec; subst c.
      destruct (read_digits base r1 m1 n1) as [[m2 n2] r2] eqn:E2.
      apply read_digits_length in E2.
      intros H; inversion H; subst. simpl in E1. lia.
    + assert (Hc : c <> "."%char) by (apply Ascii.eqb_neq; exact Ec).
      intros H.
      assert (H' : (m1, n1, 0, String c r1) = (m, n, nfrac, r)).
      { destruct c as [[] [] [] [] [] [] [] []]; try exact H.
        exfalso; apply Hc; reflexivity. }
      inversion H'; subst; lia.
Qed.

Lemma read_digits_count base s : forall acc n m n' r,
  read_digits base s acc n = (m, n', r) -> n <= n'.
Proof.
  induction s as [|c s IH]; intros acc n m n' r H; simpl in H.
  - inversion H; subst; lia.
  - destruct (digit_of base c) as [d|].
    + apply IH in H. lia.
    + inversion H; subst; lia.
Qed.

Lemma read_mantissa_digit base c s m n nfrac r :
  isdigit c = true ->
  read_mantissa base (String c s) = (m, n, nfrac, r) -> 1 <= n.
Proof.
  intros Hd. unfold read_mantissa. simpl.
  unfold digit_of. rewrite Hd.
  destruct (read_digits base s _ 1) as [[m1 n1] r1] eqn:E1.
  apply read_digits_count in E1.
  destruct r1 as [|c1 r1].
  - intros H; inversion H; subst; exact E1.
  - destruct (Ascii.eqb c1 ".") eqn:Ec.
    + apply Ascii.eqb_eq in Ec; subst c1.
      destruct (read_digits base r1 m1 n1) as [[m2 n2] r2] eqn:E2.
      apply read_digits_count in E2. intros H; inversion H; subst; lia.
    + assert (Hc : c1 <> "."%char) by (apply Ascii.eqb_neq; exact Ec).
      intros H.
      assert (H' : (m1, n1, 0, String c1 r1) = (m, n, nfrac, r)).
      { destruct c1 as [[] [] [] [] [] [] [] []]; try exact H.
        exfalso; apply Hc; reflexivity. }
      inversion H'; subst; lia.
Qed.

Lemma read_exponent_length mark s e r :
  read_exponent mark s = (e, r) -> String.length r <= String.length s.
Proof.
  unfold read_exponent. destruct s as [|c s].
  - intros H; inversion H; subst; lia.
  - destruct (_ || _).
    + set (sg := match s with
                 | String "+" r' => (false, r')
                 | String "-" r' => (true, r')
                 | _ => (false, s)
                 end).
      assert (Hsg : String.length (snd sg) <= String.length s).
      { subst sg. destruct s as [|c' s']; simpl; [lia|].
        destruct c' as [[] [] [] [] [] [] [] []]; simpl; lia. }
      destruct sg as [neg r'].
      destruct (read_digits 10 r' 0%Z 0) as [[e' n] r''] eqn:E.
      apply read_digits_length in E. simpl in Hsg.
      destruct n; intros H; inversion H; subst; simpl; lia.
    + intros H; inversion H; subst; lia.
Qed.

Lemma strtod_dec_length c s :
  isdigit c = true ->
  String.length (snd (strtod_dec (String c s))) <= String.length s.
Proof.
  intros Hd. unfold strtod_dec.
  destruct (read_mantissa 10 (String c s)) as [[[m n] nfrac] r] eqn:Em.
  pose proof (read_mantissa_digit _ _ _ _ _ _ _ Hd Em) as Hn.
  apply read_mantissa_length in Em.
  destruct (read_exponent "e" r) as [e r'] eqn:Ee.
  apply read_exponent_length in Ee. simpl in *. lia.
Qed.

Lemma strtod_hex_length s x r :
  strtod_hex s = Some (x, r) -> String.length r < String.length s.
Proof.
  unfold strtod_hex.
  destruct s as [|c0 [|c1 s]]; try discriminate.
  - destruct c0 as [[] [] [] [] [] [] [] []]; discriminate.
  - intros H.
    assert (H' : (if (code c1 =? 120)%N || (code c1 =? 88)%N
                  then let '(m, n, nfrac, r1) := read_mantissa 16 s in
                       match n with
                       | O => None
                       | S _ =>
                           let '(e, r2) := read_exponent "p" r1 in
                           Some (round_scaled 2 m (e - 4 * Z.of_nat nfrac)
                                   (4 * n), r2)
                       end
                  else None) = Some (x, r)).
    { destruct c0 as [[] [] [] [] [] [] [] []]; try discriminate H; exact H. }
    clear H. destruct (_ || _); [|discriminate].
    destruct (read_mantissa 16 s) as [[[m n] nfrac] r1] eqn:Em.
    apply read_mantissa_length in Em.
    destruct n; [discriminate|].
    destruct (read_exponent "p" r1) as [e r2] eqn:Ee.
    apply read_exponent_length in Ee.
    inversion H'; subst. simpl. lia.
Qed.

Lemma strtod_length c s :
  isdigit c = true ->
  String.length (snd (strtod (String c s))) <= String.length s.
Proof.
  intros Hd. unfold strtod.
  destruct (strtod_hex (String c s)) as [[x r]|] eqn:Eh.
  - apply strtod_hex_length in Eh. simpl in *. lia.
  - apply strtod_dec_length; exact Hd.
Qed.

(** ** Lexing consumes *)

Lemma skip_space_length s : String.length (skip_space s) <= String.length s.
Proof.
  induction s as [|c s IH]; simpl; [lia|].
  destruct (isspace c); simpl; lia.
Qed.

Lemma span_name_length s :
  String.length (snd (span_name s)) <= String.length s.
Proof.
  induction s as [|c s IH]; simpl; [lia|].
  destruct (isname c); simpl; [|lia].
  destruct (span_name s); simpl in *; lia.
Qed.

Lemma find_variable_in_spec vars nm :
  find_variable_in vars nm <= List.length vars /\
  (nth_error vars (find_variable_in vars nm) = None <->
   find_variable_in vars nm = List.length vars).
Proof.
  induction vars as [|v vs [IH1 IH2]]; simpl.
  - split; [lia|tauto].
  - destruct (String.eqb (name v) nm); simpl.
    + split; [lia|]. split; discriminate.
    + split; [lia|]. rewrite IH2. split; lia.
Qed.

(** ** A proof rule for the parser

    A relation [Q] between the state a level is entered in, the [bool] it
    returns and the state it leaves holds of every level as soon as it is
    transitive and holds of the elementary moves of the parser. *)

Section ParserRule.

Variable Q : Evaluator -> bool -> Evaluator -> Prop.

Hypothesis Q_refl : forall ev, Q ev true ev.
Hypothesis Q_trans : forall a b c r, Q a true b -> Q b r c -> Q a r c.
(** a character other than the end is skipped *)
Hypothesis Q_nextch : forall ev, at_end ev = false -> Q ev true (nextch ev).
(** an operator is appended *)
Hypothesis Q_operator : forall ev c,
  In c ["+"; "-"; "*"; "/"; "^"; "n"; ";"]%char ->
  Q ev true (push_symbol (operator c) ev).
(** a function is appended *)
Hypothesis Q_function : forall ev nm f,
  math_function nm = Some f -> Q ev true (push_symbol (mkSymbol MATHFN f) ev).
(** a number is read *)
Hypothesis Q_number : forall ev,
  isdigit (cur ev) = true ->
  Q ev true
    (push_last_constant
       (eatspace (push_constant (fst (get_double ev)) (snd (get_double ev))))).
(** a name is read *)
Hypothesis Q_name : forall ev,
  isalpha (cur ev) || at_char "_" ev = true ->
  Q ev true (eatspace (snd (get_name ev))).
(** the value of a variable is appended, after its name was read *)
Hypothesis Q_variable : forall ev v,
  isalpha (cur ev) || at_char "_" ev = true ->
  Q ev true
    (push_last_constant
       (push_constant (var_value v) (eatspace (snd (get_name ev))))).
(** an error is reported and the level returns false *)
Hypothesis Q_error : forall ev m, Q ev false (report m ev).
(** the end of the input is reported and the level returns true *)
Hypothesis Q_end : forall ev,
  at_end ev = true -> Q ev true (report "unexpected end of input" ev).

Lemma guard_respects (a : Evaluator) (r : parsed) (k : Evaluator -> parsed) :
  (forall b ev', r = Some (b, ev') -> Q a b ev') ->
  respects Q k ->
  forall b ev', guard r k = Some (b, ev') -> Q a b ev'.
Proof.
  intros Hr Hk b ev' H.
  destruct r as [[[] ev1]|]; simpl in H; try discriminate.
  - eapply Q_trans; [apply Hr; reflexivity|apply Hk; exact H].
  - apply Hr; exact H.
Qed.

Lemma at_char_not_end c ev :
  at_char c ev = true -> c <> Ascii.zero -> at_end ev = false.
Proof.
  unfold at_end, at_char. intros H Hc.
  apply Ascii.eqb_eq in H. rewrite H. apply Ascii.eqb_neq. exact Hc.
Qed.

Lemma levels_respect fuel : all_levels (respects Q) fuel.
Proof.
  unfold all_levels.
  induction fuel as [|fuel (H1 & H1l & H2 & H2l & H3 & H4 & H4l & Ht)].
  { repeat split; intros ev b ev' H; discriminate H. }
  assert (Hnx : forall c ev, at_char c ev = true -> c <> Ascii.zero ->
                Q ev true (nextch ev)).
  { intros c ev Hc Hz. apply Q_nextch. eapply at_char_not_end; eauto. }
  repeat split; intros ev b ev' H; simpl in H.
  - (* level1 *)
    revert H. apply guard_respects; [apply H2|apply H1l].
  - (* level1_loop *)
    destruct (at_char "+" ev || at_char "-" ev) eqn:Ec.
    + assert (Hn : Q ev true (nextch ev)).
      { apply orb_true_iff in Ec. destruct Ec as [Ec|Ec];
          eapply Hnx; eauto; discriminate. }
      eapply Q_trans; [exact Hn|].
      revert H. apply guard_respects; [apply H2|].
      intros ev1 b1 ev1' H. eapply Q_trans; [|apply H1l; exact H].
      destruct (Ascii.eqb (cur ev) "+"); apply Q_operator; simpl; tauto.
    + inversion H; subst. apply Q_refl.
  - (* level2 *)
    revert H. apply guard_respects; [apply H3|apply H2l].
  - (* level2_loop *)
    destruct (at_char "*" ev || at_char "/" ev) eqn:Ec.
    + assert (Hn : Q ev true (nextch ev)).
      { apply orb_true_iff in Ec. destruct Ec as [Ec|Ec];
          eapply Hnx; eauto; discriminate. }
      eapply Q_trans; [exact Hn|].
      revert H. apply guard_respects; [apply H3|].
      intros ev1 b1 ev1' H. eapply Q_trans; [|apply H2l; exact H].
      destruct (Ascii.eqb (cur ev) "*"); apply Q_operator; simpl; tauto.
    + inversion H; subst. apply Q_refl.
  - (* level3 *)
    destruct (at_char "-" ev) eqn:Ec.
    + eapply Q_trans; [eapply Hnx; eauto; discriminate|].
      revert H. apply guard_respects; [apply H3|].
      intros ev1 b1 ev1' H. inversion H; subst.
      apply Q_operator; simpl; tauto.
    + apply H4; exact H.
  - (* level4 *)
    revert H. apply guard_respects; [apply Ht|apply H4l].
  - (* level4_loop *)
    destruct (at_char "^" ev) eqn:Ec.
    + eapply Q_trans; [eapply Hnx; eauto; discriminate|].
      revert H. apply guard_respects; [apply H3|].
      intros ev1 b1 ev1' H. eapply Q_trans; [|apply H4l; exact H].
      apply Q_operator; simpl; tauto.
    + inversion H; subst. apply Q_refl.
  - (* level_top *)
    destruct (isdigit (cur ev)) eqn:Ed.
    { pose proof (Q_number ev Ed) as Hn.
      destruct (get_double ev) as [x ev1]. inversion H; subst. exact Hn. }
    destruct (at_char "(" ev) eqn:Ep.
    { eapply Q_trans; [eapply Hnx; eauto; discriminate|].
      revert H. apply guard_respects; [apply H1|].
      intros ev1 b1 ev1' H.
      destruct (at_char ")" ev1) eqn:Ec; simpl in H; inversion H; subst.
      - eapply Hnx; eauto; discriminate.
      - apply Q_error. }
    destruct (isalpha (cur ev) || at_char "_" ev) eqn:Ea.
    { pose proof (Q_name ev Ea) as Hn.
      pose proof (fun v => Q_variable ev v Ea) as Hv.
      destruct (get_name ev) as [nm ev1]. simpl in Hn, Hv.
      destruct (math_function nm) as [f|] eqn:Ef.
      - eapply Q_trans; [exact Hn|].
        revert H. apply guard_respects; [apply H3|].
        intros ev2 b2 ev2' H. inversion H; subst.
        eapply Q_function; eauto.
      - unfold variable_value in H.
        destruct (nth_error _ _) as [v|]; inversion H; subst.
        + apply Hv.
        + eapply Q_trans; [exact Hn|apply Q_error]. }
    destruct (at_end ev) eqn:Ee; inversion H; subst.
    + apply Q_end; exact Ee.
    + apply Q_error.
Qed.

Lemma parse_loop_respects fuel : respects Q (parse_loop fuel).
Proof.
  induction fuel as [|fuel IH]; intros ev b ev' H; simpl in H.
  { discriminate. }
  destruct (at_end ev) eqn:Ee.
  { inversion H; subst. apply Q_refl. }
  revert H. apply guard_respects; [apply (levels_respect fuel)|].
  intros ev1 b1 ev1' H.
  destruct (negb (at_char ";" ev1) && negb (at_end ev1)) eqn:Ec.
  { inversion H; subst. apply Q_error. }
  eapply Q_trans; [apply (Q_operator ev1 ";"); simpl; tauto|].
  replace (at_char ";" (push_symbol (operator ";") ev1))
    with (at_char ";" ev1) in H by reflexivity.
  destruct (at_char ";" ev1) eqn:Es.
  - eapply Q_trans; [|apply IH; exact H].
    apply Q_nextch. eapply (at_char_not_end ";"); [exact Es|discriminate].
  - apply IH; exact H.
Qed.

End ParserRule.

(** ** What every level preserves *)

Lemma math_function_range nm f :
  math_function nm = Some f -> In f [EXP; COS; LOG; SIN; TAN].
Proof.
  unfold math_function.
  repeat match goal with
         | |- context [if ?c then _ else _] => destruct c
         end; intros H; inversion H; subst; simpl; tauto.
Qed.

Lemma cur_line ev c : cur ev = c -> c <> Ascii.zero ->
  exists r, line ev = String c r.
Proof.
  unfold cur. destruct (line ev) as [|c' r]; intros H Hc.
  - congruence.
  - exists r; congruence.
Qed.

Lemma digit_not_zero c : isdigit c = true -> c <> Ascii.zero.
Proof. intros H Hc; subst; discriminate. Qed.

Lemma name_start_not_zero ev :
  isalpha (cur ev) || at_char "_" ev = true -> cur ev <> Ascii.zero.
Proof.
  unfold at_char. intros H Hc. rewrite Hc in H. discriminate.
Qed.

(** Unfold the elementary moves of the parser in the goal. *)
Ltac moves :=
  unfold nextch, eatspace, report, print, push_last_constant, push_symbol,
    push_constant, advance, get_name, get_double, set_line;
  repeat match goal with
         | |- context [match line ?ev with _ => _ end] =>
             destruct (line ev) eqn:?
         | |- context [let '(_, _) := ?x in _] => destruct x eqn:?
         end;
  simpl.

Lemma levels_append_symbols fuel :
  all_levels (respects appends_symbols) fuel /\
  respects appends_symbols (parse_loop fuel).
Proof.
  assert (R : forall ev, appends_symbols ev true ev).
  { intros ev. exists []. rewrite app_nil_r. auto. }
  assert (P : forall ev s, well_formed s ->
              appends_symbols ev true (push_symbol s ev)).
  { intros ev s Hs. exists [s]. auto. }
  assert (T : forall a b c r, appends_symbols a true b ->
              appends_symbols b r c -> appends_symbols a r c).
  { intros a b c r (l1 & E1 & F1) (l2 & E2 & F2). exists (l1 ++ l2).
    rewrite E2, E1, app_assoc. split; [reflexivity|].
    apply Forall_app; auto. }
  assert (O : forall ev c, In c ["+"; "-"; "*"; "/"; "^"; "n"; ";"]%char ->
              appends_symbols ev true (push_symbol (operator c) ev)).
  { intros ev c Hc. apply P. unfold well_formed; simpl type; simpl value.
    apply (in_map ch) in Hc. exact Hc. }
  assert (F : forall ev nm f, math_function nm = Some f ->
              appends_symbols ev true (push_symbol (mkSymbol MATHFN f) ev)).
  { intros ev nm f Hf. apply P. apply math_function_range in Hf. exact Hf. }
  split; [apply levels_respect|apply parse_loop_respects]; auto;
    intros; unfold appends_symbols; moves;
    first [ exists []; rewrite app_nil_r; split; [reflexivity|constructor]
          | eexists [_]; split; [reflexivity|repeat constructor] ].
Qed.

Lemma levels_keep_variables fuel :
  all_levels (respects keeps_variables) fuel /\
  respects keeps_variables (parse_loop fuel).
Proof.
  assert (N : forall ev, variables (snd (get_name ev)) = variables ev).
  { intros ev. unfold get_name. destruct (line ev); [reflexivity|].
    destruct (span_name _); reflexivity. }
  assert (D : forall ev, variables (snd (get_double ev)) = variables ev).
  { intros ev. unfold get_double. destruct (strtod _); reflexivity. }
  assert (A : forall ev, variables (advance ev) = variables ev).
  { intros ev. unfold advance. destruct (line ev); reflexivity. }
  split; [apply levels_respect|apply parse_loop_respects];
    unfold keeps_variables; intros; try congruence; moves; reflexivity.
Qed.

(** What the moves leave alone. *)

Lemma advance_frame ev :
  constants (advance ev) = constants ev /\ symbols (advance ev) = symbols ev /\
  variables (advance ev) = variables ev /\ cout (advance ev) = cout ev.
Proof. unfold advance; destruct (line ev); repeat split. Qed.

Lemma nextch_frame ev :
  constants (nextch ev) = constants ev /\ symbols (nextch ev) = symbols ev /\
  variables (nextch ev) = variables ev /\ cout (nextch ev) = cout ev.
Proof. unfold nextch, eatspace; simpl. apply advance_frame. Qed.

Lemma get_name_frame ev :
  constants (snd (get_name ev)) = constants ev /\
  symbols (snd (get_name ev)) = symbols ev /\
  variables (snd (get_name ev)) = variables ev /\
  cout (snd (get_name ev)) = cout ev.
Proof.
  unfold get_name; destruct (line ev); [repeat split|].
  destruct (span_name _); repeat split.
Qed.

Lemma get_double_frame ev :
  constants (snd (get_double ev)) = constants ev /\
  symbols (snd (get_double ev)) = symbols ev /\
  variables (snd (get_double ev)) = variables ev /\
  cout (snd (get_double ev)) = cout ev.
Proof. unfold get_double; destruct (strtod _); repeat split. Qed.

Lemma line_nextch ev : line (nextch ev) = skip_space (line (advance ev)).
Proof. reflexivity. Qed.

Lemma line_advance ev c r : line ev = String c r -> line (advance ev) = r.
Proof. unfold advance; intros H; rewrite H; reflexivity. Qed.

Lemma line_advance_length ev :
  String.length (line (advance ev)) <= String.length (line ev).
Proof.
  unfold advance; destruct (line ev) eqn:E; simpl; rewrite ?E; simpl; lia.
Qed.

Lemma line_nextch_length ev :
  at_end ev = false ->
  String.length (line (nextch ev)) < String.length (line ev).
Proof.
  unfold at_end, at_char, cur, nextch, eatspace, advance.
  destruct (line ev) as [|c r] eqn:E; [discriminate|intros _].
  simpl. pose proof (skip_space_length r). lia.
Qed.

Lemma line_nextch_push s ev :
  line (nextch (push_symbol s ev)) = line (nextch ev).
Proof.
  unfold nextch, eatspace, advance. simpl. destruct (line ev); reflexivity.
Qed.

Lemma line_get_name ev c r :
  line ev = String c r -> line (snd (get_name ev)) = snd (span_name r).
Proof.
  unfold get_name; intros H; rewrite H. destruct (span_name r); reflexivity.
Qed.

Lemma line_get_double ev :
  line (snd (get_double ev)) = snd (strtod (line ev)).
Proof. unfold get_double; destruct (strtod _); reflexivity. Qed.

Lemma levels_consume fuel :
  all_levels (respects consumes) fuel /\ respects consumes (parse_loop fuel).
Proof.
  assert (K : forall a b, constants b = constants a ->
              String.length (line b) <= String.length (line a) ->
              consumes a true b).
  { intros a b E L. exists []. rewrite app_nil_r. simpl. split; [exact E|lia]. }
  assert (X : forall a b x, constants b = constants a ++ [x] ->
              String.length (line b) < String.length (line a) ->
              consumes a true b).
  { intros a b x E L. exists [x]. simpl. split; [exact E|lia]. }
  split; [apply levels_respect|apply parse_loop_respects]; intros.
  all: try (apply K; [reflexivity|simpl; lia]).
  all: try match goal with
       | H1 : consumes ?a true ?b, H2 : consumes ?b _ ?c |- _ =>
           destruct H1 as (l1 & E1 & L1); destruct H2 as (l2 & E2 & L2);
           exists (l1 ++ l2); rewrite E2, E1, app_assoc, length_app;
           split; [reflexivity|lia]
       end.
  all: try (apply K; [apply nextch_frame|
                      apply Nat.lt_le_incl, line_nextch_length; assumption]).
  all: try match goal with
       | H : isdigit (cur ?ev) = true |- _ =>
           destruct (cur_line ev _ eq_refl (digit_not_zero _ H)) as (r & E);
           apply (X _ _ (fst (get_double ev)));
           [simpl; f_equal; apply get_double_frame|];
           simpl; rewrite line_get_double, E;
           pose proof (strtod_length _ r H);
           pose proof (skip_space_length (snd (strtod (String (cur ev) r))));
           simpl; lia
       | H : isalpha (cur ?ev) || at_char "_" ?ev = true |- _ =>
           destruct (cur_line ev _ eq_refl (name_start_not_zero _ H))
             as (r & E);
           pose proof (span_name_length r);
           pose proof (skip_space_length (snd (span_name r)));
           first [ apply K; [apply get_name_frame|]
                 | eapply X; [simpl; f_equal; apply get_name_frame|] ];
           simpl; rewrite (line_get_name _ _ _ E), E; simpl; lia
       end.
  all: exists []; rewrite app_nil_r; simpl; split; [reflexivity|lia].
Qed.

Lemma levels_diagnose fuel :
  all_levels (respects diagnoses) fuel /\ respects diagnoses (parse_loop fuel).
Proof.
  assert (K : forall a b, cout b = cout a -> diagnoses a true b).
  { intros a b E. exists []. rewrite app_nil_r.
    split; [exact E|]. split; [constructor|].
    split; [discriminate|constructor]. }
  split; [apply levels_respect|apply parse_loop_respects]; intros.
  all: try (apply K; first [ reflexivity | apply nextch_frame
                           | simpl; apply get_double_frame
                           | simpl; apply get_name_frame ]).
  all: try match goal with
       | H1 : diagnoses ?a true ?b, H2 : diagnoses ?b _ ?c |- _ =>
           destruct H1 as (l1 & E1 & R1 & F1 & G1);
           destruct H2 as (l2 & E2 & R2 & F2 & G2);
           exists (l1 ++ l2); rewrite E2, E1, app_assoc;
           split; [reflexivity|]; split; [apply Forall_app; auto|]; split;
           [ intros Hr Hn; apply app_eq_nil in Hn; destruct Hn; subst;
             apply F2; auto
           | intros Hr; apply Forall_app; auto ]
       end.
  all: eexists [_]; split; [reflexivity|].
  all: split; [constructor; [eexists; reflexivity|constructor]|].
  all: split; [discriminate|].
  all: intros Hr; try discriminate Hr.
  all: constructor; [|constructor]; exists ev; auto.
Qed.

(** ** Fuel

    More fuel never changes a result. *)

Lemma guard_stable (r1 r1' : parsed) (k k' : Evaluator -> parsed) r :
  (forall x, r1 = Some x -> r1' = Some x) ->
  (forall ev y, k ev = Some y -> k' ev = Some y) ->
  guard r1 k = Some r -> guard r1' k' = Some r.
Proof.
  intros H1 Hk H. destruct r1 as [[[] ev]|]; simpl in H; try discriminate.
  - rewrite (H1 _ eq_refl). simpl. apply Hk; exact H.
  - rewrite (H1 _ eq_refl). exact H.
Qed.

Lemma levels_stable fuel :
  stable level1 fuel /\ stable level1_loop fuel /\
  stable level2 fuel /\ stable level2_loop fuel /\
  stable level3 fuel /\ stable level4 fuel /\
  stable level4_loop fuel /\ stable level_top fuel.
Proof.
  induction fuel as [|fuel (H1 & H1l & H2 & H2l & H3 & H4 & H4l & Ht)].
  { repeat split; intros fuel' ev r _ H; discriminate H. }
  repeat split; intros [|fuel'] ev r Hle H; try lia;
    apply le_S_n in Hle; simpl in H |- *.
  - revert H; apply guard_stable; intros; eauto.
  - destruct (_ || _); [|exact H].
    revert H; apply guard_stable; intros; eauto.
  - revert H; apply guard_stable; intros; eauto.
  - destruct (_ || _); [|exact H].
    revert H; apply guard_stable; intros; eauto.
  - destruct (at_char "-" ev); [|eauto].
    revert H; apply guard_stable; intros; eauto.
  - revert H; apply guard_stable; intros; eauto.
  - destruct (at_char "^" ev); [|exact H].
    revert H; apply guard_stable; intros; eauto.
  - destruct (isdigit (cur ev)); [exact H|].
    destruct (at_char "(" ev).
    { revert H; apply guard_stable; intros; eauto. }
    destruct (isalpha (cur ev) || at_char "_" ev); [|exact H].
    destruct (get_name ev) as [nm ev1].
    destruct (math_function nm); [|exact H].
    revert H; apply guard_stable; intros; eauto.
Qed.

Lemma parse_loop_stable fuel : stable parse_loop fuel.
Proof.
  induction fuel as [|fuel IH]; intros [|fuel'] ev r Hle H;
    try discriminate H; try lia.
  apply le_S_n in Hle. simpl in H |- *.
  destruct (at_end ev); [exact H|].
  revert H; apply guard_stable.
  - intros x; apply levels_stable; exact Hle.
  - intros ev1 y. destruct (_ && _); [auto|]. apply IH; exact Hle.
Qed.

(** ** Termination

    A level entered with [n] characters left returns when it has five units
    of fuel per character, and five more. *)
Lemma guard_returns (a : Evaluator) (r : parsed) (k : Evaluator -> parsed) n :
  String.length (line a) <= n ->
  (exists b ev, r = Some (b, ev)) ->
  (forall b ev, r = Some (b, ev) -> consumes a b ev) ->
  (forall ev, String.length (line ev) <= n ->
     exists b ev', k ev = Some (b, ev')) ->
  exists b ev', guard r k = Some (b, ev').
Proof.
  intros Ha (b & ev & E) Hc Hk. subst r.
  destruct b; simpl; [|eauto].
  apply Hk. destruct (Hc _ _ eq_refl) as (cs & _ & L). lia.
Qed.

Lemma levels_return n :
  returns_within level_top (5 * n + 1) n /\
  returns_within level4_loop (5 * n + 1) n /\
  returns_within level4 (5 * n + 2) n /\
  returns_within level3 (5 * n + 3) n /\
  returns_within level2_loop (5 * n + 1) n /\
  returns_within level2 (5 * n + 4) n /\
  returns_within level1_loop (5 * n + 1) n /\
  returns_within level1 (5 * n + 5) n.
Proof.
  induction n as [n IH] using lt_wf_ind.
  assert (Hnx : forall ev, String.length (line ev) <= n -> at_end ev = false ->
            exists m, m < n /\ String.length (line (nextch ev)) <= m /\
                      5 * m + 5 <= 5 * n).
  { intros ev L E. apply line_nextch_length in E.
    exists (n - 1). lia. }
  assert (Hc : forall c ev, at_char c ev = true -> c <> Ascii.zero ->
                at_end ev = false).
  { intros c ev. apply at_char_not_end. }
  (* level_top *)
  assert (Ht : returns_within level_top (5 * n + 1) n).
  { intros [|fuel] ev L F; [lia|]. simpl.
    destruct (isdigit (cur ev)).
    { destruct (get_double ev); eauto. }
    destruct (at_char "(" ev) eqn:Ep.
    { destruct (Hnx ev L) as (m & Hm & Lm & Fm);
        [eapply Hc; eauto; discriminate|].
      destruct (IH m Hm) as (_ & _ & _ & _ & _ & _ & _ & R1).
      destruct (R1 fuel (nextch ev) Lm) as (b & ev' & E); [lia|].
      rewrite E. destruct b; simpl; [|eauto].
      destruct (negb (at_char ")" ev')); eauto. }
    destruct (isalpha (cur ev) || at_char "_" ev) eqn:Ea; 
      [|destruct (at_end ev); eauto].
    destruct (cur_line ev _ eq_refl (name_start_not_zero _ Ea)) as (r & Er).
    pose proof (line_get_name _ _ _ Er) as Ln.
    destruct (get_name ev) as [nm ev1]. simpl in Ln.
    destruct (math_function nm).
    - pose proof (span_name_length r).
      pose proof (skip_space_length (line ev1)).
      rewrite Er in L. simpl in L.
      assert (Hm : n - 1 < n) by lia.
      destruct (IH _ Hm) as (_ & _ & _ & R3 & _).
      destruct (R3 fuel (eatspace ev1)) as (b & ev' & E);
        [simpl; rewrite Ln in *; lia|lia|].
      rewrite E. destruct b; simpl; eauto.
    - unfold variable_value. destruct (nth_error _ _); eauto. }
  (* the loops *)
  assert (Hloop : forall fuel ev (p : nat -> Evaluator -> parsed)
            (k : Evaluator -> Evaluator) (loop : nat -> Evaluator -> parsed),
            String.length (line ev) <= n -> 5 * n <= fuel ->
            at_end ev = false ->
            (forall m, m < n -> returns_within p (5 * m + 5) m) ->
            (forall m, m < n -> returns_within loop (5 * m + 1) m) ->
            respects consumes (p fuel) ->
            (forall ev, line (k ev) = line ev) ->
            exists b ev', guard (p fuel (nextch ev))
                            (fun ev' => loop fuel (k ev')) = Some (b, ev')).
  { intros fuel ev p k loop L F E Rp Rl Cp Lk.
    destruct (Hnx ev L E) as (m & Hm & Lm & Fm).
    apply (guard_returns (nextch ev) _ _ m); auto.
    - apply (Rp m Hm); [exact Lm|lia].
    - intros ev1 L1. apply (Rl m Hm); [rewrite Lk; exact L1|lia]. }
  assert (C : forall fuel, all_levels (respects consumes) fuel)
    by (intros fuel; apply levels_consume).
  assert (H4l : returns_within level4_loop (5 * n + 1) n).
  { intros [|fuel] ev L F; [lia|]. simpl.
    destruct (at_char "^" ev) eqn:Ec; [|eauto].
    apply (Hloop fuel ev level3 (push_symbol (operator "^")) level4_loop);
      auto; try lia.
    - eapply Hc; eauto; discriminate.
    - intros m Hm fuel' ev' L' F'. apply (IH m Hm); [exact L'|lia].
    - intros m Hm. apply (IH m Hm).
    - apply C. }
  assert (H2l : returns_within level2_loop (5 * n + 1) n).
  { intros [|fuel] ev L F; [lia|]. simpl.
    destruct (at_char "*" ev || at_char "/" ev) eqn:Ec; [|eauto].
    apply (Hloop fuel ev level3
             (push_symbol (if Ascii.eqb (cur ev) "*" then operator "*"
                           else operator "/")) level2_loop);
      auto; try lia.
    - apply orb_true_iff in Ec. destruct Ec; eapply Hc; eauto; discriminate.
    - intros m Hm fuel' ev' L' F'. apply (IH m Hm); [exact L'|lia].
    - intros m Hm. apply (IH m Hm).
    - apply C. }
  assert (H1l : returns_within level1_loop (5 * n + 1) n).
  { intros [|fuel] ev L F; [lia|]. simpl.
    destruct (at_char "+" ev || at_char "-" ev) eqn:Ec; [|eauto].
    apply (Hloop fuel ev level2
             (push_symbol (if Ascii.eqb (cur ev) "+" then operator "+"
                           else operator "-")) level1_loop);
      auto; try lia.
    - apply orb_true_iff in Ec. destruct Ec; eapply Hc; eauto; discriminate.
    - intros m Hm fuel' ev' L' F'. apply (IH m Hm); [exact L'|lia].
    - intros m Hm. apply (IH m Hm).
    - apply C. }
  assert (H4 : returns_within level4 (5 * n + 2) n).
  { intros [|fuel] ev L F; [lia|]. simpl.
    apply (guard_returns ev _ _ n); auto.
    - apply Ht; [exact L|lia].
    - apply C.
    - intros ev1 L1. apply H4l; [exact L1|lia]. }
  assert (H3 : returns_within level3 (5 * n + 3) n).
  { intros [|fuel] ev L F; [lia|]. simpl.
    destruct (at_char "-" ev) eqn:Ec; [|apply H4; [exact L|lia]].
    destruct (Hnx ev L) as (m & Hm & Lm & Fm);
      [eapply Hc; eauto; discriminate|].
    destruct (IH m Hm) as (_ & _ & _ & R3 & _).
    destruct (R3 fuel (nextch ev) Lm) as (b & ev' & E); [lia|].
    rewrite E. destruct b; simpl; eauto. }
  assert (H2 : returns_within level2 (5 * n + 4) n).
  { intros [|fuel] ev L F; [lia|]. simpl.
    apply (guard_returns ev _ _ n); auto.
    - apply H3; [exact L|lia].
    - apply C.
    - intros ev1 L1. apply H2l; [exact L1|lia]. }
  repeat split; auto.
  intros [|fuel] ev L F; [lia|]. simpl.
  apply (guard_returns ev _ _ n); auto.
  - apply H2; [exact L|lia].
  - apply C.
  - intros ev1 L1. apply H1l; [exact L1|lia].
Qed.

Lemma parse_loop_returns n : returns_within parse_loop (5 * n + 6) n.
Proof.
  induction n as [n IH] using lt_wf_ind.
  intros [|fuel] ev L F; [lia|]. simpl.
  destruct (at_end ev) eqn:Ee; [eauto|].
  apply (guard_returns ev _ _ n); auto.
  - destruct (levels_return n) as (_ & _ & _ & _ & _ & _ & _ & R1).
    apply R1; [exact L|lia].
  - apply (levels_consume fuel).
  - intros ev1 L1.
    destruct (negb (at_char ";" ev1) && negb (at_end ev1)) eqn:Ec; [eauto|].
    replace (at_char ";" (push_symbol (operator ";") ev1))
      with (at_char ";" ev1) by reflexivity.
    destruct (at_char ";" ev1) eqn:Es.
    + assert (E1 : at_end ev1 = false)
        by (eapply (at_char_not_end ";"); [exact Es|discriminate]).
      apply line_nextch_length in E1.
      apply (IH (n - 1)); [lia| |lia].
      rewrite line_nextch_push. lia.
    + simpl in Ec. destruct fuel; [lia|]. simpl.
      replace (at_end (push_symbol (operator ";") ev1))
        with (at_end ev1) by reflexivity.
      destruct (at_end ev1); [eauto|discriminate].
Qed.

(** [parse] returns. *)
Lemma parse_terminates str ev : exists b ev', parse str ev = Some (b, ev').
Proof.
  unfold parse, fuel_of.
  apply (parse_loop_returns (String.length str)).
  - simpl. apply skip_space_length.
  - lia.
Qed.

(** The result does not depend on the fuel. *)
Lemma parse_loop_fuel fuel ev r :
  parse_loop fuel ev = Some r ->
  forall fuel', 5 * String.length (line ev) + 6 <= fuel' ->
  parse_loop fuel' ev = Some r.
Proof.
  intros H fuel' F.
  destruct (parse_loop_returns _ fuel' ev (le_n _) F) as (b & ev' & E).
  destruct (Nat.le_ge_cases fuel fuel') as [Hle|Hle].
  - eapply parse_loop_stable; eauto.
  - rewrite E. eapply parse_loop_stable in E; [|exact Hle]. congruence.
Qed.

(** ** What a level that reports nothing has recognised *)

Lemma to_uint_small n : (n < 2 ^ 32)%N -> to_uint n = n.
Proof. intros H. unfold to_uint. apply N.mod_small. exact H. Qed.

Lemma small_consumes a r b : consumes a r b -> small a -> small b.
Proof.
  unfold small. intros (cs & E & L) S. rewrite E, length_app. lia.
Qed.

Lemma guard_true (r : parsed) (k : Evaluator -> parsed) ev' :
  guard r k = Some (true, ev') ->
  exists ev1, r = Some (true, ev1) /\ k ev1 = Some (true, ev').
Proof.
  destruct r as [[[] ev1]|]; simpl; intros H; try discriminate.
  exists ev1; auto.
Qed.

Lemma cout_middle a r1 b r2 c :
  diagnoses a r1 b -> diagnoses b r2 c -> cout c = cout a ->
  cout b = cout a /\ cout c = cout b.
Proof.
  intros (d1 & E1 & _) (d2 & E2 & _) E.
  rewrite E2, E1, <- app_assoc in E.
  rewrite <- (app_nil_r (cout a)) in E at 2.
  apply app_inv_head in E. apply app_eq_nil in E. destruct E; subst.
  rewrite E2, E1, !app_nil_r. auto.
Qed.

(** A guarded call that returned true and reported nothing. *)
Lemma guard_clean (a : Evaluator) (r : parsed) (k : Evaluator -> parsed) ev' :
  guard r k = Some (true, ev') ->
  (forall b ev, r = Some (b, ev) -> diagnoses a b ev /\ consumes a b ev) ->
  (forall ev1 b ev, k ev1 = Some (b, ev) -> diagnoses ev1 b ev) ->
  cout ev' = cout a -> small a ->
  exists ev1, r = Some (true, ev1) /\ k ev1 = Some (true, ev') /\
    cout ev1 = cout a /\ cout ev' = cout ev1 /\ small ev1.
Proof.
  intros H Hr Hk E S. apply guard_true in H. destruct H as (ev1 & E1 & E2).
  destruct (Hr _ _ E1) as (D1 & C1).
  destruct (cout_middle _ _ _ _ _ D1 (Hk _ _ _ E2) E) as (? & ?).
  exists ev1. repeat split; auto. eapply small_consumes; eauto.
Qed.

Lemma builds_after a a' e b :
  symbols a' = symbols a -> constants a' = constants a ->
  builds a' e b -> builds a e b.
Proof. unfold builds. intros -> ->. auto. Qed.

Lemma builds_before a e b b' :
  symbols b' = symbols b -> constants b' = constants b ->
  builds a e b -> builds a e b'.
Proof. unfold builds. intros -> ->. auto. Qed.

Lemma builds_neg a e b :
  builds a e b -> builds a (Neg e) (push_symbol (operator "n") b).
Proof.
  unfold builds. simpl. intros (-> & ->). rewrite app_assoc. auto.
Qed.

Lemma builds_call a f e b :
  builds a e b ->
  builds a (Call f e) (push_symbol (mkSymbol MATHFN (fn_id f)) b).
Proof.
  unfold builds. simpl. intros (-> & ->). rewrite app_assoc. auto.
Qed.

Lemma builds_binary a x b y c op :
  builds a x b -> builds b y c ->
  builds a (Binary op x y) (push_symbol (operator (op_char op)) c).
Proof.
  unfold builds. simpl. intros (Sb & Cb) (-> & ->).
  rewrite Sb, Cb, length_app, <- !app_assoc. auto.
Qed.

Lemma builds_const ev x :
  small ev -> line ev <> "" ->
  forall ev1, symbols ev1 = symbols ev -> constants ev1 = constants ev ++ [x] ->
  builds ev (Const x) (push_last_constant ev1).
Proof.
  unfold builds, push_last_constant, small. simpl.
  intros S L ev1 -> ->. split; [|reflexivity].
  rewrite length_app. simpl. do 3 f_equal.
  destruct (line ev); [congruence|]. simpl in S.
  rewrite to_uint_small; lia.
Qed.

Lemma math_function_fn nm f :
  math_function nm = Some f -> exists g, f = fn_id g /\ nm = fn_name g.
Proof.
  unfold math_function.
  destruct (String.eqb nm "cos") eqn:E1.
  { intros H; inversion H. apply String.eqb_eq in E1. exists Fcos; auto. }
  destruct (String.eqb nm "exp") eqn:E2.
  { intros H; inversion H. apply String.eqb_eq in E2. exists Fexp; auto. }
  destruct (String.eqb nm "log") eqn:E3.
  { intros H; inversion H. apply String.eqb_eq in E3. exists Flog; auto. }
  destruct (String.eqb nm "sin") eqn:E4.
  { intros H; inversion H. apply String.eqb_eq in E4. exists Fsin; auto. }
  destruct (String.eqb nm "tan") eqn:E5.
  { intros H; inversion H. apply String.eqb_eq in E5. exists Ftan; auto. }
  discriminate.
Qed.

Lemma small_nextch ev : small ev -> small (nextch ev).
Proof.
  unfold small. destruct (nextch_frame ev) as (-> & _).
  rewrite line_nextch. pose proof (skip_space_length (line (advance ev))).
  pose proof (line_advance_length ev). lia.
Qed.

Lemma loop_step_sound fuel (p loop : nat -> Evaluator -> parsed) op :
  sound (p fuel) -> loop_sound (loop fuel) ->
  respects diagnoses (p fuel) -> respects consumes (p fuel) ->
  respects diagnoses (loop fuel) ->
  forall ev0 a ev ev', builds ev0 a ev ->
    guard (p fuel (nextch ev))
      (fun ev1 => loop fuel (push_symbol (operator (op_char op)) ev1)) =
      Some (true, ev') ->
    cout ev' = cout ev -> small ev ->
    exists e, builds ev0 e ev'.
Proof.
  intros Sp Sl Dp Cp Dl ev0 a ev ev' B H E S.
  destruct (nextch_frame ev) as (Nc & Ns & _ & No).
  apply (guard_clean (nextch ev)) in H; auto using small_nextch.
  - destruct H as (ev1 & E1 & E2 & O1 & O2 & S1).
    destruct (Sp _ _ E1 O1 (small_nextch _ S)) as (b & Bb).
    eapply (Sl ev0 (Binary op a b)); [|exact E2|exact O2|exact S1].
    eapply builds_binary; [|exact Bb].
    eapply builds_before; [| |exact B]; auto.
  - intros ev1 b ev2 H2. apply Dl in H2. exact H2.
  - congruence.
Qed.

Lemma levels_sound fuel :
  sound (level1 fuel) /\ loop_sound (level1_loop fuel) /\
  sound (level2 fuel) /\ loop_sound (level2_loop fuel) /\
  sound (level3 fuel) /\ sound (level4 fuel) /\
  loop_sound (level4_loop fuel) /\ sound (level_top fuel).
Proof.
  induction fuel as [|fuel (S1 & S1l & S2 & S2l & S3 & S4 & S4l & St)].
  { repeat split; unfold sound, loop_sound; intros;
      match goal with H : _ = Some _ |- _ => discriminate H end. }
  destruct (levels_diagnose fuel)
    as ((D1 & D1l & D2 & D2l & D3 & D4 & D4l & Dt) & _).
  destruct (levels_consume fuel)
    as ((C1 & C1l & C2 & C2l & C3 & C4 & C4l & Ct) & _).
  assert (Hseq : forall (p loop : Evaluator -> parsed),
            sound p -> loop_sound loop ->
            respects diagnoses p -> respects consumes p ->
            respects diagnoses loop ->
            sound (fun ev => guard (p ev) loop)).
  { intros p loop Sp Sl Dp Cp Dl ev ev' H E S.
    apply (guard_clean ev) in H; auto.
    destruct H as (ev1 & E1 & E2 & O1 & O2 & S1').
    destruct (Sp _ _ E1 O1 S) as (a & Ba).
    eapply Sl; eauto. }
  repeat split.
  - (* level1 *)
    intros ev ev' H. simpl in H. revert H. apply Hseq; auto.
  - (* level1_loop *)
    intros ev0 a ev ev' B H E S. simpl in H.
    destruct (at_char "+" ev || at_char "-" ev) eqn:Ec.
    + destruct (Ascii.eqb (cur ev) "+").
      * eapply (loop_step_sound fuel level2 level1_loop Add); eauto.
      * eapply (loop_step_sound fuel level2 level1_loop Sub); eauto.
    + inversion H; subst. eauto.
  - (* level2 *)
    intros ev ev' H. simpl in H. revert H. apply Hseq; auto.
  - (* level2_loop *)
    intros ev0 a ev ev' B H E S. simpl in H.
    destruct (at_char "*" ev || at_char "/" ev) eqn:Ec.
    + destruct (Ascii.eqb (cur ev) "*").
      * eapply (loop_step_sound fuel level3 level2_loop Mul); eauto.
      * eapply (loop_step_sound fuel level3 level2_loop Div); eauto.
    + inversion H; subst. eauto.
  - (* level3 *)
    intros ev ev' H E S. simpl in H.
    destruct (at_char "-" ev) eqn:Ec; [|eapply S4; eauto].
    destruct (nextch_frame ev) as (Nc & Ns & _ & No).
    apply guard_true in H. destruct H as (ev1 & E1 & E2).
    inversion E2; subst ev'. simpl in E.
    destruct (S3 _ _ E1) as (e & Be); [congruence|apply small_nextch; auto|].
    exists (Neg e). apply builds_neg.
    eapply builds_after; [| |exact Be]; auto.
  - (* level4 *)
    intros ev ev' H. simpl in H. revert H. apply Hseq; auto.
  - (* level4_loop *)
    intros ev0 a ev ev' B H E S. simpl in H.
    destruct (at_char "^" ev) eqn:Ec.
    + eapply (loop_step_sound fuel level3 level4_loop Pow); eauto.
    + inversion H; subst. eauto.
  - (* level_top *)
    intros ev ev' H E S. simpl in H.
    destruct (isdigit (cur ev)) eqn:Ed.
    { destruct (cur_line ev _ eq_refl (digit_not_zero _ Ed)) as (r & Er).
      destruct (get_double_frame ev) as (Gc & Gs & _).
      destruct (get_double ev) as [x ev1]. inversion H; subst ev'.
      exists (Const x). apply builds_const; auto.
      - congruence.
      - simpl. simpl in Gc. rewrite Gc. reflexivity. }
    destruct (at_char "(" ev) eqn:Ep.
    { destruct (nextch_frame ev) as (Nc & Ns & _ & No).
      apply guard_true in H. destruct H as (ev1 & E1 & E2).
      destruct (at_char ")" ev1); simpl in E2; inversion E2; subst ev'.
      destruct (nextch_frame ev1) as (Nc1 & Ns1 & _ & No1).
      destruct (S1 _ _ E1) as (e & Be);
        [congruence|apply small_nextch; auto|].
      exists e. eapply builds_before; [| |eapply builds_after]; eauto. }
    destruct (isalpha (cur ev) || at_char "_" ev) eqn:Ea.
    { destruct (cur_line ev _ eq_refl (name_start_not_zero _ Ea)) as (r & Er).
      destruct (get_name_frame ev) as (Gc & Gs & _ & Go).
      pose proof (line_get_name _ _ _ Er) as Ln.
      destruct (get_name ev) as [nm ev1]. simpl in Gc, Gs, Go, Ln.
      destruct (math_function nm) as [f|] eqn:Ef.
      - apply math_function_fn in Ef. destruct Ef as (g & -> & _).
        apply guard_true in H. destruct H as (ev2 & E1 & E2).
        inversion E2; subst ev'. simpl in E.
        destruct (S3 _ _ E1) as (e & Be).
        + simpl. congruence.
        + unfold small in *. simpl. rewrite Gc, Ln, Er in *.
          pose proof (span_name_length r).
          pose proof (skip_space_length (snd (span_name r))).
          simpl in S. lia.
        + exists (Call g e). apply builds_call.
          eapply builds_after; [| |exact Be]; simpl; auto.
      - unfold variable_value in H.
        destruct (nth_error _ _) as [v|]; inversion H; subst ev'.
        exists (Const (var_value v)). apply builds_const; auto.
        + congruence.
        + simpl. rewrite Gc. reflexivity. }
    destruct (at_end ev); inversion H; subst ev'.
    simpl in E. rewrite <- (app_nil_r (cout ev)) in E at 2.
    apply app_inv_head in E. discriminate.
Qed.

Lemma parse_loop_sound fuel : forall ev ev',
  parse_loop fuel ev = Some (true, ev') -> cout ev' = cout ev -> small ev ->
  exists es, builds_program ev es ev'.
Proof.
  induction fuel as [|fuel IH]; intros ev ev' H E S; [discriminate|].
  simpl in H. destruct (at_end ev).
  { inversion H; subst. exists []. split; simpl; rewrite app_nil_r; auto. }
  destruct (levels_diagnose fuel) as ((D1 & _) & Dp).
  destruct (levels_consume fuel) as ((C1 & _) & _).
  destruct (levels_sound fuel) as (S1 & _).
  assert (Hnext : forall ev1,
            let ev2 := push_symbol (operator ";") ev1 in
            let ev3 := if at_char ";" ev2 then nextch ev2 else ev2 in
            symbols ev3 = symbols ev1 ++ [operator ";"] /\
            constants ev3 = constants ev1 /\ cout ev3 = cout ev1 /\
            (small ev1 -> small ev3)).
  { intros ev1 ev2 ev3. subst ev3. destruct (at_char ";" ev2).
    - destruct (nextch_frame ev2) as (-> & -> & _ & ->).
      repeat split. intros S1'. apply small_nextch. exact S1'.
    - repeat split. auto. }
  apply (guard_clean ev) in H; auto.
  - destruct H as (ev1 & E1 & E2 & O1 & O2 & S1').
    destruct (S1 _ _ E1 O1 S) as (e & Bs & Bc).
    destruct (negb (at_char ";" ev1) && negb (at_end ev1)); [discriminate|].
    destruct (Hnext ev1) as (Ns & Nc & No & NS).
    apply IH in E2; [|congruence|auto].
    destruct E2 as (es & Ps & Pc). exists (e :: es).
    unfold builds_program, program_leaves in *. simpl.
    rewrite Ps, Pc, Ns, Nc, Bs, Bc, length_app, <- !app_assoc. auto.
  - intros ev1 b ev2 H2.
    destruct (negb (at_char ";" ev1) && negb (at_end ev1)).
    + inversion H2; subst.
      exists [Diagnostic (error "expected ';' or end of input" ev1)].
      split; [reflexivity|].
      split; [constructor; [eexists; reflexivity|constructor]|].
      split; discriminate.
    + destruct (Hnext ev1) as (_ & _ & No & _).
      apply Dp in H2. destruct H2 as (d & Ed & Hd).
      exists d. rewrite Ed, No. auto.
Qed.

(** ** The interpreters on the code of an expression *)

Lemma nth_error_middle {A} (pre : list A) x post :
  nth_error (pre ++ x :: post) (List.length pre) = Some x.
Proof. rewrite nth_error_app2, Nat.sub_diag; auto. Qed.

Lemma apply_function_fn M f x :
  apply_function M (fn_id f) x = Some (fn_apply M f x).
Proof. destruct f; reflexivity. Qed.

Lemma function_name_fn f : function_name (fn_id f) = Some (fn_name f).
Proof. destruct f; reflexivity. Qed.

Lemma apply_binary_op M op a b :
  apply_binary M (ch (op_char op)) a b = Some (op_apply M op a b).
Proof. destruct op; reflexivity. Qed.

Lemma op_char_binary op :
  (ch (op_char op) =? 59)%N = false /\ (ch (op_char op) =? 110)%N = false.
Proof. destruct op; split; reflexivity. Qed.

Lemma run_compile M consts e : forall pre post rest s out,
  consts = pre ++ leaves e ++ post ->
  run_loop M consts (compile (List.length pre) e ++ rest) s out =
  run_loop M consts rest (number M e :: s) out.
Proof.
  induction e as [c|f e IH|e IH|op a IHa b IHb];
    intros pre post rest s out E; simpl.
  - rewrite Nat2N.id, E. simpl. rewrite nth_error_middle. reflexivity.
  - rewrite <- app_assoc, (IH pre post) by exact E. simpl.
    rewrite apply_function_fn. reflexivity.
  - rewrite <- app_assoc, (IH pre post) by exact E. reflexivity.
  - simpl in E. rewrite <- app_assoc in E.
    rewrite <- !app_assoc, (IHa pre (leaves b ++ post)) by exact E.
    rewrite <- length_app, (IHb (pre ++ leaves a) post)
      by (rewrite <- app_assoc; exact E).
    simpl. destruct (op_char_binary op) as (-> & ->).
    rewrite apply_binary_op. reflexivity.
Qed.

Lemma understanding_compile consts e : forall pre post rest s expr,
  consts = pre ++ leaves e ++ post ->
  understanding_loop consts (compile (List.length pre) e ++ rest) s expr =
  understanding_loop consts rest (show e :: s) expr.
Proof.
  induction e as [c|f e IH|e IH|op a IHa b IHb];
    intros pre post rest s expr E; simpl.
  - rewrite Nat2N.id, E. simpl. rewrite nth_error_middle. reflexivity.
  - rewrite <- app_assoc, (IH pre post) by exact E. simpl.
    rewrite function_name_fn. reflexivity.
  - rewrite <- app_assoc, (IH pre post) by exact E. reflexivity.
  - simpl in E. rewrite <- app_assoc in E.
    rewrite <- !app_assoc, (IHa pre (leaves b ++ post)) by exact E.
    rewrite <- length_app, (IHb (pre ++ leaves a) post)
      by (rewrite <- app_assoc; exact E).
    simpl. destruct (op_char_binary op) as (-> & ->).
    destruct op; reflexivity.
Qed.

Lemma run_program M consts es : forall pre post out,
  consts = pre ++ program_leaves es ++ post ->
  run_loop M consts (compile_program (List.length pre) es) [] out =
  Returns (true, out ++ map (fun e => Evaluation (number M e)) es).
Proof.
  induction es as [|e es IH]; intros pre post out E; simpl.
  - rewrite app_nil_r. reflexivity.
  - unfold program_leaves in E. simpl in E. rewrite <- app_assoc in E.
    rewrite (run_compile M consts e pre _ _ _ _ E). simpl.
    rewrite <- length_app, (IH (pre ++ leaves e) post)
      by (rewrite <- app_assoc; exact E).
    rewrite <- app_assoc. reflexivity.
Qed.

Lemma string_app_assoc (a b c : string) :
  ((a ++ b) ++ c = a ++ (b ++ c))%string.
Proof. induction a as [|x a IH]; simpl; [|rewrite IH]; reflexivity. Qed.

Lemma string_app_nil_r (a : string) : (a ++ "")%string = a.
Proof. induction a as [|x a IH]; simpl; [|rewrite IH]; reflexivity. Qed.

Lemma understanding_program consts es : forall pre post expr,
  consts = pre ++ program_leaves es ++ post ->
  understanding_loop consts (compile_program (List.length pre) es) [] expr =
  Returns ((expr ++ show_program es)%string, []).
Proof.
  induction es as [|e es IH]; intros pre post expr E; simpl.
  - rewrite string_app_nil_r. reflexivity.
  - unfold program_leaves in E. simpl in E. rewrite <- app_assoc in E.
    rewrite (understanding_compile consts e pre _ _ _ _ E). simpl.
    rewrite <- length_app, (IH (pre ++ leaves e) post)
      by (rewrite <- app_assoc; exact E).
    rewrite !string_app_assoc. reflexivity.
Qed.

(** ** The parser as a relation

    The clauses of the C++ functions, read as rules for [runs]. *)


Lemma runs_guard (p q pq : nat -> Evaluator -> parsed)
    (k : Evaluator -> Evaluator) ev ev1 r :
  (forall fuel, pq (S fuel) ev = guard (p fuel ev) (fun e => q fuel (k e))) ->
  (forall fuel, stable p fuel) -> (forall fuel, stable q fuel) ->
  runs p ev (true, ev1) -> runs q (k ev1) r -> runs pq ev r.
Proof.
  intros Hpq Sp Sq (f1 & E1) (f2 & E2). exists (S (Nat.max f1 f2)).
  rewrite Hpq.
  rewrite (Sp f1 (Nat.max f1 f2) ev _ (Nat.le_max_l _ _) E1). simpl.
  apply (Sq f2); [apply Nat.le_max_r|exact E2].
Qed.

Lemma runs_level1 ev ev1 r :
  runs level2 ev (true, ev1) -> runs level1_loop ev1 r -> runs level1 ev r.
Proof.
  apply (runs_guard level2 level1_loop level1 (fun e => e));
    [reflexivity|intros; apply levels_stable..].
Qed.

Lemma runs_level2 ev ev1 r :
  runs level3 ev (true, ev1) -> runs level2_loop ev1 r -> runs level2 ev r.
Proof.
  apply (runs_guard level3 level2_loop level2 (fun e => e));
    [reflexivity|intros; apply levels_stable..].
Qed.

Lemma runs_level4 ev ev1 r :
  runs level_top ev (true, ev1) -> runs level4_loop ev1 r -> runs level4 ev r.
Proof.
  apply (runs_guard level_top level4_loop level4 (fun e => e));
    [reflexivity|intros; apply levels_stable..].
Qed.

Lemma runs_level1_stop ev :
  at_char "+" ev || at_char "-" ev = false -> runs level1_loop ev (true, ev).
Proof. intros H. exists 1. simpl. rewrite H. reflexivity. Qed.

Lemma runs_level2_stop ev :
  at_char "*" ev || at_char "/" ev = false -> runs level2_loop ev (true, ev).
Proof. intros H. exists 1. simpl. rewrite H. reflexivity. Qed.

Lemma runs_level4_stop ev :
  at_char "^" ev = false -> runs level4_loop ev (true, ev).
Proof. intros H. exists 1. simpl. rewrite H. reflexivity. Qed.

Lemma runs_level1_step ev ev1 r :
  at_char "+" ev || at_char "-" ev = true ->
  runs level2 (nextch ev) (true, ev1) ->
  runs level1_loop
    (push_symbol (if Ascii.eqb (cur ev) "+" then operator "+"
                  else operator "-") ev1) r ->
  runs level1_loop ev r.
Proof.
  intros H.
  apply (runs_guard (fun f _ => level2 f (nextch ev)) level1_loop
           (fun f e => level1_loop f ev) _ ev).
  - intros fuel. simpl. rewrite H. reflexivity.
  - intros fuel fuel' e x. apply levels_stable.
  - intros; apply levels_stable.
Qed.

Lemma runs_level2_step ev ev1 r :
  at_char "*" ev || at_char "/" ev = true ->
  runs level3 (nextch ev) (true, ev1) ->
  runs level2_loop
    (push_symbol (if Ascii.eqb (cur ev) "*" then operator "*"
                  else operator "/") ev1) r ->
  runs level2_loop ev r.
Proof.
  intros H.
  apply (runs_guard (fun f _ => level3 f (nextch ev)) level2_loop
           (fun f e => level2_loop f ev) _ ev).
  - intros fuel. simpl. rewrite H. reflexivity.
  - intros fuel fuel' e x. apply levels_stable.
  - intros; apply levels_stable.
Qed.

Lemma runs_level4_step ev ev1 r :
  at_char "^" ev = true ->
  runs level3 (nextch ev) (true, ev1) ->
  runs level4_loop (push_symbol (operator "^") ev1) r ->
  runs level4_loop ev r.
Proof.
  intros H.
  apply (runs_guard (fun f _ => level3 f (nextch ev)) level4_loop
           (fun f e => level4_loop f ev) _ ev).
  - intros fuel. simpl. rewrite H. reflexivity.
  - intros fuel fuel' e x. apply levels_stable.
  - intros; apply levels_stable.
Qed.

Lemma runs_level3_minus ev ev1 :
  at_char "-" ev = true ->
  runs level3 (nextch ev) (true, ev1) ->
  runs level3 ev (true, push_symbol (operator "n") ev1).
Proof.
  intros H (f & E). exists (S f). simpl. rewrite H, E. reflexivity.
Qed.

Lemma runs_level3_plain ev r :
  at_char "-" ev = false -> runs level4 ev r -> runs level3 ev r.
Proof.
  intros H (f & E). exists (S f). simpl. rewrite H. exact E.
Qed.

Lemma runs_top_number ev :
  isdigit (cur ev) = true ->
  runs level_top ev
    (true,
     push_last_constant
       (eatspace (push_constant (fst (get_double ev)) (snd (get_double ev))))).
Proof.
  intros H. exists 1. simpl. rewrite H. destruct (get_double ev); reflexivity.
Qed.

Lemma runs_top_paren ev ev1 :
  isdigit (cur ev) = false -> at_char "(" ev = true ->
  runs level1 (nextch ev) (true, ev1) -> at_char ")" ev1 = true ->
  runs level_top ev (true, nextch ev1).
Proof.
  intros Hd Hp (f & E) Hc. exists (S f). simpl.
  rewrite Hd, Hp, E. simpl. rewrite Hc. reflexivity.
Qed.

Lemma runs_top_call ev nm ev1 f ev2 :
  isdigit (cur ev) = false -> at_char "(" ev = false ->
  isalpha (cur ev) || at_char "_" ev = true ->
  get_name ev = (nm, ev1) -> math_function nm = Some f ->
  runs level3 (eatspace ev1) (true, ev2) ->
  runs level_top ev (true, push_symbol (mkSymbol MATHFN f) ev2).
Proof.
  intros Hd Hp Ha Hn Hf (fuel & E). exists (S fuel). simpl.
  rewrite Hd, Hp, Ha, Hn, Hf, E. reflexivity.
Qed.

Lemma runs_parse_stop ev : at_end ev = true -> runs parse_loop ev (true, ev).
Proof. intros H. exists 1. simpl. rewrite H. reflexivity. Qed.

Lemma runs_parse_step ev ev1 r :
  at_end ev = false -> runs level1 ev (true, ev1) ->
  at_char ";" ev1 = true ->
  runs parse_loop (nextch (push_symbol (operator ";") ev1)) r ->
  runs parse_loop ev r.
Proof.
  intros He (f1 & E1) Hs (f2 & E2). exists (S (Nat.max f1 f2)). simpl.
  rewrite He.
  destruct (levels_stable f1) as (S1 & _).
  rewrite (S1 (Nat.max f1 f2) ev _ (Nat.le_max_l _ _) E1). simpl.
  rewrite Hs. simpl.
  replace (at_char ";" (push_symbol (operator ";") ev1)) with (at_char ";" ev1)
    by reflexivity.
  rewrite Hs.
  apply (parse_loop_stable f2); [apply Nat.le_max_r|exact E2].
Qed.

(** ** The text of an expression is read back as the expression *)

Lemma same_refl a : same a a.
Proof. repeat split. Qed.

Lemma same_trans a b c : same a b -> same b c -> same a c.
Proof.
  unfold same. intros (? & ? & ? & ?) (? & ? & ? & ?).
  repeat split; congruence.
Qed.

Lemma same_nextch ev : same ev (nextch ev).
Proof.
  destruct (nextch_frame ev) as (? & ? & ? & ?). repeat split; auto.
Qed.

Lemma same_set_line l ev : same ev (set_line l ev).
Proof. repeat split. Qed.

Lemma rebuilt_after a a' e b : same a a' -> rebuilt a' e b -> rebuilt a e b.
Proof.
  unfold same, rebuilt. intros (-> & -> & -> & ->). auto.
Qed.

Lemma rebuilt_before a e b b' : rebuilt a e b -> same b b' -> rebuilt a e b'.
Proof.
  unfold same, rebuilt. intros H (-> & -> & -> & ->). auto.
Qed.

Lemma rebuilt_neg a e b :
  rebuilt a e b -> rebuilt a (Neg e) (push_symbol (operator "n") b).
Proof.
  unfold rebuilt. simpl. intros (-> & H). rewrite app_assoc. auto.
Qed.

Lemma rebuilt_call a f e b :
  rebuilt a e b ->
  rebuilt a (Call f e) (push_symbol (mkSymbol MATHFN (fn_id f)) b).
Proof.
  unfold rebuilt. simpl. intros (-> & H). rewrite app_assoc. auto.
Qed.

Lemma rebuilt_binary a x b y c op :
  rebuilt a x b -> rebuilt b y c ->
  rebuilt a (Binary op x y) (push_symbol (operator (op_char op)) c).
Proof.
  unfold rebuilt. simpl.
  intros (Sb & (cs1 & Cb & F1) & Ob & Vb) (-> & (cs2 & -> & F2) & -> & ->).
  rewrite Sb, Cb, length_app, <- !app_assoc.
  rewrite (Forall2_length F1).
  repeat split; auto.
  exists (cs1 ++ cs2). split; [reflexivity|]. apply Forall2_app; auto.
Qed.

Lemma rebuilt_fits a e b n :
  rebuilt a e b -> fits a (List.length (leaves e) + n) -> fits b n.
Proof.
  unfold rebuilt, fits. intros (_ & (cs & -> & F) & _) H.
  rewrite length_app, <- (Forall2_length F). 
  rewrite <- Nat.add_assoc. exact H.
Qed.

Lemma fits_less ev n m : fits ev n -> m <= n -> fits ev m.
Proof. unfold fits. lia. Qed.

Lemma fits_same a b n : same a b -> fits a n -> fits b n.
Proof. unfold same, fits. intros (_ & -> & _). auto. Qed.

(** Reading the characters of the line. *)

Lemma cur_at ev c s : line ev = String c s -> cur ev = c.
Proof. unfold cur. intros ->. reflexivity. Qed.

Lemma at_char_at ev c s x :
  line ev = String c s -> at_char x ev = Ascii.eqb c x.
Proof. unfold at_char. intros H. rewrite (cur_at _ _ _ H). reflexivity. Qed.

Lemma line_nextch_at ev c s :
  line ev = String c s -> line (nextch ev) = skip_space s.
Proof.
  intros H. rewrite line_nextch, (line_advance _ _ _ H). reflexivity.
Qed.

Lemma skip_space_plain s t : plain s -> skip_space (s ++ t) = (s ++ t)%string.
Proof. intros (c & r & -> & Hs & _). simpl. rewrite Hs. reflexivity. Qed.

Lemma delimiter_cases k :
  delimiter k = true ->
  k = ")"%char \/ k = ";"%char \/ k = "+"%char \/ k = "-"%char \/
  k = "*"%char \/ k = "/"%char \/ k = "^"%char.
Proof.
  unfold delimiter. simpl. intros H.
  repeat (apply orb_true_iff in H;
          destruct H as [H|H]; [apply Ascii.eqb_eq in H; auto 10|]).
  discriminate.
Qed.

Lemma delimiter_not_space k : delimiter k = true -> isspace k = false.
Proof.
  intros H. apply delimiter_cases in H.
  repeat (destruct H as [H|H]); subst; reflexivity.
Qed.

Lemma op_char_delimiter op : delimiter (op_char op) = true.
Proof. destruct op; reflexivity. Qed.

Lemma digit_plain d : isdigit d = true ->
  isspace d = false /\ Ascii.eqb d "-" = false /\ Ascii.eqb d "(" = false.
Proof.
  destruct d as [[] [] [] [] [] [] [] []]; try discriminate; repeat split.
Qed.

Lemma plain_show e : Forall readable (leaves e) -> plain (show e).
Proof.
  destruct e as [c|f e|e|op a b]; simpl; intros H.
  - inversion H as [|? ? (c' & (d & r & E & Hd) & _) _]; subst.
    destruct (digit_plain d Hd) as (? & ? & _).
    exists d, r. unfold dtostr in *. auto.
  - destruct f; simpl; eexists _, _; repeat split.
  - eexists _, _; repeat split.
  - eexists _, _; repeat split.
Qed.

Lemma line_binary a op b t :
  (binary_text a op b ++ t =
   String "(" (a ++ String op (b ++ String ")" t)))%string.
Proof.
  unfold binary_text. simpl. f_equal.
  rewrite !string_app_assoc. simpl. rewrite string_app_assoc. reflexivity.
Qed.

Lemma line_neg x t :
  (("(-" ++ x ++ ")") ++ t =
   String "(" (String "-" (x ++ String ")" t)))%string.
Proof. simpl. rewrite string_app_assoc. reflexivity. Qed.

Lemma line_call nm x t :
  ((nm ++ "(" ++ x ++ ")") ++ t = nm ++ String "(" (x ++ String ")" t))%string.
Proof.
  rewrite string_app_assoc. simpl. rewrite string_app_assoc. reflexivity.
Qed.

(** From level_top up: a level whose operators do not follow returns what
    the level below returned. *)

Lemma reparses_level4 e k :
  reparses level_top e k -> Ascii.eqb k "^" = false -> reparses level4 e k.
Proof.
  intros H Hk rest ev L F. destruct (H rest ev L F) as (ev' & R & L' & B).
  exists ev'. split; [|split; [exact L'|exact B]].
  eapply runs_level4; [exact R|]. apply runs_level4_stop.
  rewrite (at_char_at _ _ _ _ L'). exact Hk.
Qed.

Lemma reparses_level3 e k :
  reparses level4 e k -> plain (show e) -> reparses level3 e k.
Proof.
  intros H (c & r & E & _ & Hm) rest ev L F.
  destruct (H rest ev L F) as (ev' & R & L' & B).
  exists ev'. split; [|split; [exact L'|exact B]].
  apply runs_level3_plain; [|exact R].
  rewrite E in L. simpl in L. rewrite (at_char_at _ _ _ _ L). exact Hm.
Qed.

Lemma reparses_level2 e k :
  reparses level3 e k -> Ascii.eqb k "*" = false -> Ascii.eqb k "/" = false ->
  reparses level2 e k.
Proof.
  intros H Hk1 Hk2 rest ev L F.
  destruct (H rest ev L F) as (ev' & R & L' & B).
  exists ev'. split; [|split; [exact L'|exact B]].
  eapply runs_level2; [exact R|]. apply runs_level2_stop.
  rewrite !(at_char_at _ _ _ _ L'), Hk1, Hk2. reflexivity.
Qed.

Lemma reparses_level1 e k :
  reparses level2 e k -> Ascii.eqb k "+" = false -> Ascii.eqb k "-" = false ->
  reparses level1 e k.
Proof.
  intros H Hk1 Hk2 rest ev L F.
  destruct (H rest ev L F) as (ev' & R & L' & B).
  exists ev'. split; [|split; [exact L'|exact B]].
  eapply runs_level1; [exact R|]. apply runs_level1_stop.
  rewrite !(at_char_at _ _ _ _ L'), Hk1, Hk2. reflexivity.
Qed.

(** Inside parentheses every level reads the whole operand. *)
Lemma reparses_closed e :
  reparses level_top e ")" -> plain (show e) ->
  reparses level3 e ")" /\ reparses level2 e ")" /\ reparses level1 e ")".
Proof.
  intros H P.
  assert (H3 : reparses level3 e ")")
    by (apply reparses_level3, P; apply reparses_level4; auto).
  assert (H2 : reparses level2 e ")") by (apply reparses_level2; auto).
  repeat split; auto. apply reparses_level1; auto.
Qed.

Lemma skip_space_delimiter k rest :
  delimiter k = true -> skip_space (String k rest) = String k rest.
Proof. intros H. simpl. rewrite (delimiter_not_space _ H). reflexivity. Qed.

Lemma get_name_fn ev f t :
  line ev = (fn_name f ++ String "(" t)%string ->
  get_name ev = (fn_name f, set_line (String "(" t) ev) /\
  isdigit (cur ev) = false /\ at_char "(" ev = false /\
  isalpha (cur ev) || at_char "_" ev = true /\
  math_function (fn_name f) = Some (fn_id f).
Proof.
  intros L. unfold get_name, at_char, cur. rewrite L.
  destruct f; repeat split.
Qed.

Lemma rebuilt_const ev c c' ev1 :
  fits ev 1 -> reads_back c c' -> same ev ev1 ->
  rebuilt ev (Const c)
    (push_last_constant (eatspace (push_constant c' ev1))).
Proof.
  unfold fits, rebuilt, same. intros F R (Es & Ec & Eo & Ev). simpl.
  rewrite Es, Ec, Eo, Ev, length_app. simpl.
  repeat split.
  - do 3 f_equal. rewrite to_uint_small; lia.
  - exists [c']. split; [reflexivity|]. constructor; [exact R|constructor].
Qed.

Lemma at_char_push x s ev : at_char x (push_symbol s ev) = at_char x ev.
Proof. reflexivity. Qed.

Lemma top_reparses e :
  unambiguous e -> Forall readable (leaves e) ->
  forall k, delimiter k = true ->
    (is_call e = true -> Ascii.eqb k "^" = false) ->
    reparses level_top e k.
Proof.
  induction e as [c|f x IH|x IH|op a IHa b IHb];
    intros U Rd k Dk Ck rest ev L F.
  - (* a constant *)
    simpl in L.
    inversion Rd as [|? ? (c' & Rc) _]; subst.
    pose proof Rc as ((d & r & E & Hd) & Hs).
    specialize (Hs k rest Dk).
    assert (Hcur : isdigit (cur ev) = true).
    { unfold cur. rewrite L, E. exact Hd. }
    assert (Hg : get_double ev = (c', set_line (String k rest) ev)).
    { unfold get_double. rewrite L, Hs. reflexivity. }
    eexists. split; [apply runs_top_number; exact Hcur|].
    rewrite Hg. simpl fst; simpl snd. split.
    + simpl. apply skip_space_delimiter; exact Dk.
    + apply rebuilt_const; auto. apply same_set_line.
  - (* a function application *)
    cbn [show] in L. simpl in F, Rd, U. rewrite line_call in L.
    destruct (get_name_fn ev f _ L) as (Hn & Hd & Hp & Ha & Hf).
    pose proof (plain_show x Rd) as Px.
    destruct (reparses_closed x (IH U Rd ")"%char eq_refl
                                   (fun _ => eq_refl)) Px) as (_ & _ & H1).
    set (ev1 := set_line (String "(" (show x ++ String ")" (String k rest))) ev)
      in *.
    assert (L1 : line (eatspace ev1) =
                 String "(" (show x ++ String ")" (String k rest)))
      by reflexivity.
    assert (S1 : same ev (nextch (eatspace ev1))).
    { eapply same_trans; [|apply same_nextch]. repeat split. }
    destruct (H1 (String k rest) (nextch (eatspace ev1)))
      as (ev3 & R3 & L3 & B3).
    { rewrite (line_nextch_at _ _ _ L1). apply skip_space_plain; exact Px. }
    { eapply fits_same; eauto. }
    exists (push_symbol (mkSymbol MATHFN (fn_id f)) (nextch ev3)).
    assert (L4 : line (nextch ev3) = String k rest).
    { rewrite (line_nextch_at _ _ _ L3). apply skip_space_delimiter; auto. }
    split; [|split].
    + eapply runs_top_call; eauto.
      apply runs_level3_plain; [rewrite (at_char_at _ _ _ _ L1); reflexivity|].
      eapply runs_level4.
      * eapply runs_top_paren; [| |exact R3|].
        -- rewrite (cur_at _ _ _ L1); reflexivity.
        -- rewrite (at_char_at _ _ _ _ L1); reflexivity.
        -- rewrite (at_char_at _ _ _ _ L3); reflexivity.
      * apply runs_level4_stop. rewrite (at_char_at _ _ _ _ L4).
        apply Ck; reflexivity.
    + exact L4.
    + apply rebuilt_call. eapply rebuilt_before; [|apply same_nextch].
      eapply rebuilt_after; [exact S1|exact B3].
  - (* a negation *)
    cbn [show] in L. simpl in F, Rd, U. rewrite line_neg in L.
    pose proof (plain_show x Rd) as Px.
    destruct (reparses_closed x (IH U Rd ")"%char eq_refl
                                   (fun _ => eq_refl)) Px) as (H3 & _ & _).
    assert (L1 : line (nextch ev) =
                 String "-" (show x ++ String ")" (String k rest)))
      by (rewrite (line_nextch_at _ _ _ L); reflexivity).
    destruct (H3 (String k rest) (nextch (nextch ev))) as (ev3 & R3 & L3 & B3).
    { rewrite (line_nextch_at _ _ _ L1). apply skip_space_plain; exact Px. }
    { eapply fits_same; [|exact F].
      eapply same_trans; apply same_nextch. }
    set (ev4 := push_symbol (operator "n") ev3).
    assert (L4 : line ev4 = String ")" (String k rest)) by exact L3.
    exists (nextch ev4). split; [|split].
    + eapply runs_top_paren.
      * rewrite (cur_at _ _ _ L); reflexivity.
      * rewrite (at_char_at _ _ _ _ L); reflexivity.
      * eapply runs_level1; [eapply runs_level2|].
        -- apply runs_level3_minus; [|exact R3].
           rewrite (at_char_at _ _ _ _ L1); reflexivity.
        -- apply runs_level2_stop.
           rewrite !(at_char_at _ _ _ _ L4); reflexivity.
        -- apply runs_level1_stop.
           rewrite !(at_char_at _ _ _ _ L4); reflexivity.
      * rewrite (at_char_at _ _ _ _ L4); reflexivity.
    + rewrite (line_nextch_at _ _ _ L4). apply skip_space_delimiter; auto.
    + eapply rebuilt_before; [|apply same_nextch].
      apply rebuilt_neg. eapply rebuilt_after; [|exact B3].
      eapply same_trans; apply same_nextch.
  - (* a binary operation *)
    cbn [show] in L. simpl in F, Rd, U. rewrite line_binary in L.
    destruct U as (Ua & Ub & Uc).
    apply Forall_app in Rd. destruct Rd as (Ra & Rb).
    rewrite length_app in F.
    pose proof (plain_show a Ra) as Pa.
    pose proof (plain_show b Rb) as Pb.
    destruct (reparses_closed b (IHb Ub Rb ")"%char eq_refl
                                   (fun _ => eq_refl)) Pb) as (Hb3 & Hb2 & _).
    assert (Ha : reparses level_top a (op_char op)).
    { apply IHa; auto using op_char_delimiter.
      intros Hc. destruct op; try reflexivity.
      rewrite Uc in Hc by reflexivity. discriminate. }
    assert (L1 : line (nextch ev) =
              (show a ++ String (op_char op)
                 (show b ++ String ")" (String k rest)))%string).
    { rewrite (line_nextch_at _ _ _ L). apply skip_space_plain; exact Pa. }
    assert (F1 : fits (nextch ev) (List.length (leaves a))).
    { eapply fits_same; [apply same_nextch|]. eapply fits_less; eauto. lia. }
    assert (Hfin : forall ev5,
              line ev5 = String ")" (String k rest) ->
              rebuilt (nextch ev) (Binary op a b) ev5 ->
              runs level1 (nextch ev) (true, ev5) ->
              exists ev', runs level_top ev (true, ev') /\
                line ev' = String k rest /\ rebuilt ev (Binary op a b) ev').
    { intros ev5 L5 B5 R5. exists (nextch ev5). split; [|split].
      - eapply runs_top_paren; [| |exact R5|].
        + rewrite (cur_at _ _ _ L); reflexivity.
        + rewrite (at_char_at _ _ _ _ L); reflexivity.
        + rewrite (at_char_at _ _ _ _ L5); reflexivity.
      - rewrite (line_nextch_at _ _ _ L5). apply skip_space_delimiter; auto.
      - eapply rebuilt_before; [|apply same_nextch].
        eapply rebuilt_after; [apply same_nextch|exact B5]. }
    assert (Hb : forall (p : nat -> Evaluator -> parsed) ev2,
              reparses p b ")" ->
              line ev2 = String (op_char op)
                           (show b ++ String ")" (String k rest)) ->
              rebuilt (nextch ev) a ev2 ->
              exists ev3, runs p (nextch ev2) (true, ev3) /\
                line (push_symbol (operator (op_char op)) ev3) =
                  String ")" (String k rest) /\
                rebuilt (nextch ev) (Binary op a b)
                  (push_symbol (operator (op_char op)) ev3)).
    { intros p ev2 Hp L2 B2.
      destruct (Hp (String k rest) (nextch ev2)) as (ev3 & R3 & L3 & B3).
      - rewrite (line_nextch_at _ _ _ L2). apply skip_space_plain; exact Pb.
      - eapply fits_same; [apply same_nextch|].
        eapply rebuilt_fits; [exact B2|].
        eapply fits_same; [apply same_nextch|exact F].
      - exists ev3. split; [exact R3|]. split; [exact L3|].
        eapply rebuilt_binary; [exact B2|].
        eapply rebuilt_after; [apply same_nextch|exact B3]. }
    destruct op.
    + (* + *)
      assert (Ha2 : reparses level2 a "+").
      { apply reparses_level2; auto.
        apply reparses_level3; auto. apply reparses_level4; auto. }
      destruct (Ha2 _ _ L1 F1) as (ev2 & R2 & L2 & B2).
      destruct (Hb level2 ev2 Hb2 L2 B2) as (ev3 & R3 & L3 & B3).
      eapply Hfin; [exact L3|exact B3|]; simpl in L3.
      eapply runs_level1; [exact R2|].
      eapply runs_level1_step; [| exact R3 |].
      * rewrite !(at_char_at _ _ _ _ L2); reflexivity.
      * rewrite (cur_at _ _ _ L2). simpl.
        apply runs_level1_stop. simpl in L3.
        rewrite ?at_char_push, !(at_char_at _ _ _ _ L3); reflexivity.
    + (* - *)
      assert (Ha2 : reparses level2 a "-").
      { apply reparses_level2; auto.
        apply reparses_level3; auto. apply reparses_level4; auto. }
      destruct (Ha2 _ _ L1 F1) as (ev2 & R2 & L2 & B2).
      destruct (Hb level2 ev2 Hb2 L2 B2) as (ev3 & R3 & L3 & B3).
      eapply Hfin; [exact L3|exact B3|]; simpl in L3.
      eapply runs_level1; [exact R2|].
      eapply runs_level1_step; [| exact R3 |].
      * rewrite !(at_char_at _ _ _ _ L2); reflexivity.
      * rewrite (cur_at _ _ _ L2). simpl.
        apply runs_level1_stop. simpl in L3.
        rewrite ?at_char_push, !(at_char_at _ _ _ _ L3); reflexivity.
    + (* * *)
      assert (Ha3 : reparses level3 a "*").
      { apply reparses_level3; auto. apply reparses_level4; auto. }
      destruct (Ha3 _ _ L1 F1) as (ev2 & R2 & L2 & B2).
      destruct (Hb level3 ev2 Hb3 L2 B2) as (ev3 & R3 & L3 & B3).
      eapply Hfin; [exact L3|exact B3|]; simpl in L3.
      eapply runs_level1; [eapply runs_level2; [exact R2|]|].
      * eapply runs_level2_step; [| exact R3 |].
        -- rewrite !(at_char_at _ _ _ _ L2); reflexivity.
        -- rewrite (cur_at _ _ _ L2). simpl.
           apply runs_level2_stop. simpl in L3.
           rewrite ?at_char_push, !(at_char_at _ _ _ _ L3); reflexivity.
      * apply runs_level1_stop. simpl in L3.
        rewrite ?at_char_push, !(at_char_at _ _ _ _ L3); reflexivity.
    + (* / *)
      assert (Ha3 : reparses level3 a "/").
      { apply reparses_level3; auto. apply reparses_level4; auto. }
      destruct (Ha3 _ _ L1 F1) as (ev2 & R2 & L2 & B2).
      destruct (Hb level3 ev2 Hb3 L2 B2) as (ev3 & R3 & L3 & B3).
      eapply Hfin; [exact L3|exact B3|]; simpl in L3.
      eapply runs_level1; [eapply runs_level2; [exact R2|]|].
      * eapply runs_level2_step; [| exact R3 |].
        -- rewrite !(at_char_at _ _ _ _ L2); reflexivity.
        -- rewrite (cur_at _ _ _ L2). simpl.
           apply runs_level2_stop. simpl in L3.
           rewrite ?at_char_push, !(at_char_at _ _ _ _ L3); reflexivity.
      * apply runs_level1_stop. simpl in L3.
        rewrite ?at_char_push, !(at_char_at _ _ _ _ L3); reflexivity.
    + (* ^ *)
      destruct (Ha _ _ L1 F1) as (ev2 & R2 & L2 & B2).
      destruct (Hb level3 ev2 Hb3 L2 B2) as (ev3 & R3 & L3 & B3).
      eapply Hfin; [exact L3|exact B3|]; simpl in L3. simpl in L3.
      destruct Pa as (ca & ra & Ea & _ & Ma).
      eapply runs_level1; [eapply runs_level2|].
      * apply runs_level3_plain.
        -- rewrite Ea in L1.
           rewrite (at_char_at _ _ _ _ L1). exact Ma.
        -- eapply runs_level4; [exact R2|].
           eapply runs_level4_step; [| exact R3 |].
           ++ rewrite (at_char_at _ _ _ _ L2); reflexivity.
           ++ apply runs_level4_stop.
              rewrite ?at_char_push, (at_char_at _ _ _ _ L3); reflexivity.
      * apply runs_level2_stop.
        rewrite ?at_char_push, !(at_char_at _ _ _ _ L3); reflexivity.
      * apply runs_level1_stop.
        rewrite ?at_char_push, !(at_char_at _ _ _ _ L3); reflexivity.
Qed.

Lemma reparses_statement e :
  unambiguous e -> Forall readable (leaves e) -> reparses level1 e ";".
Proof.
  intros U R.
  apply reparses_level1; auto. apply reparses_level2; auto.
  apply reparses_level3; [|apply plain_show; exact R].
  apply reparses_level4; auto. apply top_reparses; auto.
Qed.

Lemma show_program_start es :
  Forall readable (program_leaves es) ->
  skip_space (show_program es) = show_program es.
Proof.
  destruct es as [|e es]; [reflexivity|]. unfold program_leaves. simpl.
  intros R. apply Forall_app in R. destruct R as (R & _).
  apply skip_space_plain, plain_show, R.
Qed.

Lemma show_start_not_end e ev t :
  Forall readable (leaves e) -> line ev = (show e ++ t)%string ->
  at_end ev = false.
Proof.
  intros R L. unfold at_end.
  destruct e as [c|f e|e|op a b]; cbn [show] in L.
  - inversion R as [|? ? (c' & (d & r & E & Hd) & _) _]; subst.
    unfold dtostr in *. rewrite E in L. simpl in L.
    rewrite (at_char_at _ _ _ _ L).
    destruct d as [[] [] [] [] [] [] [] []]; try discriminate; reflexivity.
  - destruct f; simpl in L; rewrite (at_char_at _ _ _ _ L); reflexivity.
  - simpl in L; rewrite (at_char_at _ _ _ _ L); reflexivity.
  - rewrite line_binary in L. rewrite (at_char_at _ _ _ _ L); reflexivity.
Qed.

Lemma program_reparses es :
  Forall unambiguous es -> Forall readable (program_leaves es) ->
  forall ev, line ev = show_program es ->
    fits ev (List.length (program_leaves es)) ->
    exists ev', runs parse_loop ev (true, ev') /\ rebuilt_program ev es ev'.
Proof.
  induction es as [|e es IH]; intros U R ev L F.
  - exists ev. split.
    + apply runs_parse_stop. unfold at_end, at_char, cur. rewrite L.
      reflexivity.
    + unfold rebuilt_program. simpl. rewrite app_nil_r.
      repeat split. exists []. rewrite app_nil_r. split; constructor.
  - inversion U as [|? ? Ue Ues]; subst.
    unfold program_leaves in R, F. simpl in R, F.
    apply Forall_app in R. destruct R as (Re & Res).
    rewrite length_app in F.
    cbn [show_program] in L.
    destruct (reparses_statement e Ue Re (nl ++ show_program es)%string ev)
      as (ev1 & R1 & L1 & B1).
    { rewrite L. reflexivity. }
    { eapply fits_less; eauto. lia. }
    set (ev2 := nextch (push_symbol (operator ";") ev1)).
    assert (S2 : symbols ev2 = symbols ev1 ++ [operator ";"] /\
                 constants ev2 = constants ev1 /\ cout ev2 = cout ev1 /\
                 variables ev2 = variables ev1).
    { subst ev2.
      destruct (nextch_frame (push_symbol (operator ";") ev1))
        as (-> & -> & -> & ->). repeat split. }
    destruct S2 as (Ss & Sc & So & Sv).
    destruct (IH Ues Res ev2) as (ev3 & R3 & B3).
    { subst ev2. rewrite line_nextch_push, (line_nextch_at _ _ _ L1).
      simpl. apply show_program_start; exact Res. }
    { unfold fits. rewrite Sc.
      apply (rebuilt_fits _ _ _ _ B1). exact F. }
    exists ev3. split.
    + eapply runs_parse_step; [|exact R1| |exact R3].
      * eapply show_start_not_end; eauto.
      * rewrite (at_char_at _ _ _ _ L1); reflexivity.
    + destruct B1 as (B1s & (cs1 & B1c & F1) & B1o & B1v).
      destruct B3 as (B3s & (cs3 & B3c & F3) & B3o & B3v).
      unfold rebuilt_program, program_leaves. simpl.
      rewrite B3s, B3c, B3o, B3v, Ss, Sc, So, Sv, B1s, B1c, B1o, B1v.
      rewrite length_app, <- (Forall2_length F1), <- !app_assoc.
      repeat split.
      exists (cs1 ++ cs3). split; [reflexivity|]. apply Forall2_app; auto.
Qed.

(** ** A line parsed without a report *)

Lemma unambiguous_compile e : forall base rest s,
  unambiguous_code (compile base e ++ rest) s = true ->
  unambiguous e /\ unambiguous_code rest (is_call e :: s) = true.
Proof.
  induction e as [c|f e IH|e IH|op a IHa b IHb]; intros base rest s H.
  - split; [exact I|exact H].
  - simpl in H. rewrite <- app_assoc in H.
    apply IH in H. destruct H as (U & H). split; [exact U|exact H].
  - simpl in H. rewrite <- app_assoc in H.
    apply IH in H. destruct H as (U & H). split; [exact U|exact H].
  - simpl in H. rewrite <- !app_assoc in H.
    apply IHa in H. destruct H as (Ua & H).
    apply IHb in H. destruct H as (Ub & H).
    simpl in H. destruct (op_char_binary op) as (E1 & E2).
    rewrite E1, E2 in H.
    destruct op; simpl in H; simpl; auto;
      try (repeat split; auto; discriminate).
    destruct (is_call a); [discriminate|]. auto.
Qed.

Lemma unambiguous_program es : forall base,
  unambiguous_code (compile_program base es) [] = true ->
  Forall unambiguous es.
Proof.
  induction es as [|e es IH]; intros base H; [constructor|].
  simpl in H.
  change (compile base e ++ operator ";" :: compile_program _ es)
    with (compile base e ++ [operator ";"] ++ compile_program
            (base + List.length (leaves e)) es) in H.
  apply unambiguous_compile in H. destruct H as (U & H).
  simpl in H. constructor; eauto.
Qed.

Lemma reads_back_unique c x y : reads_back c x -> reads_back c y -> x = y.
Proof.
  intros (_ & Hx) (_ & Hy).
  specialize (Hx ")"%char ""%string eq_refl).
  specialize (Hy ")"%char ""%string eq_refl). congruence.
Qed.

Lemma reads_back_exact cs cs' :
  Forall exact cs -> Forall2 reads_back cs cs' -> cs' = cs.
Proof.
  intros E F. induction F as [|c c' cs cs' R F IH]; [reflexivity|].
  inversion E; subst. f_equal; auto. eapply reads_back_unique; eauto.
Qed.

(** What [parse] leaves when it returns true and has reported nothing:
    the code and the constants of a list of statements. *)
Lemma clean_parse str ev0 ev1 :
  cleared ev0 -> (N.of_nat (String.length str) < 2 ^ 32)%N ->
  parse str ev0 = Some (true, ev1) -> cout ev1 = cout ev0 ->
  exists es, symbols ev1 = compile_program 0 es /\
    constants ev1 = program_leaves es /\
    List.length (program_leaves es) <= String.length str.
Proof.
  intros (Ec & Es) Hlen H E. unfold parse in H.
  set (ev := eatspace (set_line str ev0)) in *.
  assert (Sev : small ev).
  { unfold small. subst ev. simpl. rewrite Ec. simpl.
    pose proof (skip_space_length str). lia. }
  destruct (parse_loop_sound _ _ _ H E Sev) as (es & Bs & Bc).
  destruct (levels_consume (fuel_of str)) as (_ & C).
  destruct (C _ _ _ H) as (cs & Ecs & Lcs).
  subst ev. simpl in *. rewrite Ec in *. rewrite Es in *. simpl in *.
  exists es. repeat split; auto.
  rewrite Bc in Ecs. subst cs.
  pose proof (skip_space_length str). lia.
Qed.

(** Both interpreters replay such a program to the end: no pop of an
    empty stack, no index out of range, an empty stack at the end, and one
    result per statement. *)
Lemma clean_parse_replays M str ev0 ev1 :
  cleared ev0 -> (N.of_nat (String.length str) < 2 ^ 32)%N ->
  parse str ev0 = Some (true, ev1) -> cout ev1 = cout ev0 ->
  exists es, symbols ev1 = compile_program 0 es /\
    understanding ev1 = Returns (show_program es, []) /\
    run M ev1 =
      Returns (true, map (fun e => Evaluation (number M e)) es).
Proof.
  intros C Hlen H E.
  destruct (clean_parse _ _ _ C Hlen H E) as (es & Es & Ec & _).
  exists es. split; [exact Es|]. unfold understanding, run.
  rewrite Es, Ec. split.
  - apply (understanding_program _ es [] [] "").
    simpl. rewrite app_nil_r. reflexivity.
  - apply (run_program M _ es [] [] []).
    simpl. rewrite app_nil_r. reflexivity.
Qed.

Lemma parse_of_runs text ev r :
  runs parse_loop (eatspace (set_line text ev)) r -> parse text ev = Some r.
Proof.
  intros (fuel & H). unfold parse.
  eapply parse_loop_fuel; [exact H|].
  unfold fuel_of. simpl. pose proof (skip_space_length text). lia.
Qed.

(** ** Lines with a syntax error

    What [parse] writes are reports.  It returns true only when all of
    them are reports of the end of the input: after any other report
    [parse] returns false, and so does [eval], with nothing written but the
    reports. *)
Lemma syntax_error_fails M str ev b ev' :
  parse str ev = Some (b, ev') ->
  exists d, cout ev' = cout ev ++ d /\ Forall report_item d /\
    ((exists o, In o d /\ ~ end_report o) ->
     b = false /\ eval M str ev = Some (Returns (false, ev'))).
Proof.
  intros H. pose proof H as Hp. unfold parse in H.
  destruct (levels_diagnose (fuel_of str)) as (_ & D).
  destruct (D _ _ _ H) as (d & E & R & _ & T).
  exists d. split; [exact E|]. split; [exact R|].
  intros (o & Ho & Hn).
  destruct b.
  - exfalso. apply Hn. specialize (T eq_refl).
    rewrite Forall_forall in T. auto.
  - split; [reflexivity|]. unfold eval. rewrite Hp. reflexivity.
Qed.

(** * The claims *)

Lemma skip_space_blank str :
  forallb isspace (list_ascii_of_string str) = true -> skip_space str = "".
Proof.
  induction str as [|c s IH]; simpl; [reflexivity|].
  intros H. apply andb_true_iff in H. destruct H as (-> & H). auto.
Qed.

(** The text of a small whole number is read back as that number. *)
Ltac reads_back_by_computation :=
  split;
  [ eexists _, _; split; vm_compute; reflexivity
  | intros k rest Hk; apply delimiter_cases in Hk;
    repeat (destruct Hk as [Hk|Hk]); subst k; vm_compute; reflexivity ].

Lemma exact_2 : exact 2.
Proof. reads_back_by_computation. Qed.

Lemma exact_3 : exact 3.
Proof. reads_back_by_computation. Qed.

(** C1 (the code departs from the claim).  The input [1+] ends where an
    operand is expected.  level_top reports "unexpected end of input" but
    does not return false, so [parse] returns true with the program
    [CONSTANT 0, +, ;]; [eval] does not return false: it goes on to
    [understanding], where [+] takes [back()] of an empty vector. *)
Theorem C1_end_of_input_is_accepted :
  parse "1+" Evaluator_new =
    Some (true,
          mkEvaluator [1%float]
            [mkSymbol CONSTANT 0; operator "+"; operator ";"]
            (variables Evaluator_new) ""
            [Diagnostic (error "unexpected end of input"
                           (set_line "" Evaluator_new))]) /\
  forall M, eval M "1+" Evaluator_new = Some (Undefined EmptyBack).
Proof.
  split; [vm_compute; reflexivity|].
  intros M. vm_compute. reflexivity.
Qed.

(** C2 (the code departs from the claim).  [parse] returns true on the
    input [-], which ends where an operand is expected (the defect of C1),
    and both interpreters then take [back()] of an empty vector at the
    first symbol of the program [n, ;]. *)
Theorem C2_replay_pops_an_empty_stack :
  exists ev,
    parse "-" Evaluator_new = Some (true, ev) /\
    symbols ev = [operator "n"; operator ";"] /\
    understanding ev = Undefined EmptyBack /\
    forall M, run M ev = Undefined EmptyBack.
Proof.
  eexists. split; [vm_compute; reflexivity|].
  repeat split.
Qed.

(** C3 (counterexample).  The line [(sin 2)^3] parses without a report
    into [2 sin 3 ^ ;].  Its reconstruction is [(sin(2)^3);] and parses
    into [2 3 ^ sin ;]: level_top gives the function the whole operand
    [(2)^3]. *)
Lemma C3_reconstruction_of_power_of_function :
  exists ev1 ev2,
    parse "(sin 2)^3" Evaluator_new = Some (true, ev1) /\
    cout ev1 = [] /\
    symbols ev1 =
      [mkSymbol CONSTANT 0; mkSymbol MATHFN SIN; mkSymbol CONSTANT 1;
       operator "^"; operator ";"] /\
    understanding ev1 = Returns ("(sin(2)^3);" ++ nl, [])%string /\
    parse ("(sin(2)^3);" ++ nl) (clear ev1) = Some (true, ev2) /\
    symbols ev2 =
      [mkSymbol CONSTANT 0; mkSymbol CONSTANT 1; operator "^";
       mkSymbol MATHFN SIN; operator ";"] /\
    symbols ev2 <> symbols ev1.
Proof.
  eexists _, _. split; [vm_compute; reflexivity|].
  split; [reflexivity|]. split; [reflexivity|].
  split; [vm_compute; reflexivity|].
  split; [vm_compute; reflexivity|].
  split; [reflexivity|]. discriminate.
Qed.

(** Two more ways the reconstruction departs from the line.  An overflowing
    literal is written [inf], which is read as an unknown name; a constant
    is written with six significant digits, and what is lost can decide
    the result. *)
Lemma reconstruction_of_infinity_is_rejected :
  exists ev1 ev2,
    parse "1e999" Evaluator_new = Some (true, ev1) /\
    cout ev1 = [] /\
    understanding ev1 = Returns ("inf;" ++ nl, [])%string /\
    parse ("inf;" ++ nl) (clear ev1) = Some (false, ev2).
Proof.
  eexists _, _. split; [vm_compute; reflexivity|].
  split; [reflexivity|].
  split; [vm_compute; reflexivity|]. vm_compute; reflexivity.
Qed.

Lemma reconstruction_loses_digits M :
  exists ev1 ev2,
    parse "1/(pi-3.14159)" Evaluator_new = Some (true, ev1) /\
    understanding ev1 = Returns ("(1/(3.14159-3.14159));" ++ nl, [])%string /\
    run M ev1 = Returns (true, [Evaluation 0x1.7003ffd87b695p+18]) /\
    parse ("(1/(3.14159-3.14159));" ++ nl) (clear ev1) = Some (true, ev2) /\
    run M ev2 = Returns (true, [Evaluation infinity]).
Proof.
  eexists _, _. split; [vm_compute; reflexivity|].
  split; [vm_compute; reflexivity|].
  split; [vm_compute; reflexivity|].
  split; vm_compute; reflexivity.
Qed.

(** C3 (amended).  Take a line shorter than 2^32 characters that [parse]
    accepts in a cleared evaluator without reporting anything, in whose
    program no result of a function is the left operand of [^], and each
    of whose constants [dtostr] writes as a text that [strtod] reads in
    full.  Then [understanding] returns a text which [parse] accepts, after
    [clear], without reporting anything and with the same program; its
    constants are those of the line read back from their text.  When each
    is read back as the same number, the constants are the same and [run]
    reports the same results. *)
Theorem C3_roundtrip (M : libm) (str : string) (ev0 ev1 : Evaluator) :
  cleared ev0 -> (N.of_nat (String.length str) < 2 ^ 32)%N ->
  parse str ev0 = Some (true, ev1) -> cout ev1 = cout ev0 ->
  unambiguous_code (symbols ev1) [] = true ->
  Forall readable (constants ev1) ->
  exists text ev2,
    understanding ev1 = Returns (text, []) /\
    parse text (clear ev1) = Some (true, ev2) /\
    cout ev2 = cout ev1 /\
    symbols ev2 = symbols ev1 /\
    Forall2 reads_back (constants ev1) (constants ev2) /\
    (Forall exact (constants ev1) ->
     constants ev2 = constants ev1 /\ run M ev2 = run M ev1).
Proof.
  intros C Hlen H E U R.
  destruct (clean_parse _ _ _ C Hlen H E) as (es & Es & Ec & Hn).
  assert (Hu : understanding ev1 = Returns (show_program es, [])).
  { unfold understanding. rewrite Es, Ec.
    apply (understanding_program _ es [] [] "").
    simpl. rewrite app_nil_r. reflexivity. }
  rewrite Es in U. apply unambiguous_program in U.
  rewrite Ec in R.
  destruct (program_reparses es U R
              (eatspace (set_line (show_program es) (clear ev1))))
    as (ev2 & R2 & B2).
  { simpl. apply show_program_start; exact R. }
  { unfold fits. simpl. lia. }
  exists (show_program es), ev2. split; [exact Hu|].
  split; [apply parse_of_runs; exact R2|].
  destruct B2 as (Bs & (cs & Bc & F) & Bo & _). simpl in Bs, Bc, Bo.
  assert (Es2 : symbols ev2 = symbols ev1) by congruence.
  split; [exact Bo|]. split; [exact Es2|].
  rewrite Bc, Ec. split; [exact F|].
  intros X. apply (reads_back_exact _ _ X) in F.
  split; [exact F|].
  unfold run. rewrite Es2, Bc, Ec, F. reflexivity.
Qed.

Lemma C3_roundtrip_witness :
  exists text ev2,
    understanding
      (mkEvaluator [2; 3; 2]%float
         [mkSymbol CONSTANT 0; mkSymbol CONSTANT 1; mkSymbol CONSTANT 2;
          operator "^"; operator "n"; operator "^"; operator ";"]
         (variables Evaluator_new) "" []) = Returns (text, []) /\
    parse text
      (clear (mkEvaluator [2; 3; 2]%float
         [mkSymbol CONSTANT 0; mkSymbol CONSTANT 1; mkSymbol CONSTANT 2;
          operator "^"; operator "n"; operator "^"; operator ";"]
         (variables Evaluator_new) "" [])) = Some (true, ev2) /\
    cout ev2 = [] /\
    symbols ev2 =
      [mkSymbol CONSTANT 0; mkSymbol CONSTANT 1; mkSymbol CONSTANT 2;
       operator "^"; operator "n"; operator "^"; operator ";"] /\
    Forall2 reads_back [2; 3; 2]%float (constants ev2) /\
    (Forall exact [2; 3; 2]%float ->
     constants ev2 = [2; 3; 2]%float /\
     run small_libm ev2 =
     run small_libm
       (mkEvaluator [2; 3; 2]%float
          [mkSymbol CONSTANT 0; mkSymbol CONSTANT 1; mkSymbol CONSTANT 2;
           operator "^"; operator "n"; operator "^"; operator ";"]
          (variables Evaluator_new) "" [])).
Proof.
  apply (C3_roundtrip small_libm "2^-3^2" Evaluator_new).
  - split; reflexivity.
  - vm_compute; reflexivity.
  - vm_compute; reflexivity.
  - reflexivity.
  - vm_compute; reflexivity.
  - repeat constructor; eexists; (apply exact_2 || apply exact_3).
Defined.

(** C4.  [2^-3^2] is compiled as 2^(-(3^2)): the program is
    [2 3 2 ^ n ^ ;], its reconstruction is [(2^(-(3^2)))] (followed by the
    [;] and the line break that close a statement), and [run] reports
    pow(2, -pow(3, 2)), which is 0.001953125 as soon as [pow] is exact on
    these arguments.  Without the minus sign, [2^3^2] is 2^(3^2). *)
Theorem C4_power_is_right_associative (M : libm) :
  pow M 3 2 = 9%float -> pow M 2 (-9) = 0.001953125%float ->
  (exists ev,
     parse "2^-3^2" Evaluator_new = Some (true, ev) /\
     cout ev = [] /\
     symbols ev =
       compile_program 0
         [Binary Pow (Const 2) (Neg (Binary Pow (Const 3) (Const 2)))] /\
     constants ev = [2; 3; 2]%float /\
     understanding ev = Returns ("(2^(-(3^2)));" ++ nl, [])%string /\
     run M ev = Returns (true, [Evaluation 0.001953125])) /\
  (exists ev,
     parse "2^3^2" Evaluator_new = Some (true, ev) /\
     cout ev = [] /\
     symbols ev =
       compile_program 0
         [Binary Pow (Const 2) (Binary Pow (Const 3) (Const 2))] /\
     understanding ev = Returns ("(2^(3^2));" ++ nl, [])%string).
Proof.
  intros H32 H29. split.
  - eexists. split; [vm_compute; reflexivity|].
    do 4 (split; [reflexivity|]).
    unfold run. simpl. rewrite H32.
    change (PrimFloat.opp 9) with (-9)%float. rewrite H29. reflexivity.
  - eexists. split; [vm_compute; reflexivity|].
    repeat split.
Qed.

Lemma C4_power_is_right_associative_witness :
  (exists ev,
     parse "2^-3^2" Evaluator_new = Some (true, ev) /\
     cout ev = [] /\
     symbols ev =
       compile_program 0
         [Binary Pow (Const 2) (Neg (Binary Pow (Const 3) (Const 2)))] /\
     constants ev = [2; 3; 2]%float /\
     understanding ev = Returns ("(2^(-(3^2)));" ++ nl, [])%string /\
     run small_libm ev = Returns (true, [Evaluation 0.001953125])) /\
  (exists ev,
     parse "2^3^2" Evaluator_new = Some (true, ev) /\
     cout ev = [] /\
     symbols ev =
       compile_program 0
         [Binary Pow (Const 2) (Binary Pow (Const 3) (Const 2))] /\
     understanding ev = Returns ("(2^(3^2));" ++ nl, [])%string).
Proof.
  apply (C4_power_is_right_associative small_libm).
  - vm_compute; reflexivity.
  - vm_compute; reflexivity.
Defined.

Lemma name_start c :
  isalpha c || Ascii.eqb c "_" = true ->
  isdigit c = false /\ Ascii.eqb c "(" = false.
Proof.
  destruct c as [[] [] [] [] [] [] [] []]; try discriminate; split; reflexivity.
Qed.

(** The clause of level_top for a name. *)
Lemma level_top_name fuel ev :
  isalpha (cur ev) || at_char "_" ev = true ->
  level_top (S fuel) ev =
  match math_function (fst (get_name ev)) with
  | Some f =>
      guard (level3 fuel (eatspace (snd (get_name ev))))
        (fun ev' => Some (true, push_symbol (mkSymbol MATHFN f) ev'))
  | None => variable_value (fst (get_name ev)) (eatspace (snd (get_name ev)))
  end.
Proof.
  intros H. destruct (name_start _ H) as (Hd & Hp).
  simpl. unfold at_char in *. rewrite Hd, Hp, H.
  destruct (get_name ev); reflexivity.
Qed.

(** C5.  A function name takes one operand, read by level3: on a name of
    the function [f], level_top is level3 on what follows the name (and
    the white space after it), then the symbol of [f].  So [sin cos 2] is
    sin(cos(2)), [sin 2^3] is sin(2^3), and [sin -0], [cos -0] apply the
    function to -0: the results are -0, which is equal to 0, and 1, as
    soon as the library returns them for sin(-0) and cos(-0). *)
Theorem C5_function_takes_one_level3_operand (M : libm) :
  sin M (-0) = (-0)%float -> cos M (-0) = 1%float ->
  (forall fuel ev f,
     isalpha (cur ev) || at_char "_" ev = true ->
     math_function (fst (get_name ev)) = Some f ->
     level_top (S fuel) ev =
     guard (level3 fuel (eatspace (snd (get_name ev))))
       (fun ev' => Some (true, push_symbol (mkSymbol MATHFN f) ev'))) /\
  (exists ev,
     parse "sin cos 2" Evaluator_new = Some (true, ev) /\ cout ev = [] /\
     symbols ev = compile_program 0 [Call Fsin (Call Fcos (Const 2))] /\
     understanding ev = Returns ("sin(cos(2));" ++ nl, [])%string) /\
  (exists ev,
     parse "sin 2^3" Evaluator_new = Some (true, ev) /\ cout ev = [] /\
     symbols ev =
       compile_program 0 [Call Fsin (Binary Pow (Const 2) (Const 3))] /\
     understanding ev = Returns ("sin((2^3));" ++ nl, [])%string) /\
  (exists ev,
     parse "sin -0" Evaluator_new = Some (true, ev) /\ cout ev = [] /\
     symbols ev = compile_program 0 [Call Fsin (Neg (Const 0))] /\
     run M ev = Returns (true, [Evaluation (-0)]) /\
     ((-0) =? 0)%float = true) /\
  (exists ev,
     parse "cos -0" Evaluator_new = Some (true, ev) /\ cout ev = [] /\
     symbols ev = compile_program 0 [Call Fcos (Neg (Const 0))] /\
     run M ev = Returns (true, [Evaluation 1])).
Proof.
  intros Hsin Hcos. split.
  { intros fuel ev f Ha Hf. rewrite (level_top_name _ _ Ha), Hf. reflexivity. }
  split.
  { eexists. split; [vm_compute; reflexivity|]. repeat split. }
  split.
  { eexists. split; [vm_compute; reflexivity|]. repeat split. }
  split.
  { eexists. split; [vm_compute; reflexivity|].
    do 2 (split; [reflexivity|]). split; [|reflexivity].
    exact (f_equal (fun v => Returns (true, [Evaluation v])) Hsin). }
  eexists. split; [vm_compute; reflexivity|].
  do 2 (split; [reflexivity|]).
  exact (f_equal (fun v => Returns (true, [Evaluation v])) Hcos).
Qed.

Lemma C5_function_takes_one_level3_operand_witness :
  sin small_libm (-0) = (-0)%float /\ cos small_libm (-0) = 1%float /\
  (exists ev,
     parse "sin -0" Evaluator_new = Some (true, ev) /\ cout ev = [] /\
     symbols ev = compile_program 0 [Call Fsin (Neg (Const 0))] /\
     run small_libm ev = Returns (true, [Evaluation (-0)]) /\
     ((-0) =? 0)%float = true) /\
  (exists ev,
     parse "cos -0" Evaluator_new = Some (true, ev) /\ cout ev = [] /\
     symbols ev = compile_program 0 [Call Fcos (Neg (Const 0))] /\
     run small_libm ev = Returns (true, [Evaluation 1])).
Proof.
  split; [reflexivity|]. split; [reflexivity|].
  apply (C5_function_takes_one_level3_operand small_libm);
    reflexivity.
Defined.

Lemma math_function_names nm :
  math_function nm <> None <->
  In nm ["sin"; "cos"; "tan"; "log"; "exp"]%string.
Proof.
  unfold math_function. split.
  - intros H.
    destruct (String.eqb nm "cos") eqn:E1;
      [apply String.eqb_eq in E1; subst; simpl; tauto|].
    destruct (String.eqb nm "exp") eqn:E2;
      [apply String.eqb_eq in E2; subst; simpl; tauto|].
    destruct (String.eqb nm "log") eqn:E3;
      [apply String.eqb_eq in E3; subst; simpl; tauto|].
    destruct (String.eqb nm "sin") eqn:E4;
      [apply String.eqb_eq in E4; subst; simpl; tauto|].
    destruct (String.eqb nm "tan") eqn:E5;
      [apply String.eqb_eq in E5; subst; simpl; tauto|].
    congruence.
  - simpl. intros [H|[H|[H|[H|[H|[]]]]]]; subst; discriminate.
Qed.

Lemma find_variable_in_found vars nm v :
  nth_error vars (find_variable_in vars nm) = Some v ->
  name v = nm /\
  forall i w, i < find_variable_in vars nm -> nth_error vars i = Some w ->
    name w <> nm.
Proof.
  induction vars as [|u vs IH]; simpl; [discriminate|].
  destruct (String.eqb (name u) nm) eqn:E; simpl.
  - intros H; inversion H; subst. apply String.eqb_eq in E.
    split; [exact E|]. intros i w Hi; lia.
  - intros H. destruct (IH H) as (Hn & Hf). split; [exact Hn|].
    intros [|i] w Hi Hw; simpl in Hw.
    + inversion Hw; subst. apply String.eqb_neq. exact E.
    + apply (Hf i w); [lia|exact Hw].
Qed.

Lemma find_variable_in_missing vars nm :
  nth_error vars (find_variable_in vars nm) = None ->
  forall v, In v vars -> name v <> nm.
Proof.
  induction vars as [|u vs IH]; simpl; [tauto|].
  destruct (String.eqb (name u) nm) eqn:E; simpl; [discriminate|].
  intros H v [->|Hv]; [apply String.eqb_neq; exact E|auto].
Qed.

(** C6.  On a name, level_top first compares it with the five function
    names: a function name is compiled as a function whatever the
    variables are.  Any other name is looked up in [variables]: the value
    of the first variable of that name is appended as a constant, and when
    there is none level_top reports "unknown name" and returns false.  The
    evaluator starts with the variables [e] and [pi]; on the line [foo],
    [eval] returns false and writes nothing but that report. *)
Theorem C6_names_are_functions_then_variables :
  (forall nm, math_function nm <> None <->
     In nm ["sin"; "cos"; "tan"; "log"; "exp"]%string) /\
  (forall fuel ev,
     isalpha (cur ev) || at_char "_" ev = true ->
     let nm := fst (get_name ev) in
     let ev' := eatspace (snd (get_name ev)) in
     match math_function nm with
     | Some f =>
         level_top (S fuel) ev =
         guard (level3 fuel ev')
           (fun ev'' => Some (true, push_symbol (mkSymbol MATHFN f) ev''))
     | None =>
         match nth_error (variables ev) (find_variable nm ev) with
         | Some v =>
             name v = nm /\
             level_top (S fuel) ev =
             Some (true, push_last_constant (push_constant (var_value v) ev'))
         | None =>
             (forall v, In v (variables ev) -> name v <> nm) /\
             level_top (S fuel) ev =
             Some (false, report ("unknown name: " ++ nm) ev')
         end
     end) /\
  (forall x, exists ev,
     parse "sin 1" (mkEvaluator [] [] [mkVar "sin" x] "" []) =
       Some (true, ev) /\
     symbols ev = compile_program 0 [Call Fsin (Const 1)] /\
     constants ev = [1%float]) /\
  map name (variables Evaluator_new) = ["e"; "pi"]%string /\
  (exists ev,
     parse "e + pi" Evaluator_new = Some (true, ev) /\ cout ev = [] /\
     symbols ev =
       compile_program 0
         [Binary Add (Const 0x1.5bf0a8b145769p+1)
            (Const 0x1.921fb54442d18p+1)] /\
     constants ev = [0x1.5bf0a8b145769p+1; 0x1.921fb54442d18p+1]%float) /\
  (forall M, exists ev,
     eval M "foo" Evaluator_new = Some (Returns (false, ev)) /\
     symbols ev = [] /\
     cout ev =
       [Diagnostic (error "unknown name: foo" (set_line "" Evaluator_new))]).
Proof.
  split; [exact math_function_names|]. split.
  { intros fuel ev Ha nm ev'. rewrite (level_top_name _ _ Ha).
    fold nm. fold ev'. destruct (math_function nm); [reflexivity|].
    unfold variable_value.
    assert (Ev : variables ev' = variables ev).
    { subst ev'. simpl. apply get_name_frame. }
    unfold find_variable. rewrite Ev.
    destruct (nth_error _ _) as [v|] eqn:E.
    - split; [|reflexivity]. apply (find_variable_in_found _ _ _ E).
    - split; [|reflexivity]. apply find_variable_in_missing; exact E. }
  split.
  { intros x. eexists. split; [vm_compute; reflexivity|]. split; reflexivity. }
  split; [reflexivity|]. split.
  { eexists. split; [vm_compute; reflexivity|]. repeat split. }
  intros M. eexists. split; [vm_compute; reflexivity|]. split; reflexivity.
Qed.

(** C7.  The statements of a line are compiled into one program, each
    followed by the symbol [;], and [run] reports one result per [;], in
    the order of the line: [2+2;3*3] gives 4, then 9.  In general, when
    [parse] returns true and has reported nothing, the program is the code
    of a list of statements, each closed by [;], and [run] reports the
    value of each, in order. *)
Theorem C7_one_result_per_statement (M : libm) :
  (exists ev,
     parse "2+2;3*3" Evaluator_new = Some (true, ev) /\ cout ev = [] /\
     symbols ev =
       [mkSymbol CONSTANT 0; mkSymbol CONSTANT 1; operator "+"; operator ";";
        mkSymbol CONSTANT 2; mkSymbol CONSTANT 3; operator "*"; operator ";"] /\
     symbols ev =
       compile_program 0
         [Binary Add (Const 2) (Const 2); Binary Mul (Const 3) (Const 3)] /\
     constants ev = [2; 2; 3; 3]%float /\
     run M ev = Returns (true, [Evaluation 4; Evaluation 9])) /\
  (exists ev,
     eval M "2+2;3*3" Evaluator_new = Some (Returns (true, ev)) /\
     cout ev =
       [Line "Understanding:"; Line ("(2+2);" ++ nl ++ "(3*3);" ++ nl);
        Evaluation 4; Evaluation 9]) /\
  (forall str ev0 ev1,
     cleared ev0 -> (N.of_nat (String.length str) < 2 ^ 32)%N ->
     parse str ev0 = Some (true, ev1) -> cout ev1 = cout ev0 ->
     exists es,
       symbols ev1 = compile_program 0 es /\
       run M ev1 = Returns (true, map (fun e => Evaluation (number M e)) es)).
Proof.
  split.
  { eexists. split; [vm_compute; reflexivity|]. repeat split. }
  split.
  { eexists. split; [vm_compute; reflexivity|]. reflexivity. }
  intros str ev0 ev1 C Hlen H E.
  destruct (clean_parse_replays M _ _ _ C Hlen H E) as (es & Es & _ & Hr).
  exists es. auto.
Qed.

(** C8.  [parse] returns, and every symbol it has appended is a CONSTANT,
    a MATHFN with one of the five function ids, or an OPERATOR with one of
    the seven operator characters: never an ASSIGN. *)
Theorem C8_parser_symbols_are_well_formed (str : string) (ev : Evaluator) :
  exists b ev' code,
    parse str ev = Some (b, ev') /\
    symbols ev' = symbols ev ++ code /\
    Forall well_formed code /\
    Forall (fun s => type s <> ASSIGN) code.
Proof.
  destruct (parse_terminates str ev) as (b & ev' & H).
  destruct (levels_append_symbols (fuel_of str)) as (_ & A).
  destruct (A _ _ _ H) as (code & E & W).
  exists b, ev', code. repeat split; auto.
  eapply Forall_impl; [|exact W].
  intros s Hs Ha. unfold well_formed in Hs. rewrite Ha in Hs. exact Hs.
Qed.

(** C9.  On a line of white space only, empty or not, in a cleared
    evaluator: [parse] returns true and leaves the program empty, and
    [eval] returns true after writing the heading and an empty
    reconstruction: no result, no report. *)
Theorem C9_blank_line_is_accepted (M : libm) (str : string) (ev0 : Evaluator) :
  cleared ev0 ->
  forallb isspace (list_ascii_of_string str) = true ->
  parse str ev0 = Some (true, set_line "" ev0) /\
  exists ev,
    eval M str ev0 = Some (Returns (true, ev)) /\
    symbols ev = [] /\
    cout ev = cout ev0 ++ [Line "Understanding:"; Line ""].
Proof.
  intros (Ec & Es) Hb.
  assert (Hp : parse str ev0 = Some (true, set_line "" ev0)).
  { unfold parse, eatspace, fuel_of. simpl line.
    rewrite (skip_space_blank _ Hb).
    replace (5 * String.length str + 7) with (S (5 * String.length str + 6))
      by lia.
    reflexivity. }
  split; [exact Hp|].
  unfold eval. rewrite Hp. unfold understanding, run. simpl.
  rewrite Es. simpl.
  eexists. split; [reflexivity|]. simpl.
  rewrite Es, !app_nil_r, <- !app_assoc. auto.
Qed.

Lemma C9_blank_line_is_accepted_witness :
  parse "  " Evaluator_new = Some (true, set_line "" Evaluator_new) /\
  exists ev,
    eval small_libm "  " Evaluator_new = Some (Returns (true, ev)) /\
    symbols ev = [] /\
    cout ev = cout Evaluator_new ++ [Line "Understanding:"; Line ""].
Proof.
  apply (C9_blank_line_is_accepted small_libm "  " Evaluator_new).
  - split; reflexivity.
  - reflexivity.
Defined.

(** C10.  A division by zero is no error.  The step of [run] for [/]
    pushes a / b whatever b is; on [1/0], [eval] returns true and the
    result reported is 1/0, that is infinity; and for every line that
    [parse] accepts without a report, [run] returns true with one result
    per statement, whatever the values are. *)
Theorem C10_division_by_zero_is_no_error (M : libm) :
  (forall consts rest a b s out,
     run_loop M consts (operator "/" :: rest) (b :: a :: s) out =
     run_loop M consts rest ((a / b)%float :: s) out) /\
  (exists ev,
     parse "1/0" Evaluator_new = Some (true, ev) /\ cout ev = [] /\
     run M ev = Returns (true, [Evaluation infinity])) /\
  (exists ev,
     eval M "1/0" Evaluator_new = Some (Returns (true, ev)) /\
     cout ev =
       [Line "Understanding:"; Line ("(1/0);" ++ nl); Evaluation infinity]) /\
  (forall str ev0 ev1,
     cleared ev0 -> (N.of_nat (String.length str) < 2 ^ 32)%N ->
     parse str ev0 = Some (true, ev1) -> cout ev1 = cout ev0 ->
     exists results, run M ev1 = Returns (true, map Evaluation results)).
Proof.
  split; [reflexivity|]. split.
  { eexists. split; [vm_compute; reflexivity|]. split; reflexivity. }
  split.
  { eexists. split; [vm_compute; reflexivity|]. reflexivity. }
  intros str ev0 ev1 C Hlen H E.
  destruct (clean_parse_replays M _ _ _ C Hlen H E) as (es & _ & _ & Hr).
  exists (map (number M) es). rewrite Hr, map_map. reflexivity.
Qed.

(** * Further properties *)

(** ** The grammar: precedence and associativity

    Every expression, written with the parentheses its operators need and
    no other, is read by the parser as that expression: [+ -] bind less
    than [* /], these less than the unary minus, and that less than [^]
    and the application of a function; [+ - * /] associate to the left,
    [^] to the right. *)

Lemma unspaced_app s t : unspaced s -> unspaced (s ++ t).
Proof. intros (c & r & -> & H). exists c, (r ++ t)%string. auto. Qed.

Lemma plain_app s t : plain s -> plain (s ++ t).
Proof. intros (c & r & -> & H). exists c, (r ++ t)%string. auto. Qed.


Lemma unspaced_not_end s t ev :
  unspaced s -> line ev = (s ++ t)%string -> at_end ev = false.
Proof.
  intros (c & r & -> & _ & Hz) L. unfold at_end.
  simpl in L. rewrite (at_char_at _ _ _ _ L). exact Hz.
Qed.

Lemma digit_not_end d : isdigit d = true -> Ascii.eqb d Ascii.zero = false.
Proof.
  destruct d as [[] [] [] [] [] [] [] []]; try discriminate; reflexivity.
Qed.

Lemma bracket_open l e t :
  level_of e < l -> bracket l e t = String "(" (t ++ ")").
Proof.
  intros H. unfold bracket.
  destruct (Nat.leb_spec l (level_of e)); [lia|reflexivity].
Qed.





(** From one level to the next. *)







(** The clauses of the levels. *)








Lemma fits_left ev op a b :
  fits ev (List.length (leaves (Binary op a b))) ->
  fits ev (List.length (leaves a)).
Proof.
  simpl. rewrite length_app. intros F. eapply fits_less; [exact F|lia].
Qed.




(** What a level reads, the levels below it read. *)













(** ** The two interpreters go in step

    [understanding] and [run] replay the program with the same pushes and
    pops: on every program, well formed or not, they reach the same
    undefined behaviour, or stop at the same symbol, or both reach the
    end. *)

Lemma statement_text_not_unknown p : (p ++ ";" ++ nl)%string <> "????".
Proof.
  destruct p as [|a [|b [|c [|d [|e p]]]]]; simpl; intros H; discriminate H.
Qed.

Lemma function_chains_agree M f b :
  match function_name f, apply_function M f b with
  | Some _, Some _ | None, None => True
  | _, _ => False
  end.
Proof.
  unfold function_name, apply_function.
  repeat match goal with
         | |- context [(f =? ?c)%N] => destruct (f =? c)%N; [exact I|]
         end.
  exact I.
Qed.

Lemma loops_in_step M consts syms : forall s1 s2 expr out,
  List.length s1 = List.length s2 ->
  match understanding_loop consts syms s1 expr,
        run_loop M consts syms s2 out with
  | Undefined u, Undefined u' => u = u'
  | Returns (text, w), Returns (true, out') =>
      w = [] /\
      (exists t, text = (expr ++ t)%string /\
         (t = "" \/ exists p, t = (p ++ ";" ++ nl)%string)) /\
      exists vals, out' = out ++ map Evaluation vals /\
        List.length vals = List.length (filter closes_statement syms)
  | Returns (text, w), Returns (false, out') =>
      text = "????" /\
      exists vals last, out' = out ++ map Evaluation vals ++ [last] /\
        complaint last /\
        (w = [Line "unfinished"] /\ last = Line "unfinished" \/
         w = [] /\ last <> Line "unfinished")
  | _, _ => False
  end.
Proof.
  induction syms as [|sym rest IH]; intros s1 s2 expr out Hs.
  - destruct s1, s2; try discriminate Hs; simpl.
    + split; [reflexivity|]. split.
      * exists "". rewrite string_app_nil_r. auto.
      * exists []. simpl. rewrite app_nil_r. auto.
    + split; [reflexivity|]. exists [], (Line "unfinished").
      simpl. repeat split; auto.
  - cbn [understanding_loop run_loop filter]. unfold closes_statement at 1.
    destruct (type sym) eqn:Et.
    + (* ASSIGN *) apply IH; exact Hs.
    + (* CONSTANT *)
      destruct (nth_error consts (N.to_nat (value sym))); [|reflexivity].
      apply IH. simpl. congruence.
    + (* MATHFN *)
      destruct s1 as [|b1 s1], s2 as [|b2 s2]; try discriminate Hs;
        [reflexivity|].
      pose proof (function_chains_agree M (value sym) b2) as Hf.
      destruct (function_name (value sym)),
               (apply_function M (value sym) b2); try contradiction.
      * apply IH. exact Hs.
      * split; [reflexivity|]. exists [], (Line "unknown math function").
        simpl. repeat split; auto. right. split; [reflexivity|discriminate].
    + (* OPERATOR *)
      destruct s1 as [|b1 s1], s2 as [|b2 s2]; try discriminate Hs;
        [reflexivity|].
      simpl in Hs. injection Hs as Hs.
      destruct (value sym =? ch ";")%N eqn:E1.
      { specialize (IH s1 s2 (expr ++ b1 ++ ";" ++ nl)%string
                      (out ++ [Evaluation b2]) Hs).
        destruct (understanding_loop consts rest s1 _) as [(text, w)|u],
                 (run_loop M consts rest s2 _) as [([|], out')|u'];
          try exact IH.
        - destruct IH as (Hw & (t & Ht & Hc) & (vals & Ho & Hl)).
          split; [exact Hw|]. split.
          + exists ((b1 ++ ";" ++ nl) ++ t)%string. split.
            * rewrite Ht, !string_app_assoc. reflexivity.
            * right. destruct Hc as [->|(p & ->)].
              -- exists b1. rewrite string_app_nil_r. reflexivity.
              -- exists ((b1 ++ ";" ++ nl) ++ p)%string.
                 rewrite !string_app_assoc. reflexivity.
          + exists (b2 :: vals). simpl. rewrite Ho, <- app_assoc.
            split; [reflexivity|]. simpl. congruence.
        - destruct IH as (Ht & vals & last & Ho & Hc).
          split; [exact Ht|]. exists (b2 :: vals), last.
          rewrite Ho, <- app_assoc. split; [reflexivity|exact Hc]. }
      destruct (value sym =? ch "n")%N eqn:E2;
        [apply IH; simpl; congruence|].
      destruct s1 as [|a1 s1], s2 as [|a2 s2]; try discriminate Hs;
        [reflexivity|].
      simpl in Hs. injection Hs as Hs.
      unfold apply_binary.
      repeat match goal with
             | |- context [(value sym =? ch ?c)%N] =>
                 destruct (value sym =? ch c)%N;
                   [apply IH; simpl; congruence|]
             end.
      split; [reflexivity|]. exists [], (UnknownOperator (value sym)).
      simpl. repeat split; auto. right. split; [reflexivity|discriminate].
Qed.

Lemma interpreters_agree_on_undefined M ev :
  match run M ev with
  | Undefined u => understanding ev = Undefined u
  | Returns _ => True
  end.
Proof.
  unfold understanding, run.
  pose proof (loops_in_step M (constants ev) (symbols ev) [] [] "" []
                eq_refl) as H.
  destruct (run_loop M _ _ _ _) as [r|u]; [exact I|].
  destruct (understanding_loop _ _ _ _) as [(text, w)|u'];
    [contradiction|congruence].
Qed.

(** X2.  [understanding] and [run] go in step on every program, whatever
    its symbols and constants are.  Either both take [back()] of an empty
    vector or both read [constants] out of range; or both reach the end of
    the program with an empty stack: then [run] returns true and has
    written one result per [;] of the program and nothing else, and
    [understanding] has written nothing and returns a text other than
    [????]; or [run] returns false and [understanding] returns [????]: then
    one has written "unfinished" exactly when the other has. *)
Theorem interpreters_go_in_step (M : libm) (ev : Evaluator) :
  match understanding ev, run M ev with
  | Undefined u, Undefined u' => u = u'
  | Returns (text, w), Returns (b, out) =>
      (b = true ->
       text <> "????" /\ w = [] /\
       exists vals, out = map Evaluation vals /\
         List.length vals =
         List.length (filter closes_statement (symbols ev))) /\
      (b = false ->
       text = "????" /\
       (In (Line "unfinished") w <-> In (Line "unfinished") out))
  | _, _ => False
  end.
Proof.
  unfold understanding, run.
  pose proof (loops_in_step M (constants ev) (symbols ev) [] [] "" []
                eq_refl) as H.
  destruct (understanding_loop _ _ _ _) as [(text, w)|u],
           (run_loop M _ _ _ _) as [([|], out)|u']; try exact H.
  - destruct H as (Hw & (t & Ht & Hc) & (vals & Ho & Hl)).
    split; [intros _|discriminate]. split; [|split; [exact Hw|]].
    + rewrite Ht. simpl. destruct Hc as [->|(p & ->)]; [discriminate|].
      apply statement_text_not_unknown.
    + exists vals. auto.
  - destruct H as (Ht & vals & last & Ho & Hc & Hw).
    split; [discriminate|intros _]. split; [exact Ht|].
    simpl in Ho. subst out.
    destruct Hw as [(-> & ->)|(-> & Hn)].
    + split; intros _; [apply in_or_app; right|]; simpl; auto.
    + split; [intros []|]. intros Hin. apply in_app_or in Hin.
      destruct Hin as [Hin|[Hin|[]]].
      * apply in_map_iff in Hin. destruct Hin as (v & Hv & _). discriminate.
      * congruence.
Qed.

(** ** The indices of the constants

    A CONSTANT symbol is pushed right after its constant, with the index
    [constants.size() - 1]: whatever the line is, the symbols [parse]
    appends are indices of constants that exist. *)

Lemma indexed_more consts cs syms :
  indexed consts syms -> indexed (consts ++ cs) syms.
Proof.
  unfold indexed. intros H. eapply Forall_impl; [|exact H].
  intros s Hs Hc. specialize (Hs Hc). rewrite length_app. lia.
Qed.

Lemma indexed_last consts x :
  indexed (consts ++ [x])
    [mkSymbol CONSTANT
       (to_uint (N.of_nat (List.length (consts ++ [x])) - 1))].
Proof.
  constructor; [|constructor]. intros _. simpl value.
  rewrite length_app. simpl. unfold to_uint.
  pose proof (N.Div0.mod_le (N.of_nat (List.length consts + 1) - 1)
                (2 ^ 32)) as H.
  lia.
Qed.

Lemma levels_keep_indices fuel :
  all_levels (respects keeps_indices) fuel /\
  respects keeps_indices (parse_loop fuel).
Proof.
  assert (K : forall a b, constants b = constants a ->
              symbols b = symbols a -> keeps_indices a true b).
  { intros a b Ec Es. split; [exists []|exists []]; rewrite app_nil_r; auto.
    split; [exact Es|constructor]. }
  assert (P : forall ev s, type s <> CONSTANT ->
              keeps_indices ev true (push_symbol s ev)).
  { intros ev s Hs. split; [exists []; rewrite app_nil_r; reflexivity|].
    exists [s]. split; [reflexivity|].
    constructor; [contradiction|constructor]. }
  assert (C : forall ev ev1 x, constants ev1 = constants ev ++ [x] ->
              symbols ev1 = symbols ev ->
              keeps_indices ev true (push_last_constant ev1)).
  { intros ev ev1 x Ec Es. split; [exists [x]; exact Ec|].
    eexists. split; [simpl; rewrite Es; reflexivity|].
    simpl constants. rewrite Ec. apply indexed_last. }
  assert (E : forall ev m r, keeps_indices ev r (report m ev)).
  { intros ev m r. split; [exists []|exists []]; rewrite app_nil_r; auto.
    split; [reflexivity|constructor]. }
  split; [apply levels_respect|apply parse_loop_respects]; intros.
  all: try (apply E).
  all: try (apply P; discriminate).
  all: try match goal with
       | H1 : keeps_indices ?a true ?b, H2 : keeps_indices ?b _ ?c |- _ =>
           destruct H1 as ((c1 & E1) & (l1 & S1 & I1));
           destruct H2 as ((c2 & E2) & (l2 & S2 & I2));
           split; [exists (c1 ++ c2); rewrite E2, E1, app_assoc; reflexivity|];
           exists (l1 ++ l2); rewrite S2, S1, app_assoc;
           split; [reflexivity|]; apply Forall_app; split; [|exact I2];
           rewrite E2; apply indexed_more; exact I1
       end.
  all: try (apply K; first [ reflexivity | apply nextch_frame
                           | simpl; apply get_name_frame ]).
  all: eapply C; simpl;
         [ f_equal; first [apply get_double_frame | apply get_name_frame]
         | first [apply get_double_frame | apply get_name_frame] ].
Qed.

Lemma run_loop_indexed M consts syms : forall s out,
  indexed consts syms -> run_loop M consts syms s out <> Undefined BadIndex.
Proof.
  induction syms as [|sym rest IH]; intros s out I.
  - destruct s; discriminate.
  - inversion I as [|? ? Hs Hr]; subst. simpl.
    destruct (type sym) eqn:Et; auto.
    + destruct (nth_error consts (N.to_nat (value sym))) eqn:En; auto.
      apply nth_error_None in En. specialize (Hs eq_refl). lia.
    + destruct s; [discriminate|].
      destruct (apply_function M (value sym) f); auto. discriminate.
    + destruct s as [|b s]; [discriminate|].
      destruct (value sym =? 59)%N; auto.
      destruct (value sym =? 110)%N; auto.
      destruct s as [|a s]; [discriminate|].
      destruct (apply_binary M (value sym) a b); auto. discriminate.
Qed.

Lemma understanding_loop_indexed consts syms : forall s expr,
  indexed consts syms ->
  understanding_loop consts syms s expr <> Undefined BadIndex.
Proof.
  induction syms as [|sym rest IH]; intros s expr I.
  - destruct s; discriminate.
  - inversion I as [|? ? Hs Hr]; subst. simpl.
    destruct (type sym) eqn:Et; auto.
    + destruct (nth_error consts (N.to_nat (value sym))) eqn:En; auto.
      apply nth_error_None in En. specialize (Hs eq_refl). lia.
    + destruct s; [discriminate|].
      destruct (function_name (value sym)); auto. discriminate.
    + destruct s as [|b s]; [discriminate|].
      destruct (value sym =? 59)%N; auto.
      destruct (value sym =? 110)%N; auto.
      destruct s as [|a s]; [discriminate|].
      repeat match goal with
             | |- context [(value sym =? ?c)%N] =>
                 destruct (value sym =? c)%N; auto
             end.
      discriminate.
Qed.

(** X3.  The indices of the constants are valid.  If every CONSTANT
    symbol of the evaluator is the index of one of its constants (as in a
    new or a cleared evaluator, which has no symbol), the same holds after
    [parse], whatever the line is and whatever [parse] returns; and then
    neither [understanding] nor [run] reads [constants] out of range. *)
Theorem parse_keeps_the_indices_valid (M : libm) (str : string)
    (ev ev' : Evaluator) (b : bool) :
  indexed (constants ev) (symbols ev) ->
  parse str ev = Some (b, ev') ->
  indexed (constants ev') (symbols ev') /\
  understanding ev' <> Undefined BadIndex /\
  run M ev' <> Undefined BadIndex.
Proof.
  intros I H. unfold parse in H.
  destruct (levels_keep_indices (fuel_of str)) as (_ & K).
  destruct (K _ _ _ H) as ((cs & Ec) & (code & Es & Ic)).
  simpl in Ec, Es.
  assert (I' : indexed (constants ev') (symbols ev')).
  { rewrite Es. apply Forall_app. split; [|exact Ic].
    rewrite Ec. apply indexed_more; exact I. }
  split; [exact I'|]. split.
  - apply understanding_loop_indexed; exact I'.
  - apply run_loop_indexed; exact I'.
Qed.

Lemma parse_keeps_the_indices_valid_witness :
  indexed [1%float] [mkSymbol CONSTANT 0; operator "+"; operator ";"] /\
  understanding
    (mkEvaluator [1%float]
       [mkSymbol CONSTANT 0; operator "+"; operator ";"]
       (variables Evaluator_new) ""
       [Diagnostic (error "unexpected end of input"
                      (set_line "" Evaluator_new))]) <> Undefined BadIndex /\
  run small_libm
    (mkEvaluator [1%float]
       [mkSymbol CONSTANT 0; operator "+"; operator ";"]
       (variables Evaluator_new) ""
       [Diagnostic (error "unexpected end of input"
                      (set_line "" Evaluator_new))]) <> Undefined BadIndex.
Proof.
  apply (parse_keeps_the_indices_valid small_libm "1+" Evaluator_new
           (mkEvaluator [1%float]
              [mkSymbol CONSTANT 0; operator "+"; operator ";"]
              (variables Evaluator_new) ""
              [Diagnostic (error "unexpected end of input"
                             (set_line "" Evaluator_new))]) true).
  - constructor.
  - vm_compute. reflexivity.
Defined.

(** ** What [eval] does with what [parse] returns *)

Lemma cleared_indexed ev : cleared ev -> indexed (constants ev) (symbols ev).
Proof. intros (_ & ->). constructor. Qed.

(** X4.  [eval] on a line shorter than 2^32 characters, in a cleared
    evaluator.  [parse] returns, having written reports [d] only.  When it
    returns false there is a report, and [eval] returns false with nothing
    else written.  When it returns true without a report, [eval] returns
    true and has written "Understanding:", the reconstruction of the
    statements [es] of the line and the value of each, in this order.
    Otherwise every report is "unexpected end of input".  Only then can
    [eval] reach undefined behaviour, and it is [back()] of an empty
    vector, never an index out of range. *)
Theorem eval_follows_parse (M : libm) (str : string) (ev : Evaluator) :
  cleared ev -> (N.of_nat (String.length str) < 2 ^ 32)%N ->
  exists b ev1 d,
    parse str ev = Some (b, ev1) /\ cout ev1 = cout ev ++ d /\
    Forall report_item d /\
    (b = false ->
     d <> [] /\ eval M str ev = Some (Returns (false, ev1))) /\
    (b = true -> d = [] ->
     exists es ev2,
       eval M str ev = Some (Returns (true, ev2)) /\
       symbols ev2 = compile_program 0 es /\
       cout ev2 =
         cout ev ++
         Line "Understanding:" :: Line (show_program es) ::
         map (fun e => Evaluation (number M e)) es) /\
    (b = true -> Forall end_report d) /\
    (forall u, eval M str ev = Some (Undefined u) ->
       u = EmptyBack /\ b = true /\ d <> []).
Proof.
  intros C Hlen.
  destruct (parse_terminates str ev) as (b & ev1 & H).
  pose proof H as Hp. unfold parse in Hp.
  destruct (levels_diagnose (fuel_of str)) as (_ & D).
  destruct (D _ _ _ Hp) as (d & Ed & Rd & Fd & Td). simpl in Ed.
  assert (Clean : b = true -> d = [] ->
            exists es ev2,
              eval M str ev = Some (Returns (true, ev2)) /\
              symbols ev2 = compile_program 0 es /\
              cout ev2 =
                cout ev ++
                Line "Understanding:" :: Line (show_program es) ::
                map (fun e => Evaluation (number M e)) es).
  { intros -> ->. rewrite app_nil_r in Ed.
    destruct (clean_parse_replays M _ _ _ C Hlen H Ed) as (es & Es & Eu & Er).
    exists es. unfold eval. rewrite H.
    change (understanding (print (Line "Understanding:") ev1))
      with (understanding ev1).
    rewrite Eu.
    change (run M (print (Line (show_program es))
                     (write [] (print (Line "Understanding:") ev1))))
      with (run M ev1).
    rewrite Er. eexists. split; [reflexivity|]. split; [exact Es|].
    simpl. rewrite Ed, app_nil_r, <- !app_assoc. reflexivity. }
  exists b, ev1, d. split; [exact H|]. split; [exact Ed|].
  split; [exact Rd|]. split; [|split; [exact Clean|split; [exact Td|]]].
  - intros ->. split; [auto|]. unfold eval. rewrite H. reflexivity.
  - intros u Hu.
    assert (Hb : b = true).
    { destruct b; [reflexivity|]. unfold eval in Hu. rewrite H in Hu.
      discriminate. }
    assert (Hd : d <> []).
    { intros E. destruct (Clean Hb E) as (es & ev2 & Hr & _).
      rewrite Hr in Hu. discriminate. }
    split; [|auto]. subst b.
    destruct (levels_keep_indices (fuel_of str)) as (_ & K).
    destruct (K _ _ _ Hp) as ((cs & Ec) & (code & Es & Ic)).
    simpl in Ec, Es. destruct C as (C1 & C2). rewrite C2 in Es.
    simpl in Es. rewrite <- Es in Ic.
    destruct u; [reflexivity|exfalso].
    unfold eval in Hu. rewrite H in Hu.
    destruct (understanding (print (Line "Understanding:") ev1))
      as [(text, written)|u] eqn:Eu.
    + destruct (run M (print (Line text)
                         (write written (print (Line "Understanding:") ev1))))
        as [(b', w')|u] eqn:Er; [discriminate|].
      injection Hu as ->.
      revert Er. apply run_loop_indexed. exact Ic.
    + injection Hu as ->.
      revert Eu. apply understanding_loop_indexed. exact Ic.
Qed.

Lemma eval_follows_parse_witness :
  exists b ev1 d,
    parse "2+2;3*3" Evaluator_new = Some (b, ev1) /\
    cout ev1 = cout Evaluator_new ++ d /\
    Forall report_item d /\
    (b = false ->
     d <> [] /\
     eval small_libm "2+2;3*3" Evaluator_new = Some (Returns (false, ev1))) /\
    (b = true -> d = [] ->
     exists es ev2,
       eval small_libm "2+2;3*3" Evaluator_new = Some (Returns (true, ev2)) /\
       symbols ev2 = compile_program 0 es /\
       cout ev2 =
         cout Evaluator_new ++
         Line "Understanding:" :: Line (show_program es) ::
         map (fun e => Evaluation (number small_libm e)) es) /\
    (b = true -> Forall end_report d) /\
    (forall u,
       eval small_libm "2+2;3*3" Evaluator_new = Some (Undefined u) ->
       u = EmptyBack /\ b = true /\ d <> []).
Proof.
  apply (eval_follows_parse small_libm "2+2;3*3" Evaluator_new).
  - split; reflexivity.
  - vm_compute. reflexivity.
Defined.

(** ** How [parse] ends *)

Lemma guard_false (r : parsed) (k : Evaluator -> parsed) ev' :
  guard r k = Some (false, ev') ->
  r = Some (false, ev') \/
  exists ev1, r = Some (true, ev1) /\ k ev1 = Some (false, ev').
Proof.
  destruct r as [[[] ev1]|]; simpl; intros H; try discriminate; eauto.
Qed.

Lemma levels_fail_on_report fuel :
  all_levels fails_on_report fuel /\ fails_on_report (parse_loop fuel).
Proof.
  assert (G : forall r k,
            (forall ev', r = Some (false, ev') ->
               exists m ev1, failure m /\ ev' = report m ev1) ->
            fails_on_report k ->
            forall ev', guard r k = Some (false, ev') ->
              exists m ev1, failure m /\ ev' = report m ev1).
  { intros r k Hr Hk ev' H. apply guard_false in H.
    destruct H as [H|(ev1 & _ & H)]; eauto. }
  assert (F1 : failure "expected ')'") by (left; reflexivity).
  assert (F2 : failure "unexpected character") by (right; left; reflexivity).
  assert (F3 : failure "expected ';' or end of input")
    by (right; right; left; reflexivity).
  induction fuel as [|fuel (IH & IHp)].
  { repeat split; intros ev ev' H; discriminate H. }
  destruct IH as (I1 & I1l & I2 & I2l & I3 & I4 & I4l & It).
  assert (H4l : fails_on_report (level4_loop (S fuel))).
  { intros ev ev'. simpl. destruct (at_char "^" ev); [|discriminate].
    apply G; [apply I3|]. intros e e'. apply I4l. }
  assert (H2l : fails_on_report (level2_loop (S fuel))).
  { intros ev ev'. simpl.
    destruct (at_char "*" ev || at_char "/" ev); [|discriminate].
    apply G; [apply I3|]. intros e e'. apply I2l. }
  assert (H1l : fails_on_report (level1_loop (S fuel))).
  { intros ev ev'. simpl.
    destruct (at_char "+" ev || at_char "-" ev); [|discriminate].
    apply G; [apply I2|]. intros e e'. apply I1l. }
  assert (Ht : fails_on_report (level_top (S fuel))).
  { intros ev ev'. simpl.
    destruct (isdigit (cur ev)).
    { destruct (get_double ev); discriminate. }
    destruct (at_char "(" ev).
    { apply G; [apply I1|]. intros e e'.
      destruct (negb (at_char ")" e)); [|discriminate].
      intros H. injection H as <-. eauto. }
    destruct (isalpha (cur ev) || at_char "_" ev).
    { destruct (get_name ev) as (nm, ev1).
      destruct (math_function nm).
      - apply G; [apply I3|]. intros e e'. discriminate.
      - unfold variable_value.
        destruct (nth_error _ _); [discriminate|].
        intros H. injection H as <-.
        exists ("unknown name: " ++ nm)%string. eexists. split; [|reflexivity].
        right; right; right. eauto. }
    destruct (at_end ev); [discriminate|].
    intros H. injection H as <-. eauto. }
  assert (Hp : fails_on_report (parse_loop (S fuel))).
  { intros ev ev'. simpl. destruct (at_end ev); [discriminate|].
    apply G; [apply I1|]. intros e e'.
    destruct (negb (at_char ";" e) && negb (at_end e)).
    - intros H. injection H as <-. eauto.
    - apply IHp. }
  split; [|exact Hp].
  repeat split; auto.
  - intros ev ev'. simpl. apply G; [apply I2|exact I1l].
  - intros ev ev'. simpl. apply G; [apply I3|exact I2l].
  - intros ev ev'. simpl. destruct (at_char "-" ev); [|apply I4].
    apply G; [apply I3|]. intros e e'. discriminate.
  - intros ev ev'. simpl. apply G; [apply It|exact I4l].
Qed.

Lemma parse_loop_ends fuel : forall ev ev',
  parse_loop fuel ev = Some (true, ev') -> at_end ev' = true.
Proof.
  induction fuel as [|fuel IH]; intros ev ev' H; [discriminate|].
  simpl in H. destruct (at_end ev) eqn:E.
  - injection H as <-. exact E.
  - apply guard_true in H. destruct H as (ev1 & _ & H).
    destruct (negb (at_char ";" ev1) && negb (at_end ev1)); [discriminate|].
    eapply IH; exact H.
Qed.

(** X5.  How [parse] ends, on every line and in every state.  It returns.
    When it returns true, the whole line has been read: [line[pos]] is the
    terminating NUL.  When it returns false, the last thing it has done is
    to write a report, which is one of "expected ')'", "unexpected
    character", "expected ';' or end of input" and "unknown name: " with
    the name: the state it leaves is the state in which the report was
    written, so that the text of the report starts where the parser
    stopped. *)
Theorem parse_ends_at_the_end_or_on_a_report (str : string) (ev : Evaluator) :
  match parse str ev with
  | Some (true, ev') => at_end ev' = true
  | Some (false, ev') =>
      exists m ev1, failure m /\ ev' = report m ev1 /\
        last (cout ev') (Line "") = Diagnostic (error m ev')
  | None => False
  end.
Proof.
  destruct (parse_terminates str ev) as (b & ev' & H). rewrite H.
  unfold parse in H. destruct b.
  - eapply parse_loop_ends; exact H.
  - destruct (levels_fail_on_report (fuel_of str)) as (_ & F).
    destruct (F _ _ H) as (m & ev1 & Fm & ->).
    exists m, ev1. split; [exact Fm|]. split; [reflexivity|].
    simpl. apply last_last.
Qed.

(** ** The lexer *)

Lemma skip_space_spec s :
  exists ws, s = (ws ++ skip_space s)%string /\
    forallb isspace (list_ascii_of_string ws) = true /\
    match skip_space s with
    | String c _ => isspace c = false
    | EmptyString => True
    end.
Proof.
  induction s as [|c s (ws & E & W & N)].
  - exists "". repeat split.
  - simpl. destruct (isspace c) eqn:Ec.
    + exists (String c ws). simpl. rewrite Ec, W, <- E. auto.
    + exists "". simpl. rewrite Ec. auto.
Qed.

(** X6.  eatspace and nextch.  eatspace moves [pos] over white space and
    nothing else, up to the first character that is not white space (the
    terminating NUL is not), and changes nothing else; it does nothing
    when called again.  nextch is [pos ++] followed by eatspace: after it,
    [line[pos]] is the first character after the current one that is not
    white space. *)
Theorem eatspace_skips_white_space_only (ev : Evaluator) :
  (exists ws,
     line ev = (ws ++ line (eatspace ev))%string /\
     forallb isspace (list_ascii_of_string ws) = true) /\
  isspace (cur (eatspace ev)) = false /\
  same ev (eatspace ev) /\
  eatspace (eatspace ev) = eatspace ev /\
  (exists ws,
     line (advance ev) = (ws ++ line (nextch ev))%string /\
     forallb isspace (list_ascii_of_string ws) = true) /\
  isspace (cur (nextch ev)) = false.
Proof.
  assert (C : forall s, isspace (cur (set_line (skip_space s) ev)) = false).
  { intros s. destruct (skip_space_spec s) as (ws & _ & _ & N).
    unfold cur. simpl. destruct (skip_space s); [reflexivity|exact N]. }
  assert (I : forall s, skip_space (skip_space s) = skip_space s).
  { intros s. destruct (skip_space_spec s) as (ws & _ & _ & N).
    destruct (skip_space s) as [|c r]; [reflexivity|].
    simpl. rewrite N. reflexivity. }
  split; [|split; [|split; [|split; [|split]]]].
  - destruct (skip_space_spec (line ev)) as (ws & E & W & _).
    exists ws. auto.
  - apply C.
  - repeat split.
  - unfold eatspace. simpl. rewrite I. reflexivity.
  - destruct (skip_space_spec (line (advance ev))) as (ws & E & W & _).
    exists ws. auto.
  - unfold nextch, eatspace, cur. simpl.
    destruct (skip_space_spec (line (advance ev))) as (ws & _ & _ & N).
    destruct (skip_space (line (advance ev))); [reflexivity|exact N].
Qed.

Lemma span_name_spec s :
  s = (fst (span_name s) ++ snd (span_name s))%string /\
  forallb isname (list_ascii_of_string (fst (span_name s))) = true /\
  match snd (span_name s) with
  | String c _ => isname c = false
  | EmptyString => True
  end.
Proof.
  induction s as [|c s (E & W & N)]; [repeat split|].
  simpl. destruct (isname c) eqn:Ec.
  - destruct (span_name s) as (n, r). simpl in *.
    rewrite Ec, W, <- E. auto.
  - simpl. rewrite Ec. auto.
Qed.

(** X7.  get_name, called where the line has a character left, takes that
    character and the longest run of name characters (letters, digits and
    underscores) after it: the name and the rest of the line make up the
    line, and the rest does not start with a name character.  Nothing
    else changes. *)
Theorem get_name_takes_the_longest_name (ev : Evaluator) (c : ascii)
    (r : string) :
  line ev = String c r ->
  exists n,
    fst (get_name ev) = String c n /\
    forallb isname (list_ascii_of_string n) = true /\
    line ev = (fst (get_name ev) ++ line (snd (get_name ev)))%string /\
    isname (cur (snd (get_name ev))) = false /\
    same ev (snd (get_name ev)).
Proof.
  intros L. unfold get_name. rewrite L.
  destruct (span_name_spec r) as (E & W & N).
  destruct (span_name r) as (n, r'). simpl in *.
  exists n. split; [reflexivity|]. split; [exact W|].
  split; [rewrite <- E; reflexivity|]. split; [|repeat split].
  unfold cur. simpl. destruct r'; [reflexivity|exact N].
Qed.

Lemma get_name_takes_the_longest_name_witness :
  exists n,
    fst (get_name (set_line "x_1+pi" Evaluator_new)) = String "x" n /\
    forallb isname (list_ascii_of_string n) = true /\
    line (set_line "x_1+pi" Evaluator_new) =
      (fst (get_name (set_line "x_1+pi" Evaluator_new)) ++
       line (snd (get_name (set_line "x_1+pi" Evaluator_new))))%string /\
    isname (cur (snd (get_name (set_line "x_1+pi" Evaluator_new)))) = false /\
    same (set_line "x_1+pi" Evaluator_new)
      (snd (get_name (set_line "x_1+pi" Evaluator_new))).
Proof.
  apply (get_name_takes_the_longest_name (set_line "x_1+pi" Evaluator_new)
           "x" "_1+pi").
  reflexivity.
Defined.

(** X8.  find_variable returns the index of the first variable with the
    given name, and [variables.size()] when there is none: the result is
    at most the size, no variable before it has the name, and when it is
    less than the size the variable at it has the name. *)
Theorem find_variable_finds_the_first (nm : string) (ev : Evaluator) :
  find_variable nm ev <= List.length (variables ev) /\
  (forall j v, j < find_variable nm ev ->
     nth_error (variables ev) j = Some v -> name v <> nm) /\
  (find_variable nm ev < List.length (variables ev) ->
   exists v, nth_error (variables ev) (find_variable nm ev) = Some v /\
     name v = nm) /\
  (find_variable nm ev = List.length (variables ev) <->
   forall v, In v (variables ev) -> name v <> nm).
Proof.
  unfold find_variable.
  induction (variables ev) as [|w vars (IH1 & IH2 & IH3 & IH4)]; simpl.
  - split; [lia|]. split; [intros j v Hj; lia|]. split; [lia|].
    split; [intros _ v []|reflexivity].
  - destruct (String.eqb (name w) nm) eqn:E.
    + apply String.eqb_eq in E.
      split; [lia|]. split; [intros j v Hj; lia|].
      split; [intros _; exists w; auto|].
      split; [discriminate|]. intros H. exfalso. apply (H w); auto.
    + apply String.eqb_neq in E.
      split; [lia|]. split; [|split; [|split]].
      * intros [|j] v Hj; simpl.
        -- intros H. injection H as <-. exact E.
        -- apply IH2. lia.
      * intros H. apply IH3. lia.
      * intros H v [<-|Hv]; [exact E|]. apply IH4; [lia|exact Hv].
      * intros H. f_equal. apply IH4. intros v Hv. apply H. auto.
Qed.

Lemma snippet_printable l : forall s,
  forallb isprint (list_ascii_of_string s) = true ->
  snippet l s = substring 0 l s.
Proof.
  induction l as [|l IH]; intros [|c s] H; try reflexivity.
  simpl in H. apply andb_true_iff in H. destruct H as (Hc & Hs).
  simpl. rewrite Hc, (IH s Hs).
  destruct (Ascii.eqb c Ascii.zero) eqn:Ez; [|reflexivity].
  apply Ascii.eqb_eq in Ez. subst c. discriminate Hc.
Qed.

Lemma snippet_length l : forall s, String.length (snippet l s) <= 2 * l.
Proof.
  induction l as [|l IH]; intros [|c s]; simpl; try lia.
  destruct (Ascii.eqb c Ascii.zero); simpl; [lia|].
  specialize (IH s). destruct (isprint c); simpl; lia.
Qed.

Lemma snippet_at_end l s :
  match s with
  | String c _ => Ascii.eqb c Ascii.zero = true
  | EmptyString => True
  end ->
  snippet l s = "".
Proof.
  destruct l, s as [|c s]; simpl; auto. intros ->. reflexivity.
Qed.

(** X9.  error.  The text of a report is the message, a line break, a
    record of the unread line, a line break and a caret.  The record has
    at most 40 characters (20 of the line, each after a backslash when it
    is not printable); it is empty at the end of the line; and when the
    unread line is printable it is its first 20 characters, or all of it
    when it is shorter. *)
Theorem error_records_the_unread_line (m : string) (ev : Evaluator) :
  exists record,
    error m ev = (m ++ nl ++ record ++ nl ++ "^")%string /\
    String.length record <= 40 /\
    (at_end ev = true -> record = "") /\
    (forallb isprint (list_ascii_of_string (line ev)) = true ->
     record = substring 0 20 (line ev)).
Proof.
  exists (snippet 20 (line ev)). split; [reflexivity|].
  split; [apply (snippet_length 20)|]. split.
  - intros H. apply snippet_at_end.
    unfold at_end, at_char, cur in H. destruct (line ev); [exact I|exact H].
  - apply snippet_printable.
Qed.

(** ** A number followed by an operand *)

Lemma runs_parse_fail ev ev1 :
  at_end ev = false -> runs level1 ev (true, ev1) ->
  at_char ";" ev1 = false -> at_end ev1 = false ->
  runs parse_loop ev (false, report "expected ';' or end of input" ev1).
Proof.
  intros He (f & E) Hs Hn. exists (S f). simpl.
  rewrite He, E. simpl. rewrite Hs, Hn. reflexivity.
Qed.

(** X10.  Two operands in a row are an error.  When the line starts with a
    digit (after white space), level_top reads a number with [strtod];
    if what follows the number and the white space after it is not one of
    [+ - * / ^ ;] and not the end of the line, [parse] returns false with
    the report "expected ';' or end of input" at that character, the
    number being left in the pool.  So [12abc] is the number 12 and then an
    error at [abc], and [2 3], [2(3)] and [2pi] are errors too. *)
Theorem number_then_operand_is_an_error (str : string) (ev : Evaluator) :
  isdigit (cur (eatspace (set_line str ev))) = true ->
  existsb (Ascii.eqb (cur (after_number (eatspace (set_line str ev)))))
    ["+"; "-"; "*"; "/"; "^"; ";"; Ascii.zero]%char = false ->
  parse str ev =
    Some (false,
          report "expected ';' or end of input"
            (after_number (eatspace (set_line str ev)))).
Proof.
  set (ev0 := eatspace (set_line str ev)).
  set (ev1 := after_number ev0).
  intros Hd Hk. simpl in Hk.
  repeat (apply orb_false_iff in Hk; destruct Hk as (? & Hk)).
  assert (A : forall c, Ascii.eqb (cur ev1) c = false -> at_char c ev1 = false)
    by (intros c Hc; exact Hc).
  assert (Hm : at_char "-" ev0 = false).
  { unfold at_char. apply (digit_plain _ Hd). }
  assert (He : at_end ev0 = false).
  { unfold at_end, at_char. apply digit_not_end; exact Hd. }
  apply parse_of_runs. fold ev0.
  apply runs_parse_fail; auto.
  eapply runs_level1; [eapply runs_level2|].
  - apply runs_level3_plain; [exact Hm|].
    eapply runs_level4; [apply runs_top_number; exact Hd|].
    apply runs_level4_stop. auto.
  - apply runs_level2_stop. apply orb_false_iff. auto.
  - apply runs_level1_stop. apply orb_false_iff. auto.
Qed.

Lemma number_then_operand_is_an_error_witness :
  parse "12abc" Evaluator_new =
    Some (false,
          mkEvaluator [12%float] [mkSymbol CONSTANT 0]
            (variables Evaluator_new) "abc"
            [Diagnostic ("expected ';' or end of input" ++ nl ++ "abc" ++
                         nl ++ "^")]).
Proof.
  apply (number_then_operand_is_an_error "12abc" Evaluator_new);
    vm_compute; reflexivity.
Defined.

(** ** A session

    What a call writes does not depend on what is on the console, [clear]
    empties the program, and nothing changes the variables: main answers
    each line as a new evaluator would. *)

Lemma after_report c m ev : report m (after c ev) = after c (report m ev).
Proof.
  unfold report, print, after. cbn [constants symbols variables line cout].
  rewrite app_assoc. reflexivity.
Qed.

Lemma after_nextch c ev : nextch (after c ev) = after c (nextch ev).
Proof.
  unfold nextch, eatspace, advance. simpl. destruct (line ev); reflexivity.
Qed.

Lemma guard_blind c r (k k' : Evaluator -> parsed) :
  (forall ev, k' (after c ev) = parsed_after c (k ev)) ->
  guard (parsed_after c r) k' = parsed_after c (guard r k).
Proof. intros H. destruct r as [[[] ev]|]; simpl; auto. Qed.

Lemma after_get_double c ev :
  get_double (after c ev) =
  (fst (get_double ev), after c (snd (get_double ev))).
Proof.
  unfold get_double. cbn [after line].
  destruct (strtod (line ev)); reflexivity.
Qed.

Lemma after_get_name c ev :
  get_name (after c ev) = (fst (get_name ev), after c (snd (get_name ev))).
Proof.
  unfold get_name. cbn [after line].
  destruct (line ev); [reflexivity|]. destruct (span_name _); reflexivity.
Qed.

Lemma after_variable_value c nm ev :
  variable_value nm (after c ev) = parsed_after c (variable_value nm ev).
Proof.
  unfold variable_value, find_variable.
  change (variables (after c ev)) with (variables ev).
  destruct (nth_error _ _); [reflexivity|].
  cbn [parsed_after]. rewrite after_report. reflexivity.
Qed.

Lemma levels_blind fuel : all_levels blind fuel /\ blind (parse_loop fuel).
Proof.
  induction fuel as [|fuel ((I1 & I1l & I2 & I2l & I3 & I4 & I4l & It) & Ip)].
  { repeat split; intros c ev; reflexivity. }
  assert (H1l : blind (level1_loop (S fuel))).
  { intros c ev. cbn [level1_loop].
    change (at_char "+" (after c ev)) with (at_char "+" ev).
    change (at_char "-" (after c ev)) with (at_char "-" ev).
    change (cur (after c ev)) with (cur ev).
    destruct (at_char "+" ev || at_char "-" ev); [|reflexivity].
    rewrite after_nextch, I2. apply guard_blind. intros e.
    apply (I1l c (push_symbol _ e)). }
  assert (H2l : blind (level2_loop (S fuel))).
  { intros c ev. cbn [level2_loop].
    change (at_char "*" (after c ev)) with (at_char "*" ev).
    change (at_char "/" (after c ev)) with (at_char "/" ev).
    change (cur (after c ev)) with (cur ev).
    destruct (at_char "*" ev || at_char "/" ev); [|reflexivity].
    rewrite after_nextch, I3. apply guard_blind. intros e.
    apply (I2l c (push_symbol _ e)). }
  assert (H4l : blind (level4_loop (S fuel))).
  { intros c ev. cbn [level4_loop].
    change (at_char "^" (after c ev)) with (at_char "^" ev).
    destruct (at_char "^" ev); [|reflexivity].
    rewrite after_nextch, I3. apply guard_blind. intros e.
    apply (I4l c (push_symbol _ e)). }
  assert (H3 : blind (level3 (S fuel))).
  { intros c ev. cbn [level3].
    change (at_char "-" (after c ev)) with (at_char "-" ev).
    destruct (at_char "-" ev); [|apply I4].
    rewrite after_nextch, I3. apply guard_blind. reflexivity. }
  assert (Ht : blind (level_top (S fuel))).
  { intros c ev. cbn [level_top].
    change (cur (after c ev)) with (cur ev).
    change (at_char "(" (after c ev)) with (at_char "(" ev).
    change (at_char "_" (after c ev)) with (at_char "_" ev).
    change (at_end (after c ev)) with (at_end ev).
    destruct (isdigit (cur ev)).
    { rewrite after_get_double. destruct (get_double ev) as (x, ev1).
      reflexivity. }
    destruct (at_char "(" ev).
    { rewrite after_nextch, I1. apply guard_blind. intros e.
      change (at_char ")" (after c e)) with (at_char ")" e).
      destruct (negb (at_char ")" e)); cbn [parsed_after].
      - rewrite after_report. reflexivity.
      - rewrite after_nextch. reflexivity. }
    destruct (isalpha (cur ev) || at_char "_" ev).
    { rewrite after_get_name. destruct (get_name ev) as (nm, ev1).
      cbn [fst snd].
      change (eatspace (after c ev1)) with (after c (eatspace ev1)).
      destruct (math_function nm).
      - rewrite I3. apply guard_blind. reflexivity.
      - apply after_variable_value. }
    destruct (at_end ev); cbn [parsed_after]; rewrite after_report;
      reflexivity. }
  assert (Hp : blind (parse_loop (S fuel))).
  { intros c ev. cbn [parse_loop].
    change (at_end (after c ev)) with (at_end ev).
    destruct (at_end ev); [reflexivity|].
    rewrite I1. apply guard_blind. intros e.
    change (at_char ";" (after c e)) with (at_char ";" e).
    change (at_end (after c e)) with (at_end e).
    destruct (negb (at_char ";" e) && negb (at_end e)); cbn [parsed_after].
    - rewrite after_report. reflexivity.
    - change (at_char ";" (push_symbol (operator ";") (after c e)))
        with (at_char ";" e).
      change (at_char ";" (push_symbol (operator ";") e))
        with (at_char ";" e).
      destruct (at_char ";" e).
      + change (push_symbol (operator ";") (after c e))
          with (after c (push_symbol (operator ";") e)).
        rewrite after_nextch. apply Ip.
      + apply (Ip c (push_symbol (operator ";") e)). }
  split; [|exact Hp].
  repeat split; auto.
  - intros c ev. cbn [level1]. rewrite I2. apply guard_blind. exact (I1l c).
  - intros c ev. cbn [level2]. rewrite I3. apply guard_blind. exact (I2l c).
  - intros c ev. cbn [level4]. rewrite It. apply guard_blind. exact (I4l c).
Qed.

Lemma parse_blind str : blind (parse str).
Proof.
  intros c ev. unfold parse.
  change (eatspace (set_line str (after c ev)))
    with (after c (eatspace (set_line str ev))).
  apply levels_blind.
Qed.

Lemma eval_after M str c ev :
  eval M str (after c ev) =
  match eval M str ev with
  | Some (Returns (b, ev')) => Some (Returns (b, after c ev'))
  | r => r
  end.
Proof.
  unfold eval. rewrite parse_blind.
  destruct (parse str ev) as [[[] ev1]|]; simpl; try reflexivity.
  change (understanding (print (Line "Understanding:") (after c ev1)))
    with (understanding (print (Line "Understanding:") ev1)).
  destruct (understanding (print (Line "Understanding:") ev1))
    as [(text, w)|u]; [|reflexivity].
  change (run M (print (Line text)
                   (write w (print (Line "Understanding:") (after c ev1)))))
    with (run M (print (Line text)
                   (write w (print (Line "Understanding:") ev1)))).
  destruct (run M _) as [(b, w')|u]; [|reflexivity].
  unfold after, write, print. simpl. rewrite <- !app_assoc. reflexivity.
Qed.

Lemma eval_keeps_variables M str ev b ev' :
  eval M str ev = Some (Returns (b, ev')) -> variables ev' = variables ev.
Proof.
  unfold eval. intros H.
  destruct (parse str ev) as [[[] ev1]|] eqn:Hp; try discriminate.
  - destruct (levels_keep_variables (fuel_of str)) as (_ & K).
    specialize (K _ _ _ Hp).
    destruct (understanding _) as [(text, w)|u]; [|discriminate].
    destruct (run M _) as [(b', w')|u]; [|discriminate].
    injection H as _ <-. exact K.
  - destruct (levels_keep_variables (fuel_of str)) as (_ & K).
    specialize (K _ _ _ Hp). injection H as _ <-. exact K.
Qed.

(** In a cleared evaluator with the variables of a new one, [eval] does
    what it does in a new one, after what is on the console. *)
Lemma eval_as_new M str test :
  cleared test -> variables test = variables Evaluator_new ->
  eval M str test =
  match eval M str Evaluator_new with
  | Some (Returns (b, ev')) => Some (Returns (b, after (cout test) ev'))
  | r => r
  end.
Proof.
  destruct test as [cs ss vs ln c]. intros (Ec & Es) Ev. simpl in *.
  subst cs ss vs.
  change (eval M str Evaluator_new)
    with (eval M str (mkEvaluator [] [] (variables Evaluator_new) ln [])).
  rewrite <- eval_after. unfold after. simpl. rewrite app_nil_r.
  reflexivity.
Qed.

Lemma main_loop_answers M lines replies :
  answered M lines replies ->
  forall test,
    cleared test -> variables test = variables Evaluator_new ->
    exists test',
      (forall tail prompts,
         main_loop M (lines ++ tail) test prompts =
           main_loop M tail test'
             (prompts ++ starts (List.length (cout test)) replies)) /\
      cout test' = cout test ++ List.concat replies /\
      cleared test' /\ variables test' = variables Evaluator_new.
Proof.
  induction 1 as [|l r lines replies (Hq & Hr) _ IH]; intros test C V.
  - exists test. simpl. split; [|rewrite app_nil_r; auto].
    intros tail prompts. rewrite app_nil_r. reflexivity.
  - apply String.eqb_neq in Hq.
    unfold reply in Hr.
    destruct (eval M l Evaluator_new) as [[(b, ev)|u]|] eqn:He;
      try discriminate.
    injection Hr as <-.
    pose proof (eval_keeps_variables _ _ _ _ _ He) as Vv.
    set (test2 := if b then after (cout test) ev
                  else print (Line "error") (after (cout test) ev)).
    assert (C2 : cout test2 =
                 cout test ++ cout ev ++ if b then [] else [Line "error"]).
    { subst test2. destruct b; simpl.
      - rewrite app_nil_r. reflexivity.
      - rewrite app_assoc. reflexivity. }
    assert (V2 : variables (clear test2) = variables Evaluator_new).
    { subst test2. destruct b; exact Vv. }
    destruct (IH (clear test2) (conj eq_refl eq_refl) V2)
      as (test' & Hm & Hc & C' & V').
    exists test'. split; [|split; [|auto]].
    + intros tail prompts.
      cbn [app main_loop]. rewrite Hq, (eval_as_new _ _ _ C V), He.
      fold test2. rewrite Hm. f_equal.
      rewrite <- app_assoc. simpl. do 2 f_equal.
      change (cout (clear test2)) with (cout test2).
      rewrite C2, length_app. reflexivity.
    + rewrite Hc. change (cout (clear test2)) with (cout test2).
      rewrite C2. simpl. rewrite <- app_assoc. reflexivity.
Qed.

(** X11.  main answers each line as a new evaluator would.  Take lines,
    none of them [quit], on each of which [eval] in a new evaluator
    returns; the reply to a line is what that call writes, followed by
    "error" when it returns false.  Then, whatever was typed before has
    no effect on the reply to a line: the console is the replies in order,
    with a prompt before each and one after the last; the evaluator is
    cleared and its variables are those of a new one.  If [quit] is the
    next line, main returns 0 and nothing after it is read.  If the next
    line is one on which [eval] has undefined behaviour, so has main. *)
Theorem main_answers_each_line_alone (M : libm) (lines : list string)
    (replies : list (list output)) :
  answered M lines replies ->
  exists test,
    cout test = List.concat replies /\
    cleared test /\ variables test = variables Evaluator_new /\
    main M lines =
      Some (Returns
              (Reading test
                 (starts 0 replies ++ [List.length (List.concat replies)]))) /\
    (forall rest,
       main M (lines ++ "quit" :: rest) =
         Some (Returns
                 (Exited 0 test
                    (starts 0 replies ++
                     [List.length (List.concat replies)])))) /\
    (forall l u rest,
       l <> "quit" -> reply M l = Some (Undefined u) ->
       main M (lines ++ l :: rest) = Some (Undefined u)).
Proof.
  intros A.
  destruct (main_loop_answers M lines replies A Evaluator_new
              (conj eq_refl eq_refl) eq_refl) as (test & Hm & Hc & C & V).
  simpl in Hc.
  assert (H : forall tail,
            main M (lines ++ tail) =
            main_loop M tail test (starts 0 replies)).
  { intros tail. apply (Hm tail []). }
  exists test. split; [exact Hc|]. split; [exact C|]. split; [exact V|].
  split; [|split].
  - rewrite <- (app_nil_r lines) at 1. rewrite H. simpl. rewrite Hc.
    reflexivity.
  - intros rest. rewrite H. simpl. rewrite Hc. reflexivity.
  - intros l u rest Hq Hr. rewrite H. apply String.eqb_neq in Hq.
    cbn [main_loop]. rewrite Hq, (eval_as_new _ _ _ C V).
    unfold reply in Hr.
    destruct (eval M l Evaluator_new) as [[(b, ev)|u']|]; try discriminate.
    injection Hr as ->. reflexivity.
Qed.

Lemma main_answers_each_line_alone_witness :
  exists test,
    cout test =
      [Line "Understanding:"; Line ("(2+2);" ++ nl); Evaluation 4;
       Diagnostic ("unknown name: foo" ++ nl ++ nl ++ "^"); Line "error"] /\
    cleared test /\ variables test = variables Evaluator_new /\
    main small_libm ["2+2"; "foo"]%string =
      Some (Returns (Reading test [0; 3; 5])) /\
    (forall rest,
       main small_libm ("2+2" :: "foo" :: "quit" :: rest)%string =
         Some (Returns (Exited 0 test [0; 3; 5]))) /\
    (forall l u rest,
       l <> "quit"%string -> reply small_libm l = Some (Undefined u) ->
       main small_libm ("2+2" :: "foo" :: l :: rest)%string =
         Some (Undefined u)).
Proof.
  apply (main_answers_each_line_alone small_libm ["2+2"; "foo"]%string
           [[Line "Understanding:"; Line ("(2+2);" ++ nl); Evaluation 4];
            [Diagnostic ("unknown name: foo" ++ nl ++ nl ++ "^");
             Line "error"]]).
  repeat constructor; try discriminate; vm_compute; reflexivity.
Defined.

(** ** A line that ends where an operand is expected

    level_top reports the end of the input and returns true.  The levels
    above it go on as if an operand had been read: the program has an
    operator or a function whose operand is missing, and [run] takes
    [back()] of an empty vector. *)

Section MissingOperand.

Variable M : libm.

Lemma takes_not_nil consts : ~ takes M consts [].
Proof. intros (H & _). specialize (H [] []). discriminate. Qed.

Lemma takes_unary consts c sym :
  waits M consts c ->
  sym = operator "n" \/ (exists g, sym = mkSymbol MATHFN (fn_id g)) ->
  takes M consts (c ++ [sym]).
Proof.
  intros W Hs.
  assert (U : (forall rest out,
                 run_loop M consts (sym :: rest) [] out =
                 Undefined EmptyBack) /\
              (forall x s, exists y, forall rest out,
                 run_loop M consts (sym :: rest) (x :: s) out =
                 run_loop M consts rest (y :: s) out)).
  { destruct Hs as [->|(g & ->)]; split; try reflexivity; intros x s.
    - exists (- x)%float. reflexivity.
    - exists (fn_apply M g x). intros rest out. simpl.
      rewrite apply_function_fn. reflexivity. }
  destruct U as (U0 & U1).
  destruct W as [->|(T0 & T1)]; [split; assumption|]. split.
  - intros rest out. rewrite <- app_assoc. apply T0.
  - intros x s. destruct (T1 x s) as (y & Hy). destruct (U1 y s) as (z & Hz).
    exists z. intros rest out. rewrite <- app_assoc, Hy. apply Hz.
Qed.

Lemma takes_binary consts c1 c2 op :
  pushes M consts c1 -> waits M consts c2 ->
  takes M consts (c1 ++ c2 ++ [operator (op_char op)]).
Proof.
  intros (v & Hv) W.
  assert (B0 : forall b rest out,
            run_loop M consts (operator (op_char op) :: rest) [b] out =
            Undefined EmptyBack).
  { intros b rest out. simpl.
    destruct (op_char_binary op) as (-> & ->). reflexivity. }
  assert (B2 : forall a b s rest out,
            run_loop M consts (operator (op_char op) :: rest) (b :: a :: s)
              out =
            run_loop M consts rest (op_apply M op a b :: s) out).
  { intros a b s rest out. simpl.
    destruct (op_char_binary op) as (-> & ->).
    rewrite apply_binary_op. reflexivity. }
  split.
  - intros rest out. rewrite <- app_assoc, Hv.
    destruct W as [->|(T0 & T1)]; [apply B0|].
    destruct (T1 v []) as (y & Hy). rewrite <- app_assoc, Hy. apply B0.
  - intros x s.
    destruct W as [->|(T0 & T1)].
    + exists (op_apply M op x v). intros rest out.
      rewrite <- app_assoc, Hv. apply B2.
    + destruct (T1 v (x :: s)) as (y & Hy).
      exists (op_apply M op x y). intros rest out.
      rewrite <- app_assoc, Hv, <- app_assoc, Hy. apply B2.
Qed.

Lemma pushes_built ev0 a ev cs post :
  builds ev0 a ev ->
  pushes M ((constants ev ++ cs) ++ post)
    (compile (List.length (constants ev0)) a).
Proof.
  intros (_ & Bc). exists (number M a). intros rest s out.
  apply (run_compile M _ a (constants ev0) (cs ++ post)).
  rewrite Bc, <- !app_assoc. reflexivity.
Qed.

Lemma clean_or_not a r b :
  diagnoses a r b -> cout b = cout a \/ cout b <> cout a.
Proof.
  intros ([|o d] & E & _); [left; rewrite E, app_nil_r; reflexivity|].
  right. rewrite E. intros H.
  rewrite <- (app_nil_r (cout a)) in H at 2.
  apply app_inv_head in H. discriminate.
Qed.

Lemma at_end_cur ev : at_end ev = true -> cur ev = Ascii.zero.
Proof. unfold at_end, at_char. apply Ascii.eqb_eq. Qed.

Lemma loops_idle_at_end fuel :
  idle_at_end (level1_loop fuel) /\ idle_at_end (level2_loop fuel) /\
  idle_at_end (level4_loop fuel).
Proof.
  repeat split; intros ev r He H; destruct fuel; try discriminate H;
    simpl in H; unfold at_char in H; rewrite (at_end_cur _ He) in H;
    simpl in H; congruence.
Qed.

(** A level and then its loop. *)
Lemma sequence_holes (p loop : Evaluator -> parsed) :
  sound p -> holes M p -> loop_holes M loop ->
  respects diagnoses p -> respects consumes p -> idle_at_end loop ->
  holes M (fun ev => guard (p ev) loop).
Proof.
  intros Sp Hp Hl Dp Cp Il ev ev' H N S.
  apply guard_true in H. destruct H as (ev1 & E1 & E2).
  destruct (clean_or_not _ _ _ (Dp _ _ _ E1)) as [O1|O1].
  - destruct (Sp _ _ E1 O1 S) as (a & Ba).
    destruct (Hl ev a ev1 ev' Ba E2) as (He & code & Es & T).
    { congruence. }
    { eapply small_consumes; eauto. }
    split; [exact He|]. exists code. split; [exact Es|]. split.
    + intros ->. destruct (takes_not_nil _ (T [])).
    + intros post. right. apply T.
  - destruct (Hp _ _ E1 O1 S) as (He & code & Es & Ee & W).
    pose proof (Il _ _ He E2) as E. injection E as <-.
    split; [exact He|]. exists code. auto.
Qed.

(** One turn of a loop: an operator and its right operand. *)
Lemma step_holes (p loop : Evaluator -> parsed) op :
  sound p -> holes M p -> loop_holes M loop ->
  respects diagnoses p -> respects consumes p -> idle_at_end loop ->
  forall ev0 a ev ev', builds ev0 a ev ->
    guard (p (nextch ev))
      (fun ev1 => loop (push_symbol (operator (op_char op)) ev1)) =
      Some (true, ev') ->
    cout ev' <> cout ev -> small ev ->
    at_end ev' = true /\
    exists code, symbols ev' = symbols ev0 ++ code /\
      forall post, takes M (constants ev' ++ post) code.
Proof.
  intros Sp Hp Hl Dp Cp Il ev0 a ev ev' B H N S.
  destruct (nextch_frame ev) as (Nc & Ns & _ & No).
  apply guard_true in H. destruct H as (ev1 & E1 & E2).
  pose proof (small_nextch _ S) as S'.
  destruct (clean_or_not _ _ _ (Dp _ _ _ E1)) as [O1|O1].
  - destruct (Sp _ _ E1 O1 S') as (b & Bb).
    eapply (Hl ev0 (Binary op a b)); [|exact E2| |].
    + eapply builds_binary; [|exact Bb].
      eapply builds_before; [| |exact B]; auto.
    + simpl. congruence.
    + eapply (small_consumes _ true); [apply (Cp _ _ _ E1)|exact S'].
  - destruct (Hp _ _ E1 O1 S') as (He & code & Es & _ & W).
    assert (He' : at_end (push_symbol (operator (op_char op)) ev1) = true)
      by exact He.
    pose proof (Il _ _ He' E2) as E. injection E as ->.
    split; [exact He|].
    destruct (Cp _ _ _ E1) as (cs & Ec & _).
    destruct B as (Bs & Bc).
    exists (compile (List.length (constants ev0)) a ++ code ++
            [operator (op_char op)]).
    split.
    + simpl. rewrite Es, Ns, Bs, <- !app_assoc. reflexivity.
    + intros post. simpl constants. apply takes_binary; [|apply W].
      rewrite Ec, Nc. apply (pushes_built ev0 a ev); split; auto.
Qed.

Lemma levels_hole fuel :
  holes M (level1 fuel) /\ loop_holes M (level1_loop fuel) /\
  holes M (level2 fuel) /\ loop_holes M (level2_loop fuel) /\
  holes M (level3 fuel) /\ holes M (level4 fuel) /\
  loop_holes M (level4_loop fuel) /\ holes M (level_top fuel).
Proof.
  induction fuel as [|fuel (H1 & H1l & H2 & H2l & H3 & H4 & H4l & Ht)].
  { repeat split; unfold holes, loop_holes; intros;
      match goal with H : _ = Some _ |- _ => discriminate H end. }
  destruct (levels_sound fuel) as (S1 & S1l & S2 & S2l & S3 & S4 & S4l & St).
  destruct (levels_diagnose fuel)
    as ((D1 & D1l & D2 & D2l & D3 & D4 & D4l & Dt) & _).
  destruct (levels_consume fuel)
    as ((C1 & C1l & C2 & C2l & C3 & C4 & C4l & Ct) & _).
  destruct (loops_idle_at_end fuel) as (I1 & I2 & I4).
  assert (Unary : forall ev ev1 sym,
            sym = operator "n" \/ (exists g, sym = mkSymbol MATHFN (fn_id g)) ->
            symbols ev1 = symbols ev -> cout ev1 = cout ev -> small ev1 ->
            forall ev2, level3 fuel ev1 = Some (true, ev2) ->
            cout (push_symbol sym ev2) <> cout ev ->
            at_end (push_symbol sym ev2) = true /\
            exists code,
              symbols (push_symbol sym ev2) = symbols ev ++ code /\
              (code = [] -> at_end ev = true) /\
              forall post,
                waits M (constants (push_symbol sym ev2) ++ post) code).
  { intros ev ev1 sym Hs Es Eo Sm ev2 E N.
    destruct (H3 _ _ E) as (He & code & Ec & _ & W);
      [simpl in N; congruence|auto|].
    split; [exact He|]. exists (code ++ [sym]). split; [|split].
    - simpl. rewrite Ec, Es, <- app_assoc. reflexivity.
    - intros Hn. apply app_eq_nil in Hn. destruct Hn; discriminate.
    - intros post. right. apply takes_unary; [apply W|exact Hs]. }
  split; [|split; [|split; [|split; [|split; [|split; [|split]]]]]].
  - (* level1 *)
    intros ev ev' H. simpl in H. revert H.
    apply (sequence_holes (level2 fuel) (level1_loop fuel)); auto.
  - (* level1_loop *)
    intros ev0 a ev ev' B H N S. simpl in H.
    destruct (at_char "+" ev || at_char "-" ev).
    + destruct (Ascii.eqb (cur ev) "+").
      * eapply (step_holes (level2 fuel) (level1_loop fuel) Add); eauto.
      * eapply (step_holes (level2 fuel) (level1_loop fuel) Sub); eauto.
    + injection H as <-. congruence.
  - (* level2 *)
    intros ev ev' H. simpl in H. revert H.
    apply (sequence_holes (level3 fuel) (level2_loop fuel)); auto.
  - (* level2_loop *)
    intros ev0 a ev ev' B H N S. simpl in H.
    destruct (at_char "*" ev || at_char "/" ev).
    + destruct (Ascii.eqb (cur ev) "*").
      * eapply (step_holes (level3 fuel) (level2_loop fuel) Mul); eauto.
      * eapply (step_holes (level3 fuel) (level2_loop fuel) Div); eauto.
    + injection H as <-. congruence.
  - (* level3 *)
    intros ev ev' H N S. simpl in H.
    destruct (at_char "-" ev); [|eapply H4; eauto].
    destruct (nextch_frame ev) as (Nc & Ns & _ & No).
    apply guard_true in H. destruct H as (ev1 & E1 & E2).
    injection E2 as <-.
    eapply (Unary ev (nextch ev)); eauto using small_nextch.
  - (* level4 *)
    intros ev ev' H. simpl in H. revert H.
    apply (sequence_holes (level_top fuel) (level4_loop fuel)); auto.
  - (* level4_loop *)
    intros ev0 a ev ev' B H N S. simpl in H.
    destruct (at_char "^" ev).
    + eapply (step_holes (level3 fuel) (level4_loop fuel) Pow); eauto.
    + injection H as <-. congruence.
  - (* level_top *)
    intros ev ev' H N S. simpl in H.
    destruct (isdigit (cur ev)) eqn:Ed.
    { destruct (get_double_frame ev) as (_ & _ & _ & Go).
      destruct (get_double ev) as [x ev1]. injection H as <-.
      exfalso. apply N. exact Go. }
    destruct (at_char "(" ev) eqn:Ep.
    { destruct (nextch_frame ev) as (Nc & Ns & _ & No).
      apply guard_true in H. destruct H as (ev1 & E1 & E2).
      destruct (at_char ")" ev1) eqn:Ec; simpl in E2; [|discriminate].
      injection E2 as <-.
      destruct (nextch_frame ev1) as (_ & _ & _ & No1).
      destruct (H1 _ _ E1) as (He & _);
        [congruence|apply small_nextch; auto|].
      unfold at_char in Ec. rewrite (at_end_cur _ He) in Ec. discriminate. }
    destruct (isalpha (cur ev) || at_char "_" ev) eqn:Ea.
    { destruct (cur_line ev _ eq_refl (name_start_not_zero _ Ea)) as (r & Er).
      destruct (get_name_frame ev) as (Gc & Gs & _ & Go).
      pose proof (line_get_name _ _ _ Er) as Ln.
      destruct (get_name ev) as [nm ev1]. simpl in Gc, Gs, Go, Ln.
      destruct (math_function nm) as [f|] eqn:Ef.
      - apply math_function_fn in Ef. destruct Ef as (g & -> & _).
        apply guard_true in H. destruct H as (ev2 & E1 & E2).
        injection E2 as <-.
        eapply (Unary ev (eatspace ev1)); eauto.
        unfold small in *. simpl. rewrite Gc, Ln, Er in *.
        pose proof (span_name_length r).
        pose proof (skip_space_length (snd (span_name r))).
        simpl in S. lia.
      - unfold variable_value in H.
        destruct (nth_error _ _) as [v|]; [|discriminate].
        injection H as <-. exfalso. apply N. simpl. exact Go. }
    destruct (at_end ev) eqn:Ee; [|discriminate].
    injection H as <-. split; [exact Ee|].
    exists []. rewrite app_nil_r. split; [reflexivity|].
    split; [auto|]. intros post. left. reflexivity.
Qed.

Lemma parse_loop_hole fuel : forall ev ev',
  parse_loop fuel ev = Some (true, ev') -> cout ev' <> cout ev -> small ev ->
  exists es code,
    symbols ev' =
      symbols ev ++
      compile_program (List.length (constants ev)) es ++ code ++
      [operator ";"] /\
    (exists cs, constants ev' = constants ev ++ program_leaves es ++ cs) /\
    forall post, takes M (constants ev' ++ post) code.
Proof.
  induction fuel as [|fuel IH]; intros ev ev' H N S; [discriminate|].
  simpl in H. destruct (at_end ev) eqn:Ee.
  { injection H as <-. congruence. }
  destruct (levels_diagnose fuel) as ((D1 & _) & _).
  destruct (levels_consume fuel) as ((C1 & _) & _).
  destruct (levels_sound fuel) as (S1 & _).
  destruct (levels_hole fuel) as (H1 & _).
  apply guard_true in H. destruct H as (ev1 & E1 & E2).
  destruct (negb (at_char ";" ev1) && negb (at_end ev1)); [discriminate|].
  pose proof (small_consumes _ _ _ (C1 _ _ _ E1) S) as Sm1.
  destruct (clean_or_not _ _ _ (D1 _ _ _ E1)) as [O1|O1].
  - destruct (S1 _ _ E1 O1 S) as (e & Bs & Bc).
    set (ev2 := push_symbol (operator ";") ev1) in *.
    set (ev3 := if at_char ";" ev2 then nextch ev2 else ev2) in *.
    assert (F : symbols ev3 = symbols ev1 ++ [operator ";"] /\
                constants ev3 = constants ev1 /\ cout ev3 = cout ev1 /\
                small ev3).
    { subst ev3. destruct (at_char ";" ev2).
      - destruct (nextch_frame ev2) as (-> & -> & _ & ->).
        repeat split. apply small_nextch. exact Sm1.
      - repeat split. exact Sm1. }
    destruct F as (Fs & Fc & Fo & Fm).
    destruct (IH _ _ E2) as (es & code & Es & (cs & Ec) & T);
      [congruence|exact Fm|].
    exists (e :: es), code. split; [|split; [|exact T]].
    + rewrite Es, Fs, Fc, Bs, Bc, length_app. simpl.
      rewrite <- !app_assoc. reflexivity.
    + exists cs. rewrite Ec, Fc, Bc. unfold program_leaves. simpl.
      rewrite <- !app_assoc. reflexivity.
  - destruct (H1 _ _ E1 O1 S) as (He & code & Es & Hn & W).
    assert (E : ev' = push_symbol (operator ";") ev1).
    { assert (A : at_char ";" (push_symbol (operator ";") ev1) = false).
      { change (at_char ";" (push_symbol (operator ";") ev1))
          with (at_char ";" ev1).
        unfold at_char. rewrite (at_end_cur _ He). reflexivity. }
      rewrite A in E2. destruct fuel; [discriminate|].
      cbn [parse_loop] in E2.
      change (at_end (push_symbol (operator ";") ev1)) with (at_end ev1)
        in E2.
      rewrite He in E2. congruence. }
    subst ev'. destruct (C1 _ _ _ E1) as (cs & Ec & _).
    exists [], code. split; [|split].
    + simpl. rewrite Es, <- app_assoc. reflexivity.
    + exists cs. simpl. exact Ec.
    + intros post. destruct (W post) as [->|T]; [|exact T].
      rewrite Hn in Ee by reflexivity. discriminate.
Qed.

Lemma run_program_then consts es : forall pre post rest out,
  consts = pre ++ program_leaves es ++ post ->
  run_loop M consts (compile_program (List.length pre) es ++ rest) [] out =
  run_loop M consts rest [] (out ++ map (fun e => Evaluation (number M e)) es).
Proof.
  induction es as [|e es IH]; intros pre post rest out E; simpl.
  - rewrite app_nil_r. reflexivity.
  - unfold program_leaves in E. simpl in E. rewrite <- app_assoc in E.
    rewrite <- app_assoc.
    rewrite (run_compile M consts e pre _ _ _ _ E). simpl.
    rewrite <- length_app, (IH (pre ++ leaves e) post)
      by (rewrite <- app_assoc; exact E).
    rewrite <- app_assoc. reflexivity.
Qed.

End MissingOperand.

(** X12.  The operand that is missing at the end of a line.  When [parse]
    returns true on a line shorter than 2^32 characters, in a cleared
    evaluator, and has reported something (which is then "unexpected end
    of input"), the program has an operator or a function whose operand
    is missing: [understanding] and [run] take [back()] of an empty
    vector, and [eval], which calls them, has undefined behaviour. *)
Theorem missing_operand_is_undefined_behaviour (M : libm) (str : string)
    (ev ev1 : Evaluator) :
  cleared ev -> (N.of_nat (String.length str) < 2 ^ 32)%N ->
  parse str ev = Some (true, ev1) -> cout ev1 <> cout ev ->
  understanding ev1 = Undefined EmptyBack /\
  run M ev1 = Undefined EmptyBack /\
  eval M str ev = Some (Undefined EmptyBack).
Proof.
  intros (Ec & Es) Hlen H N. pose proof H as Hp. unfold parse in Hp.
  destruct (parse_loop_hole M _ _ _ Hp) as (es & code & Ss & (cs & Sc) & T).
  { exact N. }
  { unfold small. simpl. rewrite Ec. simpl.
    pose proof (skip_space_length str). lia. }
  simpl in Ss, Sc. rewrite Es in Ss. rewrite Ec in Ss, Sc. simpl in Ss, Sc.
  assert (R : run M ev1 = Undefined EmptyBack).
  { unfold run. rewrite Ss.
    rewrite (run_program_then M (constants ev1) es [] cs) by exact Sc.
    destruct (T []) as (T0 & _). rewrite app_nil_r in T0. apply T0. }
  assert (U : understanding ev1 = Undefined EmptyBack).
  { pose proof (interpreters_agree_on_undefined M ev1) as A.
    rewrite R in A. exact A. }
  split; [exact U|]. split; [exact R|].
  unfold eval. rewrite H.
  change (understanding (print (Line "Understanding:") ev1))
    with (understanding ev1).
  rewrite U. reflexivity.
Qed.

Lemma missing_operand_is_undefined_behaviour_witness :
  understanding
    (mkEvaluator [2%float]
       [mkSymbol CONSTANT 0; mkSymbol MATHFN SIN; operator "*"; operator ";"]
       (variables Evaluator_new) ""
       [Diagnostic ("unexpected end of input" ++ nl ++ nl ++ "^")]) =
    Undefined EmptyBack /\
  run small_libm
    (mkEvaluator [2%float]
       [mkSymbol CONSTANT 0; mkSymbol MATHFN SIN; operator "*"; operator ";"]
       (variables Evaluator_new) ""
       [Diagnostic ("unexpected end of input" ++ nl ++ nl ++ "^")]) =
    Undefined EmptyBack /\
  eval small_libm "2*sin" Evaluator_new = Some (Undefined EmptyBack).
Proof.
  apply (missing_operand_is_undefined_behaviour small_libm "2*sin"
           Evaluator_new).
  - split; reflexivity.
  - vm_compute. reflexivity.
  - vm_compute. reflexivity.
  - discriminate.
Defined.

(** ** The language of a line is read as written *)

Lemma blank_nil : blank "".
Proof. reflexivity. Qed.

Lemma skip_space_blank_app ws s :
  blank ws ->
  match s with String c _ => isspace c = false | EmptyString => True end ->
  skip_space (ws ++ s) = s.
Proof.
  unfold blank. induction ws as [|c ws IH]; simpl; intros B T.
  - destruct s as [|c r]; [reflexivity|]. simpl. rewrite T. reflexivity.
  - apply andb_true_iff in B. destruct B as (-> & B). auto.
Qed.

Lemma stop_tight t :
  stop t ->
  match t with String c _ => isspace c = false | EmptyString => True end.
Proof. destruct t as [|k r]; [auto|]. apply delimiter_not_space. Qed.

Lemma unspaced_tight s t :
  unspaced s ->
  match (s ++ t)%string with
  | String c _ => isspace c = false
  | EmptyString => True
  end.
Proof. intros (c & r & -> & H & _). exact H. Qed.

Lemma skip_blank_stop ws t :
  blank ws -> stop t -> skip_space (ws ++ t) = t.
Proof. intros B S. apply skip_space_blank_app, stop_tight; auto. Qed.

Lemma skip_blank_text ws s t :
  blank ws -> unspaced s -> skip_space (ws ++ s ++ t) = (s ++ t)%string.
Proof. intros B U. apply skip_space_blank_app, unspaced_tight; auto. Qed.

Lemma not_at_char c t ev :
  not_at c t -> c <> Ascii.zero -> line ev = t -> at_char c ev = false.
Proof.
  unfold not_at, at_char, cur. intros H Hc ->. destruct t; [|exact H].
  apply Ascii.eqb_neq. congruence.
Qed.

(** [extends]. *)

Lemma extends_after a a' e b : same a a' -> extends a' e b -> extends a e b.
Proof.
  unfold same, extends, builds. intros (-> & -> & -> & ->). auto.
Qed.

Lemma extends_before a e b b' : extends a e b -> same b b' -> extends a e b'.
Proof.
  unfold same, extends, builds. intros H (-> & -> & -> & ->). auto.
Qed.

Lemma extends_neg a e b :
  extends a e b -> extends a (Neg e) (push_symbol (operator "n") b).
Proof. intros (B & H). split; [apply builds_neg; exact B|exact H]. Qed.

Lemma extends_call a f e b :
  extends a e b ->
  extends a (Call f e) (push_symbol (mkSymbol MATHFN (fn_id f)) b).
Proof. intros (B & H). split; [apply builds_call; exact B|exact H]. Qed.

Lemma extends_binary a x b y c op :
  extends a x b -> extends b y c ->
  extends a (Binary op x y) (push_symbol (operator (op_char op)) c).
Proof.
  intros (B1 & O1 & V1) (B2 & O2 & V2).
  split; [eapply builds_binary; eauto|]. simpl. split; congruence.
Qed.

Lemma extends_fits a e b n :
  extends a e b -> fits a (List.length (leaves e) + n) -> fits b n.
Proof.
  unfold extends, builds, fits. intros ((_ & ->) & _) H.
  rewrite length_app, <- Nat.add_assoc. exact H.
Qed.

Lemma extends_const ev c ev1 :
  fits ev 1 -> same ev ev1 ->
  extends ev (Const c) (push_last_constant (eatspace (push_constant c ev1))).
Proof.
  unfold fits, extends, builds, same. intros F (Es & Ec & Eo & Ev). simpl.
  rewrite Es, Ec, Eo, Ev, length_app. simpl.
  repeat split. do 3 f_equal. rewrite to_uint_small; lia.
Qed.

Lemma name_begins c :
  isalpha c || Ascii.eqb c "_" = true ->
  isspace c = false /\ Ascii.eqb c "-" = false /\ isdigit c = false /\
  Ascii.eqb c "(" = false /\ Ascii.eqb c Ascii.zero = false.
Proof.
  destruct c as [[] [] [] [] [] [] [] []]; try discriminate; repeat split.
Qed.

Lemma delimiter_not_name k : delimiter k = true -> isname k = false.
Proof.
  intros H. apply delimiter_cases in H.
  repeat (destruct H as [H|H]); subst; reflexivity.
Qed.

Lemma space_not_name k : isspace k = true -> isname k = false.
Proof.
  destruct k as [[] [] [] [] [] [] [] []]; try discriminate; reflexivity.
Qed.

Lemma span_name_app n r :
  forallb isname (list_ascii_of_string n) = true ->
  match r with String k _ => isname k = false | EmptyString => True end ->
  span_name (n ++ r) = (n, r).
Proof.
  induction n as [|c n IH]; simpl; intros W H.
  - destruct r as [|k r]; [reflexivity|]. simpl. rewrite H. reflexivity.
  - apply andb_true_iff in W. destruct W as (-> & W).
    rewrite (IH W H). reflexivity.
Qed.

Lemma runs_top_variable ev nm ev1 v :
  isdigit (cur ev) = false -> at_char "(" ev = false ->
  isalpha (cur ev) || at_char "_" ev = true ->
  get_name ev = (nm, ev1) -> math_function nm = None ->
  nth_error (variables ev1) (find_variable_in (variables ev1) nm) = Some v ->
  runs level_top ev
    (true, push_last_constant (push_constant (var_value v) (eatspace ev1))).
Proof.
  intros Hd Hp Ha Hn Hf Hv. exists 1. cbn [level_top].
  rewrite Hd, Hp, Ha, Hn, Hf. unfold variable_value, find_variable.
  change (variables (eatspace ev1)) with (variables ev1).
  rewrite Hv. reflexivity.
Qed.

Section Language.

Variable vars : list Var.

Lemma ready_same a b n : same a b -> ready vars a n -> ready vars b n.
Proof.
  intros S (V & F). split; [|eapply fits_same; eauto].
  destruct S as (_ & _ & _ & ->). exact V.
Qed.

Lemma ready_less ev n m : ready vars ev n -> m <= n -> ready vars ev m.
Proof. intros (V & F) H. split; [exact V|eapply fits_less; eauto]. Qed.

Lemma ready_left ev op a b :
  ready vars ev (List.length (leaves (Binary op a b))) ->
  ready vars ev (List.length (leaves a)).
Proof. intros (V & F). split; [exact V|eapply fits_left; exact F]. Qed.

Lemma extends_ready a e b n :
  extends a e b -> ready vars a (List.length (leaves e) + n) ->
  ready vars b n.
Proof.
  intros X (V & F). split; [|eapply extends_fits; eauto].
  destruct X as (_ & _ & ->). exact V.
Qed.

Lemma written_start l e t :
  written vars l e t -> unspaced t /\ (4 <= l -> plain t).
Proof.
  induction 1 as [lit c ws ((d & r & -> & Hd) & _) _
                 |nm v ws (c & n & -> & Hc & _) _ _ _
                 |e t ws1 ws2 _ _ _ _
                 |f x t ws _ _ _ _
                 |a ta b tb ws _ (Ua & Pa) _ _ _
                 |x t ws _ _ _
                 |op a ta b tb ws _ _ (Ua & _) _ _ _
                 |op a ta b tb ws _ _ (Ua & _) _ _ _
                 |l e t _ (U & P)].
  - destruct (digit_plain d Hd) as (Hs & Hm & _).
    pose proof (digit_not_end d Hd).
    split; [|intros _]; exists d, (r ++ ws)%string; auto.
  - destruct (name_begins c Hc) as (Hs & Hm & _ & _ & Hz).
    split; [|intros _]; exists c, (n ++ ws)%string; auto.
  - split; [|intros _]; eexists _, _; repeat split.
  - split; [|intros _]; destruct f; eexists _, _; repeat split.
  - split; [apply unspaced_app; exact Ua|].
    intros _. apply plain_app, Pa. lia.
  - split; [eexists _, _; repeat split|lia].
  - split; [apply unspaced_app; exact Ua|lia].
  - split; [apply unspaced_app; exact Ua|lia].
  - split; [exact U|]. intros H. apply P. lia.
Qed.

Lemma stop1_stop3 t : stop1 t -> stop3 t.
Proof. intros (S & H & _). split; assumption. Qed.

(** From one level to the next. *)

Lemma accepts_level4 t e :
  accepts vars level_top stop t e -> accepts vars level4 stop3 t e.
Proof.
  intros H u ev (Su & Hu) L F.
  destruct (H u ev Su L F) as (ev' & R & L' & B).
  exists ev'. split; [|split; [exact L'|exact B]].
  eapply runs_level4; [exact R|]. apply runs_level4_stop.
  apply (not_at_char _ u); [exact Hu|discriminate|exact L'].
Qed.

Lemma accepts_level3 t e :
  accepts vars level4 stop3 t e -> plain t -> accepts vars level3 stop3 t e.
Proof.
  intros H (c & r & E & _ & Hm) u ev Su L F.
  destruct (H u ev Su L F) as (ev' & R & L' & B).
  exists ev'. split; [|split; [exact L'|exact B]].
  apply runs_level3_plain; [|exact R].
  rewrite E in L. simpl in L. rewrite (at_char_at _ _ _ _ L). exact Hm.
Qed.

Lemma accepts_on_level2 t e :
  accepts vars level3 stop3 t e -> accepts_on vars level2 level2_loop stop3 t e.
Proof.
  intros H u ev Su L F. destruct (H u ev Su L F) as (ev' & R & L' & B).
  exists ev'. split; [|split; [exact L'|exact B]].
  intros r Hr. eapply runs_level2; eauto.
Qed.

Lemma accepts_level2 t e :
  accepts_on vars level2 level2_loop stop3 t e -> accepts vars level2 stop1 t e.
Proof.
  intros H u ev Su L F. pose proof Su as (_ & _ & H1 & H2).
  destruct (H u ev (stop1_stop3 _ Su) L F) as (ev' & C & L' & B).
  exists ev'. split; [|split; [exact L'|exact B]].
  apply C, runs_level2_stop.
  rewrite (not_at_char _ u _ H1), (not_at_char _ u _ H2); auto; discriminate.
Qed.

Lemma accepts_on_level1 t e :
  accepts_on vars level2 level2_loop stop3 t e ->
  accepts_on vars level1 level1_loop stop1 t e.
Proof.
  intros H u ev Su L F.
  destruct (accepts_level2 t e H u ev Su L F) as (ev' & R & L' & B).
  exists ev'. split; [|split; [exact L'|exact B]].
  intros r Hr. eapply runs_level1; eauto.
Qed.

(** A statement, or the inside of parentheses: level1 up to a character
    that is not an operator. *)
Lemma accepts_level1 t e u ev :
  accepts_on vars level1 level1_loop stop1 t e ->
  stop1 u -> not_at "+" u -> not_at "-" u ->
  line ev = (t ++ u)%string -> ready vars ev (List.length (leaves e)) ->
  exists ev', runs level1 ev (true, ev') /\ line ev' = u /\ extends ev e ev'.
Proof.
  intros H Su H1 H2 L F.
  destruct (H u ev Su L F) as (ev' & C & L' & B).
  exists ev'. split; [|split; [exact L'|exact B]].
  apply C, runs_level1_stop.
  rewrite (not_at_char _ u _ H1), (not_at_char _ u _ H2); auto; discriminate.
Qed.

(** The clauses of the levels. *)

Lemma accepts_number lit c ws :
  literal lit c -> blank ws ->
  accepts vars level_top stop (lit ++ ws) (Const c).
Proof.
  intros ((d & r & El & Hd) & Hs) B t ev St L F.
  rewrite string_app_assoc in L.
  assert (Hcur : isdigit (cur ev) = true).
  { unfold cur. rewrite L, El. exact Hd. }
  assert (Hg : get_double ev = (c, set_line (ws ++ t) ev)).
  { unfold get_double. rewrite L, (Hs ws t B St). reflexivity. }
  eexists. split; [apply runs_top_number; exact Hcur|].
  rewrite Hg. cbn [fst snd]. split.
  - apply skip_blank_stop; assumption.
  - apply extends_const; [exact (proj2 F)|apply same_set_line].
Qed.

Lemma accepts_variable nm v ws :
  is_name nm -> math_function nm = None ->
  nth_error vars (find_variable_in vars nm) = Some v -> blank ws ->
  accepts vars level_top stop (nm ++ ws) (Const (var_value v)).
Proof.
  intros (c & n & -> & Hc & Hn) Hf Hv B t ev St L (V & F).
  destruct (name_begins c Hc) as (_ & _ & Hd & Hp & _).
  assert (L0 : line ev = String c (n ++ ws ++ t)).
  { rewrite L. cbn [append]. rewrite string_app_assoc. reflexivity. }
  assert (Hg : get_name ev = (String c n, set_line (ws ++ t) ev)).
  { unfold get_name. rewrite L0, span_name_app; [reflexivity|exact Hn|].
    destruct ws as [|k ws].
    - destruct t as [|k t]; [exact I|]. apply delimiter_not_name, St.
    - apply space_not_name. unfold blank in B. simpl in B.
      apply andb_true_iff in B. apply B. }
  eexists. split; [|split].
  - eapply runs_top_variable; [| | |exact Hg|exact Hf|].
    + rewrite (cur_at _ _ _ L0). exact Hd.
    + rewrite (at_char_at _ _ _ _ L0). exact Hp.
    + unfold at_char. rewrite (cur_at _ _ _ L0). exact Hc.
    + change (variables (set_line (ws ++ t) ev)) with (variables ev).
      rewrite V. exact Hv.
  - change (skip_space (ws ++ t) = t). apply skip_blank_stop; assumption.
  - exact (extends_const ev _ (set_line (ws ++ t) ev) F (same_set_line _ _)).
Qed.

Lemma accepts_parentheses e t ws1 ws2 :
  accepts_on vars level1 level1_loop stop1 t e -> unspaced t ->
  blank ws1 -> blank ws2 ->
  accepts vars level_top stop (String "(" (ws1 ++ t ++ String ")" ws2)) e.
Proof.
  intros H U B1 B2 u ev Su L F.
  assert (L0 : line ev =
               String "(" (ws1 ++ t ++ String ")" (ws2 ++ u))).
  { rewrite L. cbn [append]. rewrite !string_app_assoc. reflexivity. }
  destruct (accepts_level1 t e (String ")" (ws2 ++ u)) (nextch ev) H)
    as (ev1 & R1 & L1 & X1); try reflexivity.
  { repeat split. }
  { rewrite (line_nextch_at _ _ _ L0). apply skip_blank_text; assumption. }
  { eapply ready_same; [apply same_nextch|exact F]. }
  exists (nextch ev1). split; [|split].
  - eapply runs_top_paren; [| |exact R1|].
    + rewrite (cur_at _ _ _ L0); reflexivity.
    + rewrite (at_char_at _ _ _ _ L0); reflexivity.
    + rewrite (at_char_at _ _ _ _ L1); reflexivity.
  - rewrite (line_nextch_at _ _ _ L1). apply skip_blank_stop; assumption.
  - eapply extends_before; [|apply same_nextch].
    eapply extends_after; [apply same_nextch|exact X1].
Qed.

Lemma accepts_minus x t ws :
  accepts vars level3 stop3 t x -> unspaced t -> blank ws ->
  accepts vars level3 stop3 (String "-" (ws ++ t)) (Neg x).
Proof.
  intros H U B u ev Su L F.
  assert (L0 : line ev = String "-" (ws ++ t ++ u)).
  { rewrite L. cbn [append]. rewrite string_app_assoc. reflexivity. }
  destruct (H u (nextch ev) Su) as (ev1 & R1 & L1 & X1).
  { rewrite (line_nextch_at _ _ _ L0). apply skip_blank_text; assumption. }
  { eapply ready_same; [apply same_nextch|exact F]. }
  exists (push_symbol (operator "n") ev1). split; [|split].
  - apply runs_level3_minus; [|exact R1].
    rewrite (at_char_at _ _ _ _ L0); reflexivity.
  - exact L1.
  - apply extends_neg. eapply extends_after; [apply same_nextch|exact X1].
Qed.

Lemma get_name_fn_then ev f r :
  line ev = (fn_name f ++ r)%string ->
  match r with String k _ => isname k = false | EmptyString => True end ->
  get_name ev = (fn_name f, set_line r ev) /\
  isdigit (cur ev) = false /\ at_char "(" ev = false /\
  isalpha (cur ev) || at_char "_" ev = true /\
  math_function (fn_name f) = Some (fn_id f).
Proof.
  intros L H. unfold get_name, at_char, cur. rewrite L.
  destruct f, r as [|k r]; simpl; try rewrite H; repeat split.
Qed.

Lemma accepts_function f x t ws :
  accepts vars level3 stop3 t x -> unspaced t -> blank ws -> apart ws t ->
  accepts vars level4 stop3 (fn_name f ++ ws ++ t) (Call f x).
Proof.
  intros H U B A u ev Su L F.
  assert (L0 : line ev = (fn_name f ++ ws ++ t ++ u)%string).
  { rewrite L, !string_app_assoc. reflexivity. }
  destruct (get_name_fn_then ev f _ L0) as (Hn & Hd & Hp & Ha & Hf).
  { destruct ws as [|k ws].
    - destruct A as [A|A]; [congruence|].
      destruct U as (c & r & -> & _). exact A.
    - apply space_not_name. unfold blank in B. simpl in B.
      apply andb_true_iff in B. apply B. }
  set (ev1 := set_line (ws ++ t ++ u) ev) in *.
  assert (L1 : line (eatspace ev1) = (t ++ u)%string).
  { change (line (eatspace ev1)) with (skip_space (ws ++ t ++ u)).
    apply skip_blank_text; assumption. }
  assert (S1 : same ev (eatspace ev1)) by (repeat split).
  destruct (H u (eatspace ev1) Su L1) as (ev2 & R2 & L2 & X2).
  { eapply ready_same; eauto. }
  exists (push_symbol (mkSymbol MATHFN (fn_id f)) ev2). split; [|split].
  - eapply runs_level4; [eapply runs_top_call; eauto|].
    apply runs_level4_stop. rewrite at_char_push.
    apply (not_at_char _ u); [apply Su|discriminate|exact L2].
  - exact L2.
  - apply extends_call. eapply extends_after; [exact S1|exact X2].
Qed.

(** An operator, white space and the right operand, after the left one. *)
Lemma accepts_right (p : nat -> Evaluator -> parsed)
    (follow : string -> Prop) a tb b op ws u ev ev1 :
  accepts vars p follow tb b -> unspaced tb -> blank ws -> follow u ->
  ready vars ev (List.length (leaves (Binary op a b))) ->
  line ev1 = String (op_char op) (ws ++ tb ++ u) ->
  extends ev a ev1 ->
  exists ev2, runs p (nextch ev1) (true, ev2) /\
    line (push_symbol (operator (op_char op)) ev2) = u /\
    extends ev (Binary op a b) (push_symbol (operator (op_char op)) ev2).
Proof.
  intros H U B Fu F L1 X1. simpl in F. rewrite length_app in F.
  destruct (H u (nextch ev1) Fu) as (ev2 & R2 & L2 & X2).
  { rewrite (line_nextch_at _ _ _ L1). apply skip_blank_text; assumption. }
  { eapply ready_same; [apply same_nextch|].
    eapply extends_ready; [exact X1|exact F]. }
  exists ev2. split; [exact R2|]. split; [exact L2|].
  eapply extends_binary; [exact X1|].
  eapply extends_after; [apply same_nextch|exact X2].
Qed.

Lemma line_operand ta op ws tb u :
  ((ta ++ String op (ws ++ tb)) ++ u =
   ta ++ String op (ws ++ tb ++ u))%string.
Proof.
  rewrite string_app_assoc. cbn [append]. rewrite string_app_assoc.
  reflexivity.
Qed.

Lemma accepts_on_sum op a ta b tb ws :
  op = Add \/ op = Sub ->
  accepts_on vars level1 level1_loop stop1 ta a ->
  accepts_on vars level2 level2_loop stop3 tb b -> unspaced tb -> blank ws ->
  accepts_on vars level1 level1_loop stop1
    (ta ++ String (op_char op) (ws ++ tb)) (Binary op a b).
Proof.
  intros Hop Ha Hb Ub B u ev Su L F. rewrite line_operand in L.
  destruct (Ha (String (op_char op) (ws ++ tb ++ u)) ev)
    as (ev1 & C1 & L1 & X1).
  { destruct Hop; subst; repeat split. }
  { exact L. }
  { exact (ready_left _ _ _ _ F). }
  destruct (accepts_right level2 stop1 a tb b op ws u ev ev1
              (accepts_level2 _ _ Hb) Ub B Su F L1 X1)
    as (ev2 & R2 & L2 & X2).
  eexists. split; [|split; [exact L2|exact X2]].
  intros r Hr. apply C1. eapply runs_level1_step; [|exact R2|].
  - rewrite !(at_char_at _ _ _ _ L1). destruct Hop; subst; reflexivity.
  - rewrite (cur_at _ _ _ L1). destruct Hop; subst; exact Hr.
Qed.

Lemma accepts_on_product op a ta b tb ws :
  op = Mul \/ op = Div ->
  accepts_on vars level2 level2_loop stop3 ta a ->
  accepts vars level3 stop3 tb b -> unspaced tb -> blank ws ->
  accepts_on vars level2 level2_loop stop3
    (ta ++ String (op_char op) (ws ++ tb)) (Binary op a b).
Proof.
  intros Hop Ha Hb Ub B u ev Su L F. rewrite line_operand in L.
  destruct (Ha (String (op_char op) (ws ++ tb ++ u)) ev)
    as (ev1 & C1 & L1 & X1).
  { destruct Hop; subst; repeat split. }
  { exact L. }
  { exact (ready_left _ _ _ _ F). }
  destruct (accepts_right level3 stop3 a tb b op ws u ev ev1
              Hb Ub B Su F L1 X1)
    as (ev2 & R2 & L2 & X2).
  eexists. split; [|split; [exact L2|exact X2]].
  intros r Hr. apply C1. eapply runs_level2_step; [|exact R2|].
  - rewrite !(at_char_at _ _ _ _ L1). destruct Hop; subst; reflexivity.
  - rewrite (cur_at _ _ _ L1). destruct Hop; subst; exact Hr.
Qed.

Lemma accepts_power a ta b tb ws :
  accepts vars level_top stop ta a -> accepts vars level3 stop3 tb b ->
  unspaced tb -> blank ws ->
  accepts vars level4 stop3 (ta ++ String "^" (ws ++ tb)) (Binary Pow a b).
Proof.
  intros Ha Hb Ub B u ev Su L F.
  rewrite (line_operand ta "^") in L.
  destruct (Ha (String "^" (ws ++ tb ++ u)) ev) as (ev1 & R1 & L1 & X1).
  { reflexivity. }
  { exact L. }
  { exact (ready_left _ _ _ _ F). }
  destruct (accepts_right level3 stop3 a tb b Pow ws u ev ev1
              Hb Ub B Su F L1 X1)
    as (ev2 & R2 & L2 & X2).
  eexists. split; [|split; [exact L2|exact X2]].
  eapply runs_level4; [exact R1|]. eapply runs_level4_step; [|exact R2|].
  - rewrite (at_char_at _ _ _ _ L1); reflexivity.
  - apply runs_level4_stop.
    apply (not_at_char _ u); [apply Su|discriminate|exact L2].
Qed.

Lemma written_accepted l e t : written vars l e t -> level_accepts vars l t e.
Proof.
  induction 1 as [lit c ws Hl Hb
                 |nm v ws Hn Hf Hv Hb
                 |e t ws1 ws2 W IH B1 B2
                 |f x t ws W IH B A
                 |a ta b tb ws Wa IHa Wb IHb B
                 |x t ws W IH B
                 |op a ta b tb ws Hop Wa IHa Wb IHb B
                 |op a ta b tb ws Hop Wa IHa Wb IHb B
                 |l e t W IH].
  - apply accepts_number; assumption.
  - apply accepts_variable; assumption.
  - apply accepts_parentheses; auto. apply (written_start _ _ _ W).
  - apply accepts_function; auto. apply (written_start _ _ _ W).
  - apply accepts_power; auto. apply (written_start _ _ _ Wb).
  - apply accepts_minus; auto. apply (written_start _ _ _ W).
  - apply accepts_on_product; auto. apply (written_start _ _ _ Wb).
  - apply accepts_on_sum; auto. apply (written_start _ _ _ Wb).
  - destruct l as [|[|[|[|[|l]]]]]; simpl in *.
    + exact I.
    + apply accepts_on_level1; exact IH.
    + apply accepts_on_level2; exact IH.
    + apply accepts_level3; [exact IH|].
      apply (written_start _ _ _ W). lia.
    + apply accepts_level4; exact IH.
    + destruct l; contradiction.
Qed.

Lemma runs_parse_last ev ev1 :
  at_end ev = false -> runs level1 ev (true, ev1) -> at_end ev1 = true ->
  runs parse_loop ev (true, push_symbol (operator ";") ev1).
Proof.
  intros He (f & E) H1. exists (S (S f)).
  destruct (levels_stable f) as (S1 & _).
  cbn [parse_loop]. rewrite He, (S1 (S f) ev _ (Nat.le_succ_diag_r f) E).
  cbn [guard].
  assert (A : at_char ";" ev1 = false).
  { unfold at_char. rewrite (at_end_cur _ H1). reflexivity. }
  rewrite A, H1.
  change (at_char ";" (push_symbol (operator ";") ev1)) with (at_char ";" ev1).
  rewrite A. cbn [negb andb].
  change (at_end (push_symbol (operator ";") ev1)) with (at_end ev1).
  rewrite H1. reflexivity.
Qed.

Lemma written_line_start es ts :
  written_line vars es ts ->
  match ts with String c _ => isspace c = false | EmptyString => True end.
Proof.
  intros [|e t W|e t ws es' ts' W _ _]; [exact I| |].
  - destruct (written_start _ _ _ W) as ((c & r & -> & H & _) & _). exact H.
  - apply unspaced_tight, (written_start _ _ _ W).
Qed.

Lemma line_read es ts :
  written_line vars es ts ->
  forall ev, line ev = ts ->
    ready vars ev (List.length (program_leaves es)) ->
    exists ev', runs parse_loop ev (true, ev') /\ extends_program ev es ev'.
Proof.
  induction 1 as [|e t W|e t ws es ts W B Wl IH]; intros ev L F.
  - exists ev. split.
    + apply runs_parse_stop. unfold at_end, at_char, cur. rewrite L.
      reflexivity.
    + unfold extends_program, builds_program. simpl. rewrite !app_nil_r.
      auto.
  - unfold program_leaves in F. simpl in F. rewrite app_nil_r in F.
    destruct (accepts_level1 t e "" ev (written_accepted _ _ _ W))
      as (ev1 & R1 & L1 & (Bs & Bc) & Bo & Bv); try exact I; auto.
    { repeat split. }
    { rewrite string_app_nil_r. exact L. }
    exists (push_symbol (operator ";") ev1). split.
    + apply runs_parse_last; [|exact R1|].
      * eapply unspaced_not_end; [apply (written_start _ _ _ W)|].
        rewrite string_app_nil_r. exact L.
      * unfold at_end, at_char, cur. rewrite L1. reflexivity.
    + unfold extends_program, builds_program, program_leaves. simpl.
      rewrite Bs, Bc, app_nil_r, <- app_assoc. auto.
  - unfold program_leaves in F. simpl in F. rewrite length_app in F.
    fold (program_leaves es) in F.
    destruct (accepts_level1 t e (String ";" (ws ++ ts)) ev
                (written_accepted _ _ _ W))
      as (ev1 & R1 & L1 & X1); try reflexivity; auto.
    { repeat split. }
    { eapply ready_less; eauto. lia. }
    set (ev2 := nextch (push_symbol (operator ";") ev1)).
    assert (S2 : symbols ev2 = symbols ev1 ++ [operator ";"] /\
                 constants ev2 = constants ev1 /\ cout ev2 = cout ev1 /\
                 variables ev2 = variables ev1).
    { subst ev2.
      destruct (nextch_frame (push_symbol (operator ";") ev1))
        as (-> & -> & -> & ->). repeat split. }
    destruct S2 as (Ss & Sc & So & Sv).
    destruct (IH ev2) as (ev3 & R3 & (B3s & B3c) & B3o & B3v).
    { subst ev2. rewrite line_nextch_push, (line_nextch_at _ _ _ L1).
      apply skip_space_blank_app; [exact B|].
      apply (written_line_start _ _ Wl). }
    { split; [rewrite Sv; destruct X1 as (_ & _ & ->); apply F|].
      unfold fits. rewrite Sc. apply (extends_fits _ _ _ _ X1). apply F. }
    exists ev3. split.
    + eapply runs_parse_step; [|exact R1| |exact R3].
      * eapply unspaced_not_end; [apply (written_start _ _ _ W)|exact L].
      * rewrite (at_char_at _ _ _ _ L1); reflexivity.
    + destruct X1 as ((B1s & B1c) & B1o & B1v).
      unfold extends_program, builds_program, program_leaves. simpl.
      fold (program_leaves es).
      rewrite B3s, B3c, B3o, B3v, Ss, Sc, So, Sv, B1s, B1c, B1o, B1v.
      rewrite length_app, <- !app_assoc. auto.
Qed.

End Language.

(** X13.  The language of a line.  A statement is built from numbers (any
    text that [strtod] reads as a number), the names of the variables of
    the evaluator (a new one has [e] and [pi]), which stand for their
    values, the names of the five functions, the unary minus,
    [+ - * / ^] and parentheses, with the
    usual precedence ([+ -] lowest, then [* /], the unary minus, and
    highest [^] and the application of a function to the operand after
    it) and associativity ([^] to the right), parentheses around any
    operand, and white space after any number, name, operator or
    parenthesis.  A line is statements separated by [;], with an optional
    [;] after the last and optional white space at its start.  Every such
    line, in a cleared evaluator, is accepted by [parse] without a report;
    the program is the code of its statements, the pool their constants;
    [understanding] returns their fully parenthesised text and [run]
    reports the value of each, in order. *)
Theorem written_lines_are_read (M : libm) (es : list expr) (ws text : string)
    (ev0 : Evaluator) :
  cleared ev0 -> blank ws -> written_line (variables ev0) es text ->
  (N.of_nat (List.length (program_leaves es)) < 2 ^ 32)%N ->
  exists ev,
    parse (ws ++ text) ev0 = Some (true, ev) /\
    at_end ev = true /\ cout ev = cout ev0 /\
    variables ev = variables ev0 /\
    symbols ev = compile_program 0 es /\
    constants ev = program_leaves es /\
    understanding ev = Returns (show_program es, []) /\
    run M ev = Returns (true, map (fun e => Evaluation (number M e)) es).
Proof.
  intros (Ec & Es) B W Hlen.
  set (ev1 := eatspace (set_line (ws ++ text) ev0)).
  destruct (line_read (variables ev0) es text W ev1)
    as (ev & Hr & (Bs & Bc) & Bo & Bv).
  { apply skip_space_blank_app; [exact B|].
    apply (written_line_start _ _ _ W). }
  { split; [reflexivity|]. unfold fits. subst ev1. simpl. rewrite Ec.
    exact Hlen. }
  subst ev1. simpl in Bs, Bc, Bo, Bv. rewrite Ec in *. rewrite Es in *.
  simpl in Bs, Bc.
  pose proof (parse_of_runs _ _ _ Hr) as Hp.
  exists ev. split; [exact Hp|]. split.
  { unfold parse in Hp. eapply parse_loop_ends; exact Hp. }
  split; [exact Bo|]. split; [exact Bv|]. split; [exact Bs|].
  split; [exact Bc|]. unfold understanding, run. rewrite Bs, Bc. split.
  - apply (understanding_program _ es [] [] "").
    simpl. rewrite app_nil_r. reflexivity.
  - apply (run_program M _ es [] [] []).
    simpl. rewrite app_nil_r. reflexivity.
Qed.

Lemma written_down vars l l' e t :
  l' <= l -> written vars l e t -> written vars l' e t.
Proof.
  induction 1 as [|l H IH]; [auto|]. intros W. apply IH, W_lower, W.
Qed.

Lemma isspace_cases k :
  isspace k = true ->
  k = " "%char \/ k = ascii_of_N 9 \/ k = ascii_of_N 10 \/
  k = ascii_of_N 11 \/ k = ascii_of_N 12 \/ k = ascii_of_N 13.
Proof.
  destruct k as [[] [] [] [] [] [] [] []]; try discriminate; simpl; auto 10.
Qed.

(** A text is a number: by computation, for each character that may
    follow it. *)
Ltac literal_by_computation :=
  split;
  [ eexists _, _; split; vm_compute; reflexivity
  | let k := fresh "k" in
    let B := fresh "B" in
    let St := fresh "St" in
    intros [|k ?] [|? ?] B St;
    [ vm_compute; reflexivity
    | cbn [stop] in St; apply delimiter_cases in St;
      repeat (destruct St as [St|St]); subst; vm_compute; reflexivity
    | | ];
    unfold blank in B; cbn [forallb list_ascii_of_string] in B;
    apply andb_true_iff in B; destruct B as (B & _);
    apply isspace_cases in B;
    repeat (destruct B as [B|B]); subst k; vm_compute; reflexivity ].

Lemma literal_2 : literal "2" 2.
Proof. literal_by_computation. Qed.

Lemma literal_3 : literal "3" 3.
Proof. literal_by_computation. Qed.

Lemma literal_15 : literal "1.5e1" 15.
Proof. literal_by_computation. Qed.

Lemma literal_16 : literal "0x10" 16.
Proof. literal_by_computation. Qed.

Lemma written_lines_are_read_witness :
  exists ev,
    parse " 3 - 2-2; sin 0x10 ^2 *-( 1.5e1 )/ pi" Evaluator_new =
      Some (true, ev) /\
    at_end ev = true /\ cout ev = [] /\
    variables ev = variables Evaluator_new /\
    symbols ev =
      compile_program 0
        [Binary Sub (Binary Sub (Const 3) (Const 2)) (Const 2);
         Binary Div
           (Binary Mul (Call Fsin (Binary Pow (Const 16) (Const 2)))
              (Neg (Const 15)))
           (Const 0x1.921fb54442d18p+1)] /\
    constants ev = [3; 2; 2; 16; 2; 15; 0x1.921fb54442d18p+1]%float /\
    understanding ev =
      Returns ("((3-2)-2);" ++ nl ++
               "((sin((16^2))*(-15))/3.14159);" ++ nl, [])%string /\
    run small_libm ev =
      Returns (true,
               map (fun e => Evaluation (number small_libm e))
                 [Binary Sub (Binary Sub (Const 3) (Const 2)) (Const 2);
                  Binary Div
                    (Binary Mul (Call Fsin (Binary Pow (Const 16) (Const 2)))
                       (Neg (Const 15)))
                    (Const 0x1.921fb54442d18p+1)]).
Proof.
  apply (written_lines_are_read small_libm
           [Binary Sub (Binary Sub (Const 3) (Const 2)) (Const 2);
            Binary Div
              (Binary Mul (Call Fsin (Binary Pow (Const 16) (Const 2)))
                 (Neg (Const 15)))
              (Const 0x1.921fb54442d18p+1)]
           " " "3 - 2-2; sin 0x10 ^2 *-( 1.5e1 )/ pi" Evaluator_new).
  - split; reflexivity.
  - reflexivity.
  - apply (L_statement _ _ "3 - 2-2" " " _ "sin 0x10 ^2 *-( 1.5e1 )/ pi");
      [|reflexivity|apply L_last].
    + apply (W_sum _ Sub _ "3 - 2" _ "2" ""); [auto| | |reflexivity].
      * apply (W_sum _ Sub _ "3 " _ "2" " "); [auto| | |reflexivity].
        -- apply (written_down _ 5); [lia|].
           apply (W_number _ "3" 3 " " literal_3). reflexivity.
        -- apply (written_down _ 5); [lia|].
           apply (W_number _ "2" 2 "" literal_2). reflexivity.
      * apply (written_down _ 5); [lia|].
        apply (W_number _ "2" 2 "" literal_2). reflexivity.
    + apply (written_down _ 2); [lia|].
      apply (W_product _ Div _ "sin 0x10 ^2 *-( 1.5e1 )" _ "pi" " ");
        [auto| | |reflexivity].
      * apply (W_product _ Mul _ "sin 0x10 ^2 " _ "-( 1.5e1 )" "");
          [auto| | |reflexivity].
        -- apply (written_down _ 4); [lia|].
           apply (W_function _ Fsin _ "0x10 ^2 " " ");
             [|reflexivity|left; discriminate].
           apply (written_down _ 4); [lia|].
           apply (W_power _ _ "0x10 " _ "2 " ""); [| |reflexivity].
           ++ apply (W_number _ "0x10" 16 " " literal_16). reflexivity.
           ++ apply (written_down _ 5); [lia|].
              apply (W_number _ "2" 2 " " literal_2). reflexivity.
        -- apply (W_minus _ _ "( 1.5e1 )" ""); [|reflexivity].
           apply (written_down _ 5); [lia|].
           apply (W_parentheses _ _ "1.5e1 " " " "");
             [|reflexivity|reflexivity].
           apply (written_down _ 5); [lia|].
           apply (W_number _ "1.5e1" 15 " " literal_15). reflexivity.
      * apply (written_down _ 5); [lia|].
        apply (W_variable _ "pi" (mkVar "pi" 0x1.921fb54442d18p+1) "");
          [|reflexivity|reflexivity|reflexivity].
        exists "p"%char, "i"%string. repeat split.
  - vm_compute. reflexivity.
Defined.

(** ** Calling [eval] again without [clear] *)

Lemma program_leaves_app es1 es2 :
  program_leaves (es1 ++ es2) = program_leaves es1 ++ program_leaves es2.
Proof. unfold program_leaves. rewrite map_app, concat_app. reflexivity. Qed.

Lemma compile_program_app es1 es2 : forall base,
  compile_program base (es1 ++ es2) =
  compile_program base es1 ++
  compile_program (base + List.length (program_leaves es1)) es2.
Proof.
  induction es1 as [|e es1 IH]; intros base; simpl.
  - rewrite Nat.add_0_r. reflexivity.
  - rewrite IH, <- app_assoc. simpl. do 3 f_equal.
    unfold program_leaves. simpl. rewrite length_app, Nat.add_assoc.
    reflexivity.
Qed.

(** X14.  What [clear] is for.  [parse] appends to the program and to the
    pool that are there.  When a line has been parsed without a report in
    a cleared evaluator and a second line is parsed without a report and
    without [clear] in between, the program is the code of the statements
    of both lines, and [understanding] and [run] replay all of them: the
    statements of the first line are written and evaluated once more. *)
Theorem without_clear_the_program_grows (M : libm) (s1 s2 : string)
    (ev0 ev1 ev2 : Evaluator) :
  cleared ev0 ->
  (N.of_nat (String.length s1 + String.length s2) < 2 ^ 32)%N ->
  parse s1 ev0 = Some (true, ev1) -> cout ev1 = cout ev0 ->
  parse s2 ev1 = Some (true, ev2) -> cout ev2 = cout ev1 ->
  exists es1 es2,
    symbols ev1 = compile_program 0 es1 /\
    symbols ev2 = compile_program 0 (es1 ++ es2) /\
    constants ev2 = program_leaves (es1 ++ es2) /\
    understanding ev2 = Returns (show_program (es1 ++ es2), []) /\
    run M ev2 =
      Returns (true, map (fun e => Evaluation (number M e)) (es1 ++ es2)).
Proof.
  intros C Hlen H1 O1 H2 O2.
  destruct (clean_parse s1 ev0 ev1 C) as (es1 & Es1 & Ec1 & Hl1);
    [lia|exact H1|exact O1|].
  unfold parse in H2.
  set (ev := eatspace (set_line s2 ev1)) in *.
  assert (Sev : small ev).
  { unfold small. subst ev. simpl. rewrite Ec1.
    pose proof (skip_space_length s2). lia. }
  destruct (parse_loop_sound _ _ _ H2 O2 Sev) as (es2 & Bs & Bc).
  subst ev. simpl in Bs, Bc. rewrite Es1, Ec1 in Bs. rewrite Ec1 in Bc.
  exists es1, es2. split; [exact Es1|].
  assert (Es : symbols ev2 = compile_program 0 (es1 ++ es2)).
  { rewrite Bs, compile_program_app. reflexivity. }
  assert (Ec : constants ev2 = program_leaves (es1 ++ es2)).
  { rewrite Bc, program_leaves_app. reflexivity. }
  split; [exact Es|]. split; [exact Ec|].
  unfold understanding, run. rewrite Es, Ec. split.
  - apply (understanding_program _ (es1 ++ es2) [] [] "").
    simpl. rewrite app_nil_r. reflexivity.
  - apply (run_program M _ (es1 ++ es2) [] [] []).
    simpl. rewrite app_nil_r. reflexivity.
Qed.

Lemma without_clear_the_program_grows_witness :
  exists es1 es2,
    symbols
      (mkEvaluator [2; 2]%float
         [mkSymbol CONSTANT 0; mkSymbol CONSTANT 1; operator "+";
          operator ";"]
         (variables Evaluator_new) "" []) = compile_program 0 es1 /\
    symbols
      (mkEvaluator [2; 2; 3; 3]%float
         [mkSymbol CONSTANT 0; mkSymbol CONSTANT 1; operator "+";
          operator ";";
          mkSymbol CONSTANT 2; mkSymbol CONSTANT 3; operator "*";
          operator ";"]
         (variables Evaluator_new) "" []) = compile_program 0 (es1 ++ es2) /\
    constants
      (mkEvaluator [2; 2; 3; 3]%float
         [mkSymbol CONSTANT 0; mkSymbol CONSTANT 1; operator "+";
          operator ";";
          mkSymbol CONSTANT 2; mkSymbol CONSTANT 3; operator "*";
          operator ";"]
         (variables Evaluator_new) "" []) = program_leaves (es1 ++ es2) /\
    understanding
      (mkEvaluator [2; 2; 3; 3]%float
         [mkSymbol CONSTANT 0; mkSymbol CONSTANT 1; operator "+";
          operator ";";
          mkSymbol CONSTANT 2; mkSymbol CONSTANT 3; operator "*";
          operator ";"]
         (variables Evaluator_new) "" []) =
      Returns (show_program (es1 ++ es2), []) /\
    run small_libm
      (mkEvaluator [2; 2; 3; 3]%float
         [mkSymbol CONSTANT 0; mkSymbol CONSTANT 1; operator "+";
          operator ";";
          mkSymbol CONSTANT 2; mkSymbol CONSTANT 3; operator "*";
          operator ";"]
         (variables Evaluator_new) "" []) =
      Returns (true,
               map (fun e => Evaluation (number small_libm e)) (es1 ++ es2)).
Proof.
  apply (without_clear_the_program_grows small_libm "2+2" "3*3"
           Evaluator_new).
  - split; reflexivity.
  - vm_compute. reflexivity.
  - vm_compute. reflexivity.
  - reflexivity.
  - vm_compute. reflexivity.
  - reflexivity.
Defined.
